(** * Splitwise expense ledger (app.py): shallow embedding and properties

    The development follows the source bottom-up:
    - [Dec]: Python's [decimal.Decimal] under the default context
      (28 significant digits, ROUND_HALF_EVEN, Emax = 999999,
      traps InvalidOperation / DivisionByZero / Overflow);
    - the object store holding the mutable [Split] objects, and Python
      dictionaries as insertion-ordered association lists;
    - [ExpenseService.create_expense] and the three [validate] methods;
    - [ExpenseManager]: [add_user], [add_expense], [show_balance];
    - [main]: the command loop, over the words of each input line. *)

From Stdlib Require Import ZArith QArith Qpower Lia List String Bool.
From stdpp Require Import base list relations.
Import ListNotations.
Close Scope Q_scope.

(** ** Outcomes of Python code: a value or a raised exception *)

Inductive exn : Type :=
| KeyError (key : string)          (* dict[key] on a missing key *)
| IndexError                       (* list index out of range *)
| InvalidOperation                 (* decimal.InvalidOperation (trapped) *)
| DivisionByZero                   (* decimal.DivisionByZero (trapped) *)
| Overflow                         (* decimal.Overflow (trapped) *)
| ValueError                       (* round() of a NaN *)
| OverflowError                    (* round() of an infinity *)
| BadReference.                    (* an address outside the object store;
                                      no Python program can build one *)

Inductive outcome (A : Type) : Type :=
| Ret (a : A)
| Raise (e : exn).
Arguments Ret {A} a.
Arguments Raise {A} e.

Definition obind {A B} (o : outcome A) (k : A -> outcome B) : outcome B :=
  match o with
  | Ret a => k a
  | Raise e => Raise e
  end.

(** ** Decimal arithmetic under the default context *)

Module Dec.
Local Open Scope Z_scope.

(** A Decimal is a finite number [c * 10^e], an infinity or a NaN.  The
    coefficient carries the sign; the sign of a zero is not represented,
    since no operation the program uses can tell [-0] from [0]. *)
Inductive Decimal : Type :=
| Fin (c e : Z)
| Inf (negative : bool)
| NaN (signaling : bool).

Definition prec : Z := 28.
Definition Emax : Z := 999999.
Definition Emin : Z := -999999.
Definition Etiny : Z := Emin - prec + 1.
Definition Etop : Z := Emax - prec + 1.

(** [len(str(n))] for a positive integer [n]. *)
Fixpoint ndigits_aux (fuel : nat) (n : Z) : Z :=
  match fuel with
  | O => 1
  | S f => if n <? 10 then 1 else 1 + ndigits_aux f (n / 10)
  end.

Definition ndigits (n : Z) : Z := ndigits_aux (Z.to_nat (Z.log2 n)) n.

(** Quotient of [a >= 0] by [d > 0], rounded half to even. *)
Definition div_half_even (a d : Z) : Z :=
  let q := a / d in
  let r := a mod d in
  if 2 * r <? d then q
  else if d <? 2 * r then q + 1
  else if Z.even q then q else q + 1.

(** [Decimal._fix]: round a finite result to the context. *)
Definition fix_fin (c e : Z) : outcome Decimal :=
  if c =? 0 then Ret (Fin 0 (Z.min (Z.max e Etiny) Emax))
  else
    let a := Z.abs c in
    let exp_min := ndigits a + e - prec in
    if Etop <? exp_min then Raise Overflow
    else
      let exp_min := Z.max exp_min Etiny in
      if e <? exp_min then
        let q := div_half_even a (10 ^ (exp_min - e)) in
        if 10 ^ prec <=? q
        then (if Etop <? exp_min + 1 then Raise Overflow
              else Ret (Fin (Z.sgn c * (q / 10)) (exp_min + 1)))
        else Ret (Fin (Z.sgn c * q) exp_min)
      else Ret (Fin c e).

Definition of_int (n : Z) : Decimal := Fin n 0.

Definition neg (x : Decimal) : Decimal :=
  match x with
  | Fin c e => Fin (- c) e
  | Inf s => Inf (negb s)
  | NaN s => NaN s
  end.

(** [_check_nans] for a binary operation: a signaling NaN raises, a quiet
    NaN is the result; [None] when neither operand is a NaN. *)
Definition check_nans (x y : Decimal) : option (outcome Decimal) :=
  match x, y with
  | NaN true, _ => Some (Raise InvalidOperation)
  | _, NaN true => Some (Raise InvalidOperation)
  | NaN false, _ => Some (Ret (NaN false))
  | _, NaN false => Some (Ret (NaN false))
  | _, _ => None
  end.

Definition is_zero (x : Decimal) : bool :=
  match x with
  | Fin c _ => c =? 0
  | _ => false
  end.

(** [Decimal.__add__]: the exact sum at the smaller exponent, then [_fix]. *)
Definition add (x y : Decimal) : outcome Decimal :=
  match check_nans x y with
  | Some r => r
  | None =>
    match x, y with
    | Inf s1, Inf s2 => if Bool.eqb s1 s2 then Ret (Inf s1) else Raise InvalidOperation
    | Inf s1, _ => Ret (Inf s1)
    | _, Inf s2 => Ret (Inf s2)
    | Fin c1 e1, Fin c2 e2 =>
      let m := Z.min e1 e2 in
      fix_fin (c1 * 10 ^ (e1 - m) + c2 * 10 ^ (e2 - m)) m
    | _, _ => Raise InvalidOperation
    end
  end.

(** [Decimal.__sub__]: [self + other.copy_negate()]. *)
Definition sub (x y : Decimal) : outcome Decimal :=
  match check_nans x y with
  | Some r => r
  | None => add x (neg y)
  end.

(** [Decimal.__mul__]. *)
Definition mul (x y : Decimal) : outcome Decimal :=
  match check_nans x y with
  | Some r => r
  | None =>
    match x, y with
    | Inf s1, Inf s2 => Ret (Inf (xorb s1 s2))
    | Inf s1, Fin c2 _ =>
      if c2 =? 0 then Raise InvalidOperation else Ret (Inf (xorb s1 (c2 <? 0)))
    | Fin c1 _, Inf s2 =>
      if c1 =? 0 then Raise InvalidOperation else Ret (Inf (xorb (c1 <? 0) s2))
    | Fin c1 e1, Fin c2 e2 => fix_fin (c1 * c2) (e1 + e2)
    | _, _ => Raise InvalidOperation
    end
  end.

(** The loop of [__truediv__] that moves an exact quotient towards the
    ideal exponent: [while exp < ideal_exp and coeff % 10 == 0]. *)
Fixpoint strip_zeros (fuel : nat) (coeff exp ideal : Z) : Z * Z :=
  match fuel with
  | O => (coeff, exp)
  | S f =>
    if (exp <? ideal) && (coeff mod 10 =? 0)
    then strip_zeros f (coeff / 10) (exp + 1) ideal
    else (coeff, exp)
  end.

(** [Decimal.__truediv__]. *)
Definition div (x y : Decimal) : outcome Decimal :=
  match check_nans x y with
  | Some r => r
  | None =>
    match x, y with
    | Inf _, Inf _ => Raise InvalidOperation
    | Inf s1, Fin c2 _ => Ret (Inf (xorb s1 (c2 <? 0)))
    | Fin _ _, Inf _ => Ret (Fin 0 Etiny)
    | Fin c1 e1, Fin c2 e2 =>
      if c2 =? 0 then (if c1 =? 0 then Raise InvalidOperation else Raise DivisionByZero)
      else if c1 =? 0 then fix_fin 0 (e1 - e2)
      else
        let a1 := Z.abs c1 in
        let a2 := Z.abs c2 in
        let sign := Z.sgn c1 * Z.sgn c2 in
        let shift := ndigits a2 - ndigits a1 + prec + 1 in
        let exp := e1 - e2 - shift in
        let num := if 0 <=? shift then a1 * 10 ^ shift else a1 in
        let den := if 0 <=? shift then a2 else a2 * 10 ^ (- shift) in
        let coeff := num / den in
        let remainder := num mod den in
        if remainder =? 0 then
          let '(coeff', exp') :=
            strip_zeros (Z.to_nat (e1 - e2 - exp)) coeff exp (e1 - e2) in
          fix_fin (sign * coeff') exp'
        else
          fix_fin (sign * (if coeff mod 5 =? 0 then coeff + 1 else coeff)) exp
    | _, _ => Raise InvalidOperation
    end
  end.

(** [Decimal.__abs__]: rounds to the context like every other operation. *)
Definition abs (x : Decimal) : outcome Decimal :=
  match x with
  | NaN true => Raise InvalidOperation
  | NaN false => Ret (NaN false)
  | Inf _ => Ret (Inf false)
  | Fin c e => fix_fin (Z.abs c) e
  end.

(** [Decimal._cmp] on numbers that are not NaN. *)
Definition cmp (x y : Decimal) : comparison :=
  match x, y with
  | Fin c1 e1, Fin c2 e2 =>
    let m := Z.min e1 e2 in
    (c1 * 10 ^ (e1 - m)) ?= (c2 * 10 ^ (e2 - m))
  | Inf s1, Inf s2 =>
    match s1, s2 with
    | true, false => Lt
    | false, true => Gt
    | _, _ => Eq
    end
  | Inf true, _ => Lt
  | Inf false, _ => Gt
  | _, Inf true => Gt
  | _, Inf false => Lt
  | _, _ => Eq
  end.

Definition is_nan (x : Decimal) : bool :=
  match x with
  | NaN _ => true
  | _ => false
  end.

(** [<] and [>]: any NaN operand raises InvalidOperation. *)
Definition lt (x y : Decimal) : outcome bool :=
  if is_nan x || is_nan y then Raise InvalidOperation
  else Ret (match cmp x y with Lt => true | _ => false end).

Definition gt (x y : Decimal) : outcome bool :=
  if is_nan x || is_nan y then Raise InvalidOperation
  else Ret (match cmp x y with Gt => true | _ => false end).

(** [==]: a signaling NaN raises, a quiet NaN compares unequal. *)
Definition eq (x y : Decimal) : outcome bool :=
  match check_nans x y with
  | Some (Raise e) => Raise e
  | Some (Ret _) => Ret false
  | None => Ret (match cmp x y with Eq => true | _ => false end)
  end.

Definition ne (x y : Decimal) : outcome bool :=
  obind (eq x y) (fun b => Ret (negb b)).

(** [round(x)] with no digits argument: the nearest integer, ties to even. *)
Definition round (x : Decimal) : outcome Z :=
  match x with
  | NaN _ => Raise ValueError
  | Inf _ => Raise OverflowError
  | Fin c e =>
    if 0 <=? e then Ret (c * 10 ^ e)
    else Ret (Z.sgn c * div_half_even (Z.abs c) (10 ^ (- e)))
  end.

(** The rational number a finite Decimal stands for. *)
Definition value (x : Decimal) : Q :=
  match x with
  | Fin c e => (inject_Z c * (10 # 1) ^ e)%Q
  | _ => 0%Q
  end.

(** A finite Decimal that the context leaves as it is: at most [prec]
    digits and an exponent in range.  Every finite result of an arithmetic
    operation is of this kind; a Decimal built from a string need not be. *)
Definition representable (x : Decimal) : Prop :=
  match x with
  | Fin c e => fix_fin c e = Ret (Fin c e)
  | _ => False
  end.

(** What an arithmetic operation can return. *)
Definition context_result (x : Decimal) : Prop :=
  match x with
  | Fin c e => fix_fin c e = Ret (Fin c e)
  | _ => True
  end.

End Dec.

Export Dec(Decimal).

(** ** Computations that mutate a state and may raise

    A raised exception does not undo the writes made before it, so the
    state is returned in both cases. *)

Definition M (S A : Type) : Type := S -> S * outcome A.

Definition ret {S A} (a : A) : M S A := fun s => (s, Ret a).
Definition raise {S A} (e : exn) : M S A := fun s => (s, Raise e).
Definition lift {S A} (o : outcome A) : M S A := fun s => (s, o).

Definition bind {S A B} (m : M S A) (k : A -> M S B) : M S B :=
  fun s =>
    match m s with
    | (s', Ret a) => k a s'
    | (s', Raise e) => (s', Raise e)
    end.

Notation "'do' x <- m ; k" := (bind m (fun x => k))
  (at level 10, x name, m at level 100, k at level 200).

(** [for x in xs: body(x)] *)
Fixpoint for_each {S A} (xs : list A) (body : A -> M S unit) : M S unit :=
  match xs with
  | [] => ret tt
  | x :: rest => do _ <- body x; for_each rest body
  end.

(** ** Python dictionaries keyed by strings

    Iteration follows insertion order, and assigning to a key that is
    present keeps its position. *)

Module Dict.
Section dict.
Context {V : Type}.

Fixpoint get (k : string) (d : list (string * V)) : option V :=
  match d with
  | [] => None
  | (k', v) :: rest => if String.eqb k k' then Some v else get k rest
  end.

Fixpoint set (k : string) (v : V) (d : list (string * V)) : list (string * V) :=
  match d with
  | [] => [(k, v)]
  | (k', v') :: rest =>
    if String.eqb k k' then (k', v) :: rest else (k', v') :: set k v rest
  end.

Definition contains (k : string) (d : list (string * V)) : bool :=
  match get k d with
  | Some _ => true
  | None => false
  end.

(** [d[k]] *)
Definition subscript (k : string) (d : list (string * V)) : outcome V :=
  match get k d with
  | Some v => Ret v
  | None => Raise (KeyError k)
  end.
End dict.
End Dict.

Abbreviation dict V := (list (string * V)).

(** ** The data model *)

Inductive ExpenseType : Type := EQUAL | EXACT | PERCENT.

(** What a caller may pass as [expense_type]: a member of the enumeration
    or any other object (the [else] branch of [create_expense]). *)
Inductive expense_type_arg : Type :=
| Member (t : ExpenseType)
| NotMember.

Record User : Type := mkUser {
  user_id : string;
  user_name : string;
  user_email : string;
  user_phone : string
}.

Record ExpenseMetadata : Type := mkMetadata {
  metadata_name : string;
  img_url : string;
  notes : string
}.

(** The class of a split object.  Only a [PercentSplit] has the attribute
    [percent], which nothing assigns after construction. *)
Inductive SplitClass : Type :=
| Split
| EqualSplit
| ExactSplit
| PercentSplit (percent : Decimal).

(** A split object; [amount] is assigned in place by the factory. *)
Record SplitObj : Type := mkSplit {
  cls : SplitClass;
  user : User;
  amount : Decimal
}.

(** The object store: the address of a split object is its index. *)
Abbreviation addr := nat.
Abbreviation Heap := (list SplitObj).

Inductive ExpenseClass : Type := EqualExpense | ExactExpense | PercentExpense.

Record Expense : Type := mkExpense {
  expense_cls : ExpenseClass;
  expense_amount : Decimal;
  paid_by : User;
  splits : list addr;
  metadata : option ExpenseMetadata;
  expense_id : option string
}.

(** *** Reading and writing split objects *)

Definition read (a : addr) : M Heap SplitObj :=
  fun h =>
    match h !! a with
    | Some o => (h, Ret o)
    | None => (h, Raise BadReference)
    end.

(** [split.amount = x] *)
Definition set_amount (a : addr) (x : Decimal) : M Heap unit :=
  fun h =>
    match h !! a with
    | Some o => (<[a := mkSplit (cls o) (user o) x]> h, Ret tt)
    | None => (h, Raise BadReference)
    end.

Definition isinstance_EqualSplit (o : SplitObj) : bool :=
  match cls o with EqualSplit => true | _ => false end.
Definition isinstance_ExactSplit (o : SplitObj) : bool :=
  match cls o with ExactSplit => true | _ => false end.
Definition isinstance_PercentSplit (o : SplitObj) : bool :=
  match cls o with PercentSplit _ => true | _ => false end.

(** [all(test(split) for split in splits)], stopping at the first failure. *)
Fixpoint all_splits (test : SplitObj -> bool) (l : list addr) : M Heap bool :=
  match l with
  | [] => ret true
  | a :: rest =>
    do o <- read a;
    if test o then all_splits test rest else ret false
  end.

(** [sum(f(split) for split in splits)]: the running total starts at the
    integer 0, which Decimal addition converts to [Decimal(0)]. *)
Fixpoint sum_from (acc : Decimal) (f : SplitObj -> outcome Decimal) (l : list addr)
  : M Heap Decimal :=
  match l with
  | [] => ret acc
  | a :: rest =>
    do o <- read a;
    do x <- lift (f o);
    do acc' <- lift (Dec.add acc x);
    sum_from acc' f rest
  end.

Definition sum_splits (f : SplitObj -> outcome Decimal) (l : list addr) : M Heap Decimal :=
  sum_from (Dec.of_int 0) f l.

Definition get_amount (o : SplitObj) : outcome Decimal := Ret (amount o).

(** [split.percent]; read only after the [isinstance] test has passed. *)
Definition get_percent (o : SplitObj) : outcome Decimal :=
  match cls o with
  | PercentSplit p => Ret p
  | _ => Raise BadReference
  end.

Definition tolerance : Decimal := Dec.Fin 1 (-2).      (* Decimal('0.01') *)
Definition hundred : Decimal := Dec.Fin 100 0.         (* Decimal('100') *)

(** [abs(total - target) < Decimal('0.01')] *)
Definition within_tolerance (total target : Decimal) : outcome bool :=
  obind (Dec.sub total target) (fun d =>
  obind (Dec.abs d) (fun a => Dec.lt a tolerance)).

(** *** [Expense.validate] *)

Definition validate (e : Expense) : M Heap bool :=
  match expense_cls e with
  | EqualExpense => all_splits isinstance_EqualSplit (splits e)
  | ExactExpense =>
    do ok <- all_splits isinstance_ExactSplit (splits e);
    if negb ok then ret false
    else
      do total_amount <- sum_splits get_amount (splits e);
      lift (within_tolerance total_amount (expense_amount e))
  | PercentExpense =>
    do ok <- all_splits isinstance_PercentSplit (splits e);
    if negb ok then ret false
    else
      do total_percent <- sum_splits get_percent (splits e);
      lift (within_tolerance total_percent hundred)
  end.

(** *** [ExpenseService.create_expense] *)

(** The body of the PERCENT loop. *)
Definition assign_percent_share (amt : Decimal) (a : addr) : M Heap unit :=
  do o <- read a;
  match cls o with
  | PercentSplit percent =>
    do p <- lift (Dec.mul amt percent);
    do x <- lift (Dec.div p hundred);
    set_amount a x
  | _ => ret tt
  end.

(** [round((amount * Decimal('100')) / total_splits) / Decimal('100')] *)
Definition equal_share (amt : Decimal) (total_splits : Z) : outcome Decimal :=
  obind (Dec.mul amt hundred) (fun t =>
  obind (Dec.div t (Dec.of_int total_splits)) (fun q =>
  obind (Dec.round q) (fun r =>
  Dec.div (Dec.of_int r) hundred))).

(** [splits[0].amount += amount - (split_amount * total_splits)] *)
Definition absorb_remainder (amt split_amount : Decimal) (total_splits : Z)
    (l : list addr) : M Heap unit :=
  match l with
  | [] => raise IndexError
  | a0 :: _ =>
    do o <- read a0;
    do p <- lift (Dec.mul split_amount (Dec.of_int total_splits));
    do rem <- lift (Dec.sub amt p);
    do x <- lift (Dec.add (amount o) rem);
    set_amount a0 x
  end.

Definition build_expense (expense_type : expense_type_arg) (amt : Decimal)
    (payer : User) (l : list addr) (md : option ExpenseMetadata) : M Heap (option Expense) :=
  match expense_type with
  | Member EXACT => ret (Some (mkExpense ExactExpense amt payer l md None))
  | Member PERCENT =>
    do _ <- for_each l (assign_percent_share amt);
    ret (Some (mkExpense PercentExpense amt payer l md None))
  | Member EQUAL =>
    let total_splits := Z.of_nat (length l) in
    do split_amount <- lift (equal_share amt total_splits);
    do _ <- for_each l (fun a => set_amount a split_amount);
    do _ <- absorb_remainder amt split_amount total_splits l;
    ret (Some (mkExpense EqualExpense amt payer l md None))
  | NotMember => ret None
  end.

Definition create_expense (expense_type : expense_type_arg) (amt : Decimal)
    (payer : User) (l : list addr) (md : option ExpenseMetadata) : M Heap (option Expense) :=
  do built <- build_expense expense_type amt payer l md;
  match built with
  | None => ret None
  | Some expense =>
    do ok <- validate expense;
    ret (if ok then Some expense else None)
  end.

(** ** [ExpenseManager] *)

Record ExpenseManager : Type := mkManager {
  expenses : list Expense;
  user_map : dict User;
  balance_sheet : dict (dict Decimal)
}.

(** A line written to standard output.  The amount of an "owes" line is
    the Decimal handed to the [.2f] format; its rendering as text is not
    modelled. *)
Inductive Line : Type :=
| InvalidExpense                    (* "Invalid expense" *)
| NoBalances                        (* "No balances" *)
| Owes (debtor creditor : string) (a : Decimal).   (* "<debtor> owes <creditor>: <a>" *)

(** Everything a method of the manager can read or write: the object
    store, the manager's fields and standard output. *)
Record World : Type := mkWorld {
  heap : Heap;
  mgr : ExpenseManager;
  stdout : list Line
}.

(** [ExpenseManager.__init__] *)
Definition init : ExpenseManager := mkManager [] [] [].

Definition get_mgr : M World ExpenseManager := fun w => (w, Ret (mgr w)).
Definition modify_mgr (f : ExpenseManager -> ExpenseManager) : M World unit :=
  fun w => (mkWorld (heap w) (f (mgr w)) (stdout w), Ret tt).
Definition print (l : Line) : M World unit :=
  fun w => (mkWorld (heap w) (mgr w) (stdout w ++ [l]), Ret tt).

(** Run a computation on the object store inside the world. *)
Definition on_heap {A} (m : M Heap A) : M World A :=
  fun w =>
    let '(h, r) := m (heap w) in
    (mkWorld h (mgr w) (stdout w), r).

(** [ExpenseManager.add_user] *)
Definition add_user (u : User) : M World unit :=
  do _ <- modify_mgr (fun m =>
            mkManager (expenses m) (Dict.set (user_id u) u (user_map m)) (balance_sheet m));
  modify_mgr (fun m =>
    mkManager (expenses m) (user_map m) (Dict.set (user_id u) [] (balance_sheet m))).

(** [self.balance_sheet[a]] *)
Definition row (a : string) : M World (dict Decimal) :=
  do m <- get_mgr;
  lift (Dict.subscript a (balance_sheet m)).

(** [self.balance_sheet[a][b] = v] once the row [self.balance_sheet[a]]
    has been fetched: the row object is updated in place. *)
Definition store_entry (a b : string) (v : Decimal) : M World unit :=
  do r <- row a;
  modify_mgr (fun m =>
    mkManager (expenses m) (user_map m) (Dict.set a (Dict.set b v r) (balance_sheet m))).

(** [if b not in self.balance_sheet[a]: self.balance_sheet[a][b] = Decimal('0')] *)
Definition ensure_entry (a b : string) : M World unit :=
  do r <- row a;
  if Dict.contains b r then ret tt else store_entry a b (Dec.of_int 0).

(** [self.balance_sheet[a][b] = op(self.balance_sheet[a][b], x)] for the
    augmented assignments [+=] and [-=]. *)
Definition update_entry (op : Decimal -> Decimal -> outcome Decimal)
    (a b : string) (x : Decimal) : M World unit :=
  do r <- row a;
  do v <- lift (Dict.subscript b r);
  do v' <- lift (op v x);
  store_entry a b v'.

(** The body of the loop of [add_expense] for one split. *)
Definition apply_split (payer : string) (a : addr) : M World unit :=
  do split <- on_heap (read a);
  let paid_to := user_id (user split) in
  do _ <- ensure_entry payer paid_to;
  do _ <- update_entry Dec.add payer paid_to (amount split);
  do _ <- ensure_entry paid_to payer;
  update_entry Dec.sub paid_to payer (amount split).

(** [ExpenseManager.add_expense] *)
Definition add_expense (expense_type : expense_type_arg) (amt : Decimal)
    (payer : string) (l : list addr) (md : option ExpenseMetadata) : M World unit :=
  do m <- get_mgr;
  do payer_user <- lift (Dict.subscript payer (user_map m));
  do expense <- on_heap (create_expense expense_type amt payer_user l md);
  match expense with
  | None => print InvalidExpense
  | Some e =>
    do _ <- modify_mgr (fun m =>
              mkManager (expenses m ++ [e]) (user_map m) (balance_sheet m));
    for_each (splits e) (apply_split payer)
  end.

(** [ExpenseManager._print_balance] *)
Definition _print_balance (user1_id user2_id : string) (a : Decimal) : M World unit :=
  do m <- get_mgr;
  do u1 <- lift (Dict.subscript user1_id (user_map m));
  do u2 <- lift (Dict.subscript user2_id (user_map m));
  do negative <- lift (Dec.lt a (Dec.of_int 0));
  if negative then
    do v <- lift (Dec.abs a);
    print (Owes (user_name u1) (user_name u2) v)
  else
    do positive <- lift (Dec.gt a (Dec.of_int 0));
    if positive then
      do v <- lift (Dec.abs a);
      print (Owes (user_name u2) (user_name u1) v)
    else ret tt.

(** One pass over [balances.items()]; the result is the flag [is_empty]. *)
Fixpoint show_items (test : Decimal -> outcome bool) (user1 : string)
    (items : dict Decimal) (is_empty : bool) : M World bool :=
  match items with
  | [] => ret is_empty
  | (other_user_id, a) :: rest =>
    do hit <- lift (test a);
    if hit then
      do _ <- _print_balance user1 other_user_id a;
      show_items test user1 rest false
    else show_items test user1 rest is_empty
  end.

(** The outer loop of the global query, over [self.balance_sheet.items()]. *)
Fixpoint show_rows (rows : dict (dict Decimal)) (is_empty : bool) : M World bool :=
  match rows with
  | [] => ret is_empty
  | (uid, balances) :: rest =>
    do is_empty' <- show_items (fun a => Dec.gt a (Dec.of_int 0)) uid balances is_empty;
    show_rows rest is_empty'
  end.

(** The truth value of [user_id] in [if user_id:]: [None] and the empty
    string are false. *)
Definition truthy (user_id : option string) : bool :=
  match user_id with
  | None => false
  | Some s => negb (String.eqb s EmptyString)
  end.

(** [ExpenseManager.show_balance] *)
Definition show_balance (user_id : option string) : M World unit :=
  do m <- get_mgr;
  match user_id with
  | Some uid =>
    if truthy user_id then
      let balances := match Dict.get uid (balance_sheet m) with
                      | Some r => r
                      | None => []
                      end in
      do is_empty <- show_items (fun a => Dec.ne a (Dec.of_int 0)) uid balances true;
      if is_empty then print NoBalances else ret tt
    else
      do is_empty <- show_rows (balance_sheet m) true;
      if is_empty then print NoBalances else ret tt
  | None =>
    do is_empty <- show_rows (balance_sheet m) true;
    if is_empty then print NoBalances else ret tt
  end.

(** ** Notions used in the statements *)

(** [balance[a][b]], when both the row and the entry exist. *)
Definition entry (m : ExpenseManager) (a b : string) : option Decimal :=
  match Dict.get a (balance_sheet m) with
  | Some r => Dict.get b r
  | None => None
  end.

(** Ledger antisymmetry: every entry has its mirror entry, and Python's
    [balance[a][b] == -balance[b][a]] evaluates to [True]. *)
Definition antisymmetric (m : ExpenseManager) : Prop :=
  forall a b x, entry m a b = Some x ->
    exists y, entry m b a = Some y /\ Dec.eq x (Dec.neg y) = Ret true.

(** One call from the outside: a method of the manager, or the caller
    creating and changing split objects between two calls. *)
Inductive step : World -> World -> Prop :=
| step_add_user u w : step w (fst (add_user u w))
| step_add_expense t amt payer l md w : step w (fst (add_expense t amt payer l md w))
| step_show_balance uid w : step w (fst (show_balance uid w))
| step_objects h w : step w (mkWorld h (mgr w) (stdout w)).

(** The states a ledger can be in, whatever the calls and whether or not
    they raised. *)
Inductive reachable : World -> Prop :=
| reachable_init h out : reachable (mkWorld h init out)
| reachable_step w w' : reachable w -> step w w' -> reachable w'.

(** The amounts of the split objects of a list are finite Decimals that
    fit the context. *)
Definition shares_representable (h : Heap) (l : list addr) : Prop :=
  forall a, In a l -> exists o, h !! a = Some o /\ Dec.representable (amount o).

(** The states reached when every user is registered once and every
    [add_expense] returns normally with representable shares. *)
Inductive orderly : World -> Prop :=
| orderly_init h out : orderly (mkWorld h init out)
| orderly_add_user u w :
    orderly w -> Dict.get (user_id u) (user_map (mgr w)) = None ->
    orderly (fst (add_user u w))
| orderly_add_expense t amt payer l md w w' :
    orderly w -> add_expense t amt payer l md w = (w', Ret tt) ->
    shares_representable (heap w') l ->
    orderly w'
| orderly_show_balance uid w : orderly w -> orderly (fst (show_balance uid w))
| orderly_objects h w : orderly w -> orderly (mkWorld h (mgr w) (stdout w)).

(** The entries of one row, with the id of the row. *)
Definition row_entries (a : string) (r : dict Decimal) : list (string * string * Decimal) :=
  map (fun '(b, x) => (a, b, x)) r.

(** All entries of the balance table, in iteration order. *)
Definition all_entries (m : ExpenseManager) : list (string * string * Decimal) :=
  flat_map (fun '(a, r) => row_entries a r) (balance_sheet m).

(** [amount > 0] evaluates to [True]. *)
Definition positive (x : Decimal) : bool :=
  match Dec.gt x (Dec.of_int 0) with
  | Ret b => b
  | Raise _ => false
  end.

Definition is_positive_entry (t : string * string * Decimal) : bool :=
  let '(_, _, x) := t in positive x.

Definition positive_entries (m : ExpenseManager) : list (string * string * Decimal) :=
  List.filter is_positive_entry (all_entries m).

(** The name printed for a user id. *)
Definition name_of (m : ExpenseManager) (k : string) : string :=
  match Dict.get k (user_map m) with
  | Some u => user_name u
  | None => EmptyString
  end.

(** The line the global query prints for a positive entry
    [balance[a][b] = x]: b owes a. *)
Definition owes_line (m : ExpenseManager) (t : string * string * Decimal) : Line :=
  let '(a, b, x) := t in Owes (name_of m b) (name_of m a) x.

(** *** Invariants of the ledger *)

(** The value the loop of [add_expense] finds for [balance[a][b]] once it
    has created a missing entry. *)
Definition current (m : ExpenseManager) (a b : string) : Decimal :=
  match entry m a b with
  | Some v => v
  | None => Dec.of_int 0
  end.

(** The matched pair as it is stored: the mirror entry is the negation,
    digit for digit, and no entry is a NaN. *)
Definition mirror (m : ExpenseManager) : Prop :=
  forall a b x, entry m a b = Some x ->
    entry m b a = Some (Dec.neg x) /\ Dec.is_nan x = false.

(** The shape every reachable ledger has: keys are unique, every row
    belongs to a registered user, every stored balance is a result of
    context arithmetic. *)
Definition ledger_shape (m : ExpenseManager) : Prop :=
  List.NoDup (map fst (balance_sheet m)) /\
  forall k r, In (k, r) (balance_sheet m) ->
    Dict.get k (user_map m) <> None /\
    List.NoDup (map fst r) /\
    forall b x, In (b, x) r -> Dec.context_result x.

(** A computation keeps a property of the world whatever its outcome. *)
Definition preserves {A} (P : World -> Prop) (m : M World A) : Prop :=
  forall w, P w -> P (fst (m w)).

(** The table after [table[a][b] = v], when the row [table[a]] exists. *)
Definition assign (a b : string) (v : Decimal) (bs : dict (dict Decimal)) : dict (dict Decimal) :=
  match Dict.get a bs with
  | Some r => Dict.set a (Dict.set b v r) bs
  | None => bs
  end.

(** The world with another balance table. *)
Definition with_sheet (w : World) (bs : dict (dict Decimal)) : World :=
  mkWorld (heap w) (mkManager (expenses (mgr w)) (user_map (mgr w)) bs) (stdout w).

(** Two worlds that differ in the balance table at most. *)
Definition same_but_sheet (w w' : World) : Prop :=
  heap w' = heap w /\ stdout w' = stdout w /\
  expenses (mgr w') = expenses (mgr w) /\ user_map (mgr w') = user_map (mgr w).

(** *** The split objects behind a list of addresses *)

(** The store [h'] holds the objects of [h] with the same classes and
    users; only amounts may differ. *)
Definition same_identities (h h' : Heap) : Prop :=
  forall a o, h !! a = Some o ->
    exists o', h' !! a = Some o' /\ cls o' = cls o /\ user o' = user o.

(** [objs] are the objects the addresses [l] point to, in order. *)
Definition objects_at (h : Heap) (l : list addr) (objs : list SplitObj) : Prop :=
  Forall2 (fun a o => h !! a = Some o) l objs.

(** Python's [sum] over the values [f] reads from the objects, continued
    from the running total [acc]. *)
Fixpoint sum_of (acc : Decimal) (f : SplitObj -> outcome Decimal) (objs : list SplitObj)
  : outcome Decimal :=
  match objs with
  | [] => Ret acc
  | o :: rest =>
    obind (f o) (fun x => obind (Dec.add acc x) (fun acc' => sum_of acc' f rest))
  end.

(** The acceptance test of an EXACT expense, read off the objects: every
    split is an [ExactSplit] and [abs(sum(amounts) - total) < 0.01]. *)
Definition exact_accepted (amt : Decimal) (objs : list SplitObj) : Prop :=
  Forall (fun o => cls o = ExactSplit) objs /\
  exists total,
    sum_of (Dec.of_int 0) get_amount objs = Ret total /\
    within_tolerance total amt = Ret true.

(** The share the factory derives from a percent:
    [(amount * percent) / Decimal('100')]. *)
Definition percent_share (amt percent : Decimal) : outcome Decimal :=
  obind (Dec.mul amt percent) (fun p => Dec.div p hundred).

(** No exception is raised while the shares are derived. *)
Definition shares_computable (amt : Decimal) (objs : list SplitObj) : Prop :=
  forall o p, In o objs -> cls o = PercentSplit p -> exists y, percent_share amt p = Ret y.

(** The acceptance test of a PERCENT expense, read off the objects as
    they are before the call: every derived share can be computed, every
    split is a [PercentSplit] and [abs(sum(percents) - 100) < 0.01]. *)
Definition percent_accepted (amt : Decimal) (objs : list SplitObj) : Prop :=
  shares_computable amt objs /\
  Forall (fun o => exists p, cls o = PercentSplit p) objs /\
  exists total,
    sum_of (Dec.of_int 0) get_percent objs = Ret total /\
    within_tolerance total hundred = Ret true.

(** The splits of a list whose participant is not the payer. *)
Definition others (payer : string) (h : Heap) (l : list addr) : list addr :=
  List.filter (fun a => match h !! a with
                        | Some o => negb (String.eqb payer (user_id (user o)))
                        | None => true
                        end) l.

(** Two worlds that agree on the object store, on which rows exist and on
    every entry other than [balance[p][p]]. *)
Definition agree_but_self (p : string) (w1 w2 : World) : Prop :=
  heap w1 = heap w2 /\
  (forall k, Dict.get k (balance_sheet (mgr w1)) = None <->
             Dict.get k (balance_sheet (mgr w2)) = None) /\
  forall a b, (a <> p \/ b <> p) -> entry (mgr w1) a b = entry (mgr w2) a b.

(** The same expense paid by another user. *)
Definition with_payer (u : User) (e : Expense) : Expense :=
  mkExpense (expense_cls e) (expense_amount e) u (splits e) (metadata e) (expense_id e).

(** Every exception a computation can raise satisfies [P]. *)
Definition raises_only {S A} (P : exn -> Prop) (m : M S A) : Prop :=
  forall s s' e, m s = (s', Raise e) -> P e.

(** Neither a division by zero nor an index out of range. *)
Definition not_zero_division_nor_index (e : exn) : Prop :=
  e <> DivisionByZero /\ e <> IndexError.

(** The world after more lines have been printed. *)
Definition emit (w : World) (lines : list Line) : World :=
  mkWorld (heap w) (mgr w) (stdout w ++ lines).

(** The pair of user ids an entry belongs to. *)
Definition pair_of (t : string * string * Decimal) : string * string :=
  let '(a, b, _) := t in (a, b).

(** An entry the query can print: both users are registered and the
    balance is a number produced by the arithmetic. *)
Definition printable (m : ExpenseManager) (t : string * string * Decimal) : Prop :=
  let '(a, b, x) := t in
  Dict.get a (user_map m) <> None /\ Dict.get b (user_map m) <> None /\
  Dec.is_nan x = false /\ Dec.context_result x.

Definition is_nil {A} (l : list A) : bool :=
  match l with
  | [] => true
  | _ => false
  end.

(** The exact sum of the share amounts of a list of split objects. *)
Definition total_value (objs : list SplitObj) : Q :=
  fold_right (fun o acc => (Dec.value (amount o) + acc)%Q) 0%Q objs.

(** The amount the EQUAL branch leaves in the object at address [a],
    for the list [a0 :: rest], the base share [s] and the first share [f]:
    the loop assigns [s] to every split of the list, then the first split
    absorbs the remainder. *)
Definition equal_amount (a0 : addr) (rest : list addr) (f s : Decimal)
    (a : addr) (o : SplitObj) : Decimal :=
  if Nat.eqb a a0 then f
  else if existsb (Nat.eqb a) rest then s
  else amount o.

(** [split_amount + (amount - split_amount * total_splits)], the value
    [splits[0].amount] ends with. *)
Definition first_share (amt split_amount : Decimal) (total_splits : Z) : outcome Decimal :=
  obind (Dec.mul split_amount (Dec.of_int total_splits)) (fun p =>
  obind (Dec.sub amt p) (fun rem => Dec.add split_amount rem)).

(** *** Footprints *)

(** A computation that relates every state to the state it leaves,
    whatever its outcome. *)
Definition keeps {S A} (R : S -> S -> Prop) (m : M S A) : Prop :=
  forall s, R s (fst (m s)).

(** The store [h'] holds the objects of [h], with new amounts in the
    objects of the list [l] at most. *)
Definition touches_only (l : list addr) (h h' : Heap) : Prop :=
  length h' = length h /\
  forall a o, h !! a = Some o ->
    exists o', h' !! a = Some o' /\ cls o' = cls o /\ user o' = user o /\
               (~ In a l -> o' = o).

(** Two worlds that differ in the entries of the balance table at most:
    the same rows exist in both. *)
Definition same_rows (w w' : World) : Prop :=
  same_but_sheet w w' /\
  forall k, Dict.get k (balance_sheet (mgr w')) = None <->
            Dict.get k (balance_sheet (mgr w)) = None.

(** The registry and the balance table go together: every user is filed
    under their own id, a row exists for the registered ids and no other,
    and every logged expense was paid by a registered user. *)
Definition registry_consistent (m : ExpenseManager) : Prop :=
  (forall k u, Dict.get k (user_map m) = Some u -> user_id u = k) /\
  (forall k, Dict.get k (balance_sheet m) = None <-> Dict.get k (user_map m) = None) /\
  (forall e, In e (expenses m) -> Dict.get (user_id (paid_by e)) (user_map m) <> None).

(** *** The query for one user *)

Definition is_owes (l : Line) : bool :=
  match l with
  | Owes _ _ _ => true
  | _ => false
  end.

(** [amount != 0] evaluates to [True]. *)
Definition nonzero (x : Decimal) : bool :=
  match Dec.ne x (Dec.of_int 0) with
  | Ret b => b
  | Raise _ => false
  end.

(** [amount < 0] evaluates to [True]. *)
Definition negative (x : Decimal) : bool :=
  match Dec.lt x (Dec.of_int 0) with
  | Ret b => b
  | Raise _ => false
  end.

(** [abs(amount)] for a number the arithmetic has produced. *)
Definition magnitude (x : Decimal) : Decimal :=
  match x with
  | Dec.Fin c e => Dec.Fin (Z.abs c) e
  | Dec.Inf _ => Dec.Inf false
  | Dec.NaN s => Dec.NaN s
  end.

(** [self.balance_sheet.get(user_id, {})] *)
Definition row_of (m : ExpenseManager) (uid : string) : dict Decimal :=
  match Dict.get uid (balance_sheet m) with
  | Some r => r
  | None => []
  end.

Definition is_nonzero_item (t : string * Decimal) : bool := nonzero (snd t).

(** The items of a user's row the query prints. *)
Definition nonzero_items (m : ExpenseManager) (uid : string) : list (string * Decimal) :=
  List.filter is_nonzero_item (row_of m uid).

(** The line the query for [uid] prints for the item [balance[uid][b] = x]:
    the user owes when the balance is negative and is owed otherwise. *)
Definition user_line (m : ExpenseManager) (uid : string) (t : string * Decimal) : Line :=
  if negative (snd t)
  then Owes (name_of m uid) (name_of m (fst t)) (magnitude (snd t))
  else Owes (name_of m (fst t)) (name_of m uid) (magnitude (snd t)).

(** *** The balances as numbers *)

Definition finite (x : Decimal) : Prop :=
  match x with
  | Dec.Fin _ _ => True
  | _ => False
  end.

(** Every balance is a finite number. *)
Definition finite_entries (m : ExpenseManager) : Prop :=
  forall a b x, entry m a b = Some x -> finite x.

(** The exact sum of a list of entries. *)
Definition entries_total (l : list (string * string * Decimal)) : Q :=
  fold_right (fun t acc => (Dec.value (snd t) + acc)%Q) 0%Q l.

(** The exact sum of all balances of the table. *)
Definition balance_total (m : ExpenseManager) : Q := entries_total (all_entries m).

(** The mirror image of an entry. *)
Definition swap_entry (t : string * string * Decimal) : string * string * Decimal :=
  let '(a, b, x) := t in (b, a, Dec.neg x).

(** The percent of a split as a number; splits of the other classes
    have none. *)
Definition percent_value (o : SplitObj) : Q :=
  match cls o with
  | PercentSplit p => Dec.value p
  | _ => 0%Q
  end.

(** The exact sum of the percents of a list of split objects. *)
Definition total_percent (objs : list SplitObj) : Q :=
  fold_right (fun o acc => (percent_value o + acc)%Q) 0%Q objs.

(** A percent split whose percent, multiplied by the coefficient [c] of
    the total, fits the 28 digits of the context. *)
Definition short_percent (c : Z) (o : SplitObj) : Prop :=
  exists p f, cls o = PercentSplit (Dec.Fin p f) /\
              (Z.abs (c * p) < 10 ^ 28)%Z /\ (-500 <= f <= 500)%Z.

(** The share derived from a percent, as a number: the exact value of
    [amount * percent / 100]. *)
Definition exact_percent_share (amt : Decimal) (o o' : SplitObj) : Prop :=
  cls o' = cls o /\ user o' = user o /\ finite (amount o') /\
  (Dec.value (amount o') * (100 # 1) == Dec.value amt * percent_value o)%Q.

(** *** Amounts with two decimal places *)

(** A finite Decimal with two decimal places at most. *)
Definition two_decimals (x : Decimal) : Prop :=
  match x with
  | Dec.Fin _ e => (-2 <= e <= 0)%Z
  | _ => False
  end.

(** Such an amount in hundredths. *)
Definition cents (x : Decimal) : Z :=
  match x with
  | Dec.Fin c e => (c * 10 ^ (e + 2))%Z
  | _ => 0%Z
  end.

Definition total_cents (xs : list Decimal) : Z :=
  fold_right (fun x acc => (cents x + acc)%Z) 0%Z xs.

(** The sum of the absolute values, in hundredths: a bound on every
    partial sum. *)
Definition cents_bound (xs : list Decimal) : Z :=
  fold_right (fun x acc => (Z.abs (cents x) + acc)%Z) 0%Z xs.

(** The percent of a split; splits of the other classes have none. *)
Definition percent_of (o : SplitObj) : Decimal :=
  match cls o with
  | PercentSplit p => p
  | _ => Dec.of_int 0
  end.

(** ** Scenarios *)

Module Scenario.
Local Open Scope string_scope.
Local Open Scope Z_scope.

(** The users registered by [main]. *)
Definition u1 : User := mkUser "u1" "User1" "user1@example.com" "9876543210".
Definition u2 : User := mkUser "u2" "User2" "user2@example.com" "9876543210".
Definition u3 : User := mkUser "u3" "User3" "user3@example.com" "9876543210".
Definition u4 : User := mkUser "u4" "User4" "user4@example.com" "9876543210".

(** A user object that was never passed to [add_user]. *)
Definition stranger : User := mkUser "u9" "User9" "user9@example.com" "9876543210".

Definition exact (u : User) (c e : Z) : SplitObj := mkSplit ExactSplit u (Dec.Fin c e).
Definition equal (u : User) : SplitObj := mkSplit EqualSplit u (Dec.Fin 0 0).
Definition percent (u : User) (c e : Z) : SplitObj :=
  mkSplit (PercentSplit (Dec.Fin c e)) u (Dec.Fin 0 0).

(** The ledger after [add_user] of the given users, with the given
    split objects in the store. *)
Definition registered (users : list User) (h : Heap) : World :=
  fst (for_each users add_user (mkWorld h init [])).

(** An EXACT expense of 10 paid by u1 for a user the ledger does not know. *)
Definition unknown_participant : World := registered [u1] [exact stranger 10 0].

(** u1 pays 10 for u2, registers again, and pays 5 for u2. *)
Definition reregistration_0 : World := registered [u1; u2] [exact u2 10 0; exact u2 5 0].
Definition reregistration_1 : World :=
  fst (add_expense (Member EXACT) (Dec.Fin 10 0) "u1" [0%nat] None reregistration_0).
Definition reregistration_2 : World := fst (add_user u1 reregistration_1).
Definition reregistration_3 : World :=
  fst (add_expense (Member EXACT) (Dec.Fin 5 0) "u1" [1%nat] None reregistration_2).

(** A total of 50.00 split as 20.00 and 29.99. *)
Definition off_by_a_cent : Heap := [exact u1 2000 (-2); exact u2 2999 (-2)].

(** A total of -10 with a single exact share of -10. *)
Definition negative_share : Heap := [exact u2 (-10) 0].

(** A total of 100 split as 50 percent and 50.01 percent. *)
Definition percent_off_by_a_cent : Heap := [percent u1 50 0; percent u2 5001 (-2)].

(** u1 pays 1.00000000000000000000000000001 (30 digits) for themselves. *)
Definition long_amount : Decimal := Dec.Fin 100000000000000000000000000001 (-29).
Definition long_share : World := registered [u1] [mkSplit ExactSplit u1 long_amount].

End Scenario.

(** ** The command loop of [main]

    A command is the list of words [input().strip().split()] returns;
    the end of the input stands for [EOFError].  The two library
    conversions the loop applies to words, [Decimal(word)] and
    [int(word)], are parameters: nothing below depends on what they
    return.  The lines the manager prints go to [stdout]; what [main]
    prints itself, always the last line of an iteration, is the result
    of the iteration. *)

(** A line printed by [main] itself.  The text of the exception in an
    "Error" line is not modelled. *)
Inductive MainLine : Type :=
| InvalidCommand              (* "Invalid command" *)
| Error (e : exn).            (* "Error: <e>" *)

(** [l[k]] on a Python list: a negative index counts from the end. *)
Definition index {A} (l : list A) (k : Z) : outcome A :=
  let k' := if (k <? 0)%Z then (k + Z.of_nat (length l))%Z else k in
  if (k' <? 0)%Z then Raise IndexError
  else
    match nth_error l (Z.to_nat k') with
    | Some x => Ret x
    | None => Raise IndexError
    end.

(** [range(n)] *)
Definition range (n : Z) : list Z := map Z.of_nat (seq 0 (Z.to_nat n)).

(** A new object in the store; its address is returned. *)
Definition alloc (o : SplitObj) : M Heap addr :=
  fun h => (h ++ [o], Ret (length h)).

(** [[f(i) for i in indices]] *)
Fixpoint comprehension {S A} (f : Z -> M S A) (indices : list Z) : M S (list A) :=
  match indices with
  | [] => ret []
  | i :: rest =>
    do x <- f i;
    do xs <- comprehension f rest;
    ret (x :: xs)
  end.

(** [ExpenseType[name]] *)
Definition ExpenseType_getitem (name : string) : outcome ExpenseType :=
  if String.eqb name "EQUAL" then Ret EQUAL
  else if String.eqb name "EXACT" then Ret EXACT
  else if String.eqb name "PERCENT" then Ret PERCENT
  else Raise (KeyError name).

(** The users [main] registers before it reads a command. *)
Definition users : list User := [Scenario.u1; Scenario.u2; Scenario.u3; Scenario.u4].

Section main.
Variable Decimal_of_str : string -> outcome Decimal.
Variable int_of_str : string -> outcome Z.

(** [expense_manager.user_map[command[k]]] *)
Definition user_at (command : list string) (k : Z) : M World User :=
  do m <- get_mgr;
  do uid <- lift (index command k);
  lift (Dict.subscript uid (user_map m)).

(** [EqualSplit(expense_manager.user_map[command[4 + i]])] *)
Definition new_EqualSplit (command : list string) (i : Z) : M World addr :=
  do u <- user_at command (4 + i);
  on_heap (alloc (mkSplit EqualSplit u (Dec.of_int 0))).

(** [ExactSplit(expense_manager.user_map[command[4 + i]],
                Decimal(command[5 + num_users + i]))] *)
Definition new_ExactSplit (command : list string) (num_users i : Z) : M World addr :=
  do u <- user_at command (4 + i);
  do word <- lift (index command (5 + num_users + i));
  do x <- lift (Decimal_of_str word);
  on_heap (alloc (mkSplit ExactSplit u x)).

(** [PercentSplit(expense_manager.user_map[command[4 + i]],
                  Decimal(command[5 + num_users + i]))] *)
Definition new_PercentSplit (command : list string) (num_users i : Z) : M World addr :=
  do u <- user_at command (4 + i);
  do word <- lift (index command (5 + num_users + i));
  do x <- lift (Decimal_of_str word);
  on_heap (alloc (mkSplit (PercentSplit x) u (Dec.of_int 0))).

(** The list [splits] built for an expense type. *)
Definition new_splits (command : list string) (num_users : Z) (expense_type : string)
  : M World (list addr) :=
  if String.eqb expense_type "EQUAL"
  then comprehension (new_EqualSplit command) (range num_users)
  else if String.eqb expense_type "EXACT"
  then comprehension (new_ExactSplit command num_users) (range num_users)
  else if String.eqb expense_type "PERCENT"
  then comprehension (new_PercentSplit command num_users) (range num_users)
  else ret [].

(** The branch [command[0] == "EXPENSE"]. *)
Definition expense_command (command : list string) : M World unit :=
  do paid_by <- lift (index command 1);
  do word2 <- lift (index command 2);
  do amt <- lift (Decimal_of_str word2);
  do word3 <- lift (index command 3);
  do num_users <- lift (int_of_str word3);
  do expense_type <- lift (index command (4 + num_users));
  do splits <- new_splits command num_users expense_type;
  do t <- lift (ExpenseType_getitem expense_type);
  add_expense (Member t) amt paid_by splits None.

(** The branch [command[0] == "SHOW"]. *)
Definition show_command (command : list string) : M World unit :=
  if Nat.eqb (length command) 1 then show_balance None
  else
    do uid <- lift (index command 1);
    show_balance (Some uid).

(** The body of the [try] statement; the result is the line [main]
    prints in the [else] branch, if it gets there. *)
Definition try_body (command : list string) : M World (option MainLine) :=
  match command with
  | [] => ret None
  | word :: _ =>
    if String.eqb word "SHOW" then do _ <- show_command command; ret None
    else if String.eqb word "EXPENSE" then do _ <- expense_command command; ret None
    else ret (Some InvalidCommand)
  end.

(** One iteration of the loop: [except Exception as e] prints the error
    and the loop goes on. *)
Definition iteration (command : list string) (w : World) : World * option MainLine :=
  match try_body command w with
  | (w', Ret line) => (w', line)
  | (w', Raise e) => (w', Some (Error e))
  end.

(** The loop, until the input ends. *)
Fixpoint loop (inputs : list (list string)) (w : World) : World * list (option MainLine) :=
  match inputs with
  | [] => (w, [])
  | command :: rest =>
    let '(w1, line) := iteration command w in
    let '(w', lines) := loop rest w1 in
    (w', line :: lines)
  end.

(** [main]: register the four users, then run the loop. *)
Definition main (inputs : list (list string)) : World * list (option MainLine) :=
  loop inputs (fst (for_each users add_user (mkWorld [] init []))).
End main.

(** The ids [main] registers. *)
Definition user_ids : list string := map user_id users.

(** The manager was changed by nothing but assignments to balance
    entries of rows that exist. *)
Definition registry_kept (w w' : World) : Prop :=
  user_map (mgr w') = user_map (mgr w) /\
  forall k, Dict.get k (balance_sheet (mgr w')) = None <->
            Dict.get k (balance_sheet (mgr w)) = None.

(** The exceptions of Decimal additions and subtractions. *)
Definition arithmetic (e : exn) : Prop := e = Overflow \/ e = InvalidOperation.

(** Nothing happened but the creation of objects: the manager and the
    output are the same, and the objects that existed are unchanged. *)
Definition only_objects (w w' : World) : Prop :=
  mgr w' = mgr w /\ stdout w' = stdout w /\
  forall a o, heap w !! a = Some o -> heap w' !! a = Some o.

(** What one iteration of the loop keeps: a reachable ledger stays
    reachable, and the registry and the rows of the table stay. *)
Definition loop_invariant (w w' : World) : Prop :=
  (reachable w -> reachable w') /\ registry_kept w w'.

(** The splits of a list are objects of the store whose users are
    registered. *)
Definition registered_splits (w : World) (l : list addr) : Prop :=
  forall a, In a l ->
    exists o uid, heap w !! a = Some o /\ Dict.get uid (user_map (mgr w)) = Some (user o).

(** A command has failed after its expense was accepted and logged: the
    log has one more expense, and the exception is one of the Decimal
    operations of a balance update. *)
Definition failed_in_update (w w' : World) (e : exn) : Prop :=
  arithmetic e /\ exists ex, expenses (mgr w') = expenses (mgr w) ++ [ex].

(** * Properties *)

(** ** Facts about the Decimal model *)

Module DecFacts.
Import Dec.
Local Open Scope Z_scope.

Lemma pow10_pos (k : Z) : 0 <= k -> 0 < 10 ^ k.
Proof. intros Hk. apply Z.pow_pos_nonneg; lia. Qed.

Lemma pow10_succ (k : Z) : 0 <= k -> 10 ^ (k + 1) = 10 * 10 ^ k.
Proof. intros Hk. rewrite Z.pow_add_r by lia. lia. Qed.

Lemma pow10_le (a b : Z) : 0 <= a <= b -> 10 ^ a <= 10 ^ b.
Proof. intros H. apply Z.pow_le_mono_r; lia. Qed.

Lemma pow10_lt (a b : Z) : 0 <= a < b -> 10 ^ a < 10 ^ b.
Proof. intros H. apply Z.pow_lt_mono_r; lia. Qed.

Lemma ndigits_aux_spec (f : nat) : forall n : Z,
  1 <= n < 10 ^ (Z.of_nat f + 1) ->
  10 ^ (ndigits_aux f n - 1) <= n < 10 ^ ndigits_aux f n /\
  1 <= ndigits_aux f n <= Z.of_nat f + 1.
Proof.
  induction f as [|f IH]; intros n Hn; cbn [ndigits_aux].
  - change (Z.of_nat 0 + 1) with 1 in Hn. change (10 ^ 1) with 10 in *.
    change (10 ^ (1 - 1)) with 1. lia.
  - destruct (Z.ltb_spec n 10) as [Hlt|Hge].
    + change (10 ^ (1 - 1)) with 1. change (10 ^ 1) with 10. lia.
    + assert (Hdiv : 1 <= n / 10 < 10 ^ (Z.of_nat f + 1)).
      { split.
        - apply Z.div_le_lower_bound; lia.
        - apply Z.div_lt_upper_bound; [lia|].
          rewrite <- pow10_succ by lia.
          replace (Z.of_nat f + 1 + 1) with (Z.of_nat (S f) + 1) by lia. lia. }
      destruct (IH _ Hdiv) as [[Hlo Hhi] Hd].
      set (d := ndigits_aux f (n / 10)) in *.
      replace (1 + d - 1) with ((d - 1) + 1) by lia.
      replace (1 + d) with (d + 1) by lia.
      rewrite !pow10_succ by lia.
      pose proof (Z.div_mod n 10 ltac:(lia)) as Hdm.
      pose proof (Z.mod_pos_bound n 10 ltac:(lia)) as Hmod.
      lia.
Qed.

(** [ndigits n] is the length of the decimal numeral of [n >= 1]. *)
Lemma ndigits_spec (n : Z) :
  1 <= n -> 10 ^ (ndigits n - 1) <= n < 10 ^ ndigits n /\ 1 <= ndigits n.
Proof.
  intros Hn. unfold ndigits.
  pose proof (Z.log2_spec n ltac:(lia)) as [_ Hlog].
  pose proof (Z.log2_nonneg n) as Hnn.
  assert (Hb : 1 <= n < 10 ^ (Z.of_nat (Z.to_nat (Z.log2 n)) + 1)).
  { split; [lia|]. rewrite Z2Nat.id by lia.
    eapply Z.lt_le_trans; [exact Hlog|].
    unfold Z.succ. apply Z.pow_le_mono_l. lia. }
  destruct (ndigits_aux_spec _ _ Hb) as [H1 H2]. split; [exact H1|lia].
Qed.

Lemma ndigits_le (n p : Z) : 1 <= n -> n < 10 ^ p -> 0 <= p -> ndigits n <= p.
Proof.
  intros Hn Hp Hp0. destruct (ndigits_spec n Hn) as [[Hlo _] Hd].
  destruct (Z_le_gt_dec (ndigits n) p) as [|Hgt]; [assumption|exfalso].
  assert (10 ^ p <= 10 ^ (ndigits n - 1)) by (apply pow10_le; lia). lia.
Qed.

Lemma ndigits_ge (n p : Z) : 1 <= n -> 10 ^ (p - 1) <= n -> 1 <= p -> p <= ndigits n.
Proof.
  intros Hn Hp Hp0. destruct (ndigits_spec n Hn) as [[_ Hhi] Hd].
  destruct (Z_le_gt_dec p (ndigits n)) as [|Hgt]; [assumption|exfalso].
  assert (10 ^ ndigits n <= 10 ^ (p - 1)) by (apply pow10_le; lia). lia.
Qed.

Lemma ndigits_unique (n d : Z) :
  1 <= d -> 10 ^ (d - 1) <= n < 10 ^ d -> ndigits n = d.
Proof.
  intros Hd [Hlo Hhi].
  assert (1 <= n) by (pose proof (pow10_pos (d - 1)); lia).
  pose proof (ndigits_le n d). pose proof (ndigits_ge n d). lia.
Qed.

(** Multiplying by a power of ten appends zeros. *)
Lemma ndigits_shift (n k : Z) : 1 <= n -> 0 <= k -> ndigits (n * 10 ^ k) = ndigits n + k.
Proof.
  intros Hn Hk. destruct (ndigits_spec n Hn) as [[Hlo Hhi] Hd].
  pose proof (pow10_pos k Hk).
  apply ndigits_unique; [lia|].
  replace (ndigits n + k - 1) with ((ndigits n - 1) + k) by lia.
  rewrite !Z.pow_add_r by lia. nia.
Qed.

(** *** Rounding half to even *)

Lemma div_half_even_bounds (a d : Z) :
  0 <= a -> 0 < d -> a / d <= div_half_even a d <= a / d + 1.
Proof.
  intros Ha Hd. unfold div_half_even.
  destruct (2 * (a mod d) <? d); [lia|].
  destruct (d <? 2 * (a mod d)); [lia|].
  destruct (Z.even (a / d)); lia.
Qed.

Lemma div_half_even_nonneg (a d : Z) : 0 <= a -> 0 < d -> 0 <= div_half_even a d.
Proof.
  intros Ha Hd. pose proof (div_half_even_bounds a d Ha Hd).
  pose proof (Z.div_pos a d Ha Hd). lia.
Qed.

(** An exact quotient is not changed by rounding. *)
Lemma div_half_even_exact (q d : Z) : 0 < d -> div_half_even (q * d) d = q.
Proof.
  intros Hd. unfold div_half_even.
  rewrite Z.mod_mul by lia. rewrite Z.div_mul by lia.
  destruct (Z.ltb_spec (2 * 0) d); [reflexivity|lia].
Qed.

(** *** [_fix] leaves a result alone when it fits the context *)

Lemma fix_fin_zero (e : Z) : Etiny <= e <= Emax -> fix_fin 0 e = Ret (Fin 0 e).
Proof.
  intros He. unfold fix_fin. cbn [Z.eqb]. f_equal. f_equal. lia.
Qed.

Lemma fix_fin_id (c e : Z) :
  c <> 0 -> ndigits (Z.abs c) <= prec -> Etiny <= e ->
  ndigits (Z.abs c) + e - prec <= Etop ->
  fix_fin c e = Ret (Fin c e).
Proof.
  intros Hc Hd He Htop. unfold fix_fin.
  destruct (Z.eqb_spec c 0) as [|_]; [contradiction|].
  destruct (Z.ltb_spec Etop (ndigits (Z.abs c) + e - prec)) as [|_]; [lia|].
  destruct (Z.ltb_spec e (Z.max (ndigits (Z.abs c) + e - prec) Etiny)) as [|_]; [lia|].
  reflexivity.
Qed.

(** [_fix] commutes with negation: rounding half to even is symmetric. *)
Lemma fix_fin_opp (c e : Z) :
  fix_fin (- c) e = obind (fix_fin c e) (fun d => Ret (neg d)).
Proof.
  unfold fix_fin.
  destruct (Z.eqb_spec c 0) as [->|Hc]; [reflexivity|].
  destruct (Z.eqb_spec (- c) 0) as [|_]; [lia|].
  rewrite Z.abs_opp, Z.sgn_opp.
  destruct (Etop <? ndigits (Z.abs c) + e - prec); [reflexivity|].
  destruct (e <? Z.max (ndigits (Z.abs c) + e - prec) Etiny); [|reflexivity].
  destruct (10 ^ prec <=? _).
  - destruct (Etop <? _); [reflexivity|]. cbn. rewrite Z.mul_opp_l. reflexivity.
  - cbn. rewrite Z.mul_opp_l. reflexivity.
Qed.

(** *** The result of [_fix] is a fixed point of [_fix] *)

Lemma fix_fin_finite (c e : Z) (d : Decimal) :
  fix_fin c e = Ret d -> exists c' e', d = Fin c' e'.
Proof.
  unfold fix_fin. intros H.
  repeat match type of H with
         | (if ?b then _ else _) = _ => destruct b
         end; inversion H; eauto.
Qed.

Lemma fix_fin_representable (c e : Z) (d : Decimal) :
  fix_fin c e = Ret d -> representable d.
Proof.
  unfold fix_fin.
  destruct (Z.eqb_spec c 0) as [->|Hc].
  { intros H. inversion H; subst. cbn. apply fix_fin_zero. unfold Etiny, Emax, Emin, prec. lia. }
  assert (Ha : 1 <= Z.abs c) by lia.
  destruct (ndigits_spec _ Ha) as [[Hlo Hhi] Hnd].
  set (nd := ndigits (Z.abs c)) in *.
  destruct (Z.ltb_spec Etop (nd + e - prec)) as [|Htop]; [discriminate|].
  destruct (Z.ltb_spec e (Z.max (nd + e - prec) Etiny)) as [Hround|Hkeep].
  2:{ intros H. inversion H; subst. cbn. apply fix_fin_id; fold nd; lia. }
  set (em := Z.max (nd + e - prec) Etiny) in *.
  assert (Hk : 0 < em - e) by lia.
  pose proof (pow10_pos (em - e) ltac:(lia)) as Hpk.
  pose proof (div_half_even_bounds (Z.abs c) (10 ^ (em - e)) ltac:(lia) Hpk) as [Hq1 Hq2].
  pose proof (div_half_even_nonneg (Z.abs c) (10 ^ (em - e)) ltac:(lia) Hpk) as Hq0.
  set (q := div_half_even (Z.abs c) (10 ^ (em - e))) in *.
  (* the quotient has at most [prec] digits, or is exactly [10 ^ prec] *)
  assert (Hqle : q <= 10 ^ prec).
  { assert (Z.abs c / 10 ^ (em - e) < 10 ^ prec); [|lia].
    apply Z.div_lt_upper_bound; [lia|].
    rewrite <- Z.pow_add_r by (unfold prec; lia).
    eapply Z.lt_le_trans; [exact Hhi|]. apply pow10_le. unfold prec in *. lia. }
  destruct (Z.leb_spec (10 ^ prec) q) as [Hcarry|Hnocarry].
  - destruct (Z.ltb_spec Etop (em + 1)) as [|Htop2]; [discriminate|].
    intros H. inversion H; subst. cbn.
    assert (q = 10 ^ prec) as -> by lia.
    change (10 ^ prec / 10) with (10 ^ 27).
    apply fix_fin_id.
    + destruct c; cbn; lia.
    + replace (Z.abs (Z.sgn c * 10 ^ 27)) with (10 ^ 27) by (destruct c; cbn; lia).
      vm_compute. discriminate.
    + unfold em. lia.
    + replace (Z.abs (Z.sgn c * 10 ^ 27)) with (10 ^ 27) by (destruct c; cbn; lia).
      change (ndigits (10 ^ 27)) with 28. unfold prec. lia.
  - intros H. inversion H; subst. cbn.
    destruct (Z.eq_dec q 0) as [->|Hq].
    + rewrite Z.mul_0_r. apply fix_fin_zero. unfold em, Etop, Etiny, Emax, Emin, prec in *. lia.
    + assert (Habs : Z.abs (Z.sgn c * q) = q) by (destruct c; cbn; try lia; destruct q; cbn; lia).
      assert (Hndq : ndigits q <= prec) by (apply ndigits_le; [lia|exact Hnocarry|unfold prec; lia]).
      apply fix_fin_id.
      * destruct c; cbn; lia.
      * rewrite Habs. exact Hndq.
      * unfold em. lia.
      * rewrite Habs. unfold em, Etop, Etiny, Emax, Emin, prec in *. lia.
Qed.

Lemma representable_inv (c e : Z) :
  representable (Fin c e) ->
  Etiny <= e /\
  (c = 0 -> e <= Emax) /\
  (c <> 0 -> ndigits (Z.abs c) <= prec /\ ndigits (Z.abs c) + e - prec <= Etop).
Proof.
  cbn. unfold fix_fin.
  destruct (Z.eqb_spec c 0) as [->|Hc].
  { intros H. inversion H. unfold Etiny, Emax, Emin, prec in *. split; [lia|]. split; [lia|congruence]. }
  destruct (Z.ltb_spec Etop (ndigits (Z.abs c) + e - prec)) as [|Htop]; [discriminate|].
  destruct (Z.ltb_spec e (Z.max (ndigits (Z.abs c) + e - prec) Etiny)) as [Hlt|Hge].
  - destruct (10 ^ prec <=? _).
    + destruct (Etop <? _); [discriminate|]. intros H. injection H as _ H2. lia.
    + intros H. injection H as _ H2. lia.
  - intros _. split; [lia|]. split; [congruence|]. intros _. lia.
Qed.

Lemma fix_fin_small (c e : Z) :
  Z.abs c < 10 ^ prec -> Etiny <= e <= Etop -> fix_fin c e = Ret (Fin c e).
Proof.
  intros Hc He. destruct (Z.eq_dec c 0) as [->|Hnz].
  - apply fix_fin_zero. unfold Etop, Emax, prec in *. lia.
  - assert (ndigits (Z.abs c) <= prec) by (apply ndigits_le; [lia|exact Hc|unfold prec; lia]).
    apply fix_fin_id; lia.
Qed.

(** *** Addition and subtraction *)

Lemma add_neg (x y : Decimal) :
  add (neg x) (neg y) = obind (add x y) (fun d => Ret (neg d)).
Proof.
  destruct x as [c1 e1|s1|[|]], y as [c2 e2|s2|[|]]; try reflexivity.
  - cbn. rewrite <- fix_fin_opp. f_equal. lia.
  - cbn. destruct s1, s2; reflexivity.
Qed.

(** The second half of a matched pair of updates: subtracting from the
    mirror entry gives the mirror of the sum. *)
Lemma sub_neg_l (v x : Decimal) :
  sub (neg v) x = obind (add v x) (fun d => Ret (neg d)).
Proof.
  destruct v as [c1 e1|s1|[|]], x as [c2 e2|s2|[|]]; try reflexivity.
  - unfold sub. cbn [neg check_nans]. apply (add_neg (Fin c1 e1) (Fin c2 e2)).
  - unfold sub. cbn [neg check_nans]. apply (add_neg (Inf s1) (Inf s2)).
Qed.

Lemma add_not_nan (x y d : Decimal) :
  add x y = Ret d -> is_nan x = false -> is_nan y = false -> is_nan d = false.
Proof.
  destruct x as [c1 e1|s1|?], y as [c2 e2|s2|?]; try discriminate; cbn.
  - intros H _ _. apply fix_fin_finite in H as (c & e & ->). reflexivity.
  - intros H _ _. inversion H. reflexivity.
  - intros H _ _. inversion H. reflexivity.
  - destruct (Bool.eqb s1 s2); [|discriminate]. intros H _ _. inversion H. reflexivity.
Qed.

Lemma add_context_result (x y d : Decimal) : add x y = Ret d -> context_result d.
Proof.
  destruct x as [c1 e1|s1|[|]], y as [c2 e2|s2|[|]]; cbn; try discriminate;
    try (intros H; inversion H; subst; exact I).
  - intros H. pose proof (fix_fin_representable _ _ _ H) as Hr.
    destruct d; [exact Hr|exact I|exact I].
  - destruct (Bool.eqb s1 s2); [|discriminate]. intros H. inversion H. exact I.
Qed.

Lemma sub_context_result (x y d : Decimal) : sub x y = Ret d -> context_result d.
Proof.
  unfold sub. destruct (check_nans x y) as [[r|]|] eqn:Hn.
  - intros H. inversion H; subst.
    destruct x as [? ?|?|[|]], y as [? ?|?|[|]]; cbn in Hn; inversion Hn; exact I.
  - discriminate.
  - apply add_context_result.
Qed.

(** Adding a representable number to a zero gives the same number,
    possibly written with a smaller exponent. *)
Lemma add_zero_l (e0 c e : Z) :
  representable (Fin c e) ->
  exists e', e' <= e /\ add (Fin 0 e0) (Fin c e) = Ret (Fin (c * 10 ^ (e - e')) e').
Proof.
  intros Hr. destruct (representable_inv _ _ Hr) as (Hety & Hz & Hnz).
  cbn [add check_nans]. rewrite Z.mul_0_l, Z.add_0_l.
  set (m := Z.min e0 e).
  destruct (Z.eq_dec c 0) as [->|Hc].
  - specialize (Hz eq_refl). rewrite Z.mul_0_l. unfold fix_fin. cbn [Z.eqb].
    exists (Z.min (Z.max m Etiny) Emax). split; [unfold m; lia|]. rewrite Z.mul_0_l. reflexivity.
  - destruct (Hnz Hc) as [Hnd Htop]. clear Hz Hnz.
    assert (Hj : 0 <= e - m) by (unfold m; lia).
    pose proof (pow10_pos (e - m) Hj) as Hpj.
    unfold fix_fin.
    destruct (Z.eqb_spec (c * 10 ^ (e - m)) 0) as [Hzero|_]; [nia|].
    rewrite Z.abs_mul, (Z.abs_eq (10 ^ (e - m))) by lia.
    rewrite ndigits_shift by lia.
    set (nd := ndigits (Z.abs c)) in *.
    destruct (Z.ltb_spec Etop (nd + (e - m) + m - prec)) as [|_]; [lia|].
    set (em := Z.max (nd + (e - m) + m - prec) Etiny).
    assert (Hem : em <= e) by (unfold em; lia).
    destruct (Z.ltb_spec m em) as [Hround|Hkeep].
    + assert (Hsplit : Z.abs c * 10 ^ (e - m) = (Z.abs c * 10 ^ (e - em)) * 10 ^ (em - m)).
      { rewrite <- Z.mul_assoc, <- Z.pow_add_r by lia. do 2 f_equal. lia. }
      rewrite Hsplit, div_half_even_exact by (apply pow10_pos; lia).
      pose proof (pow10_pos (e - em) ltac:(lia)) as Hpe.
      assert (Hq : Z.abs c * 10 ^ (e - em) < 10 ^ prec).
      { assert (ndigits (Z.abs c * 10 ^ (e - em)) <= prec)
          by (rewrite ndigits_shift by lia; fold nd; unfold em; lia).
        destruct (ndigits_spec (Z.abs c * 10 ^ (e - em)) ltac:(nia)) as [[_ Hhi] _].
        eapply Z.lt_le_trans; [exact Hhi|]. apply pow10_le.
        destruct (ndigits_spec (Z.abs c * 10 ^ (e - em)) ltac:(nia)) as [_ ?]. lia. }
      destruct (Z.leb_spec (10 ^ prec) (Z.abs c * 10 ^ (e - em))) as [|_]; [lia|].
      exists em. split; [exact Hem|]. do 2 f_equal.
      rewrite Z.sgn_mul, (Z.sgn_pos (10 ^ (e - m))) by lia.
      rewrite Z.mul_1_r, Z.mul_assoc, (Z.mul_comm (Z.sgn c)), Z.abs_sgn. reflexivity.
    + exists m. split; [unfold m; lia|]. reflexivity.
Qed.

(** A number minus a rewriting of itself is a zero. *)
Lemma sub_same_value (c e e' : Z) :
  e' <= e -> exists e'', sub (Fin (c * 10 ^ (e - e')) e') (Fin c e) = Ret (Fin 0 e'').
Proof.
  intros He. unfold sub. cbn [check_nans neg add].
  rewrite Z.min_l by lia. rewrite Z.sub_diag, Z.mul_1_r.
  replace (c * 10 ^ (e - e') + - c * 10 ^ (e - e')) with 0 by lia.
  unfold fix_fin. cbn [Z.eqb]. eauto.
Qed.

Lemma add_exact (c1 e1 c2 e2 : Z) :
  let m := Z.min e1 e2 in
  let s := c1 * 10 ^ (e1 - m) + c2 * 10 ^ (e2 - m) in
  Z.abs s < 10 ^ prec -> Etiny <= m <= Etop ->
  add (Fin c1 e1) (Fin c2 e2) = Ret (Fin s m).
Proof. intros m s Hs Hm. cbn [add check_nans]. apply fix_fin_small; assumption. Qed.

Lemma mul_exact (c1 e1 c2 e2 : Z) :
  Z.abs (c1 * c2) < 10 ^ prec -> Etiny <= e1 + e2 <= Etop ->
  mul (Fin c1 e1) (Fin c2 e2) = Ret (Fin (c1 * c2) (e1 + e2)).
Proof. intros Hs Hm. cbn [mul check_nans]. apply fix_fin_small; assumption. Qed.

(** A difference that is a zero passes the tolerance test. *)
Lemma zero_lt_tolerance (e : Z) :
  obind (abs (Fin 0 e)) (fun a => lt a (Fin 1 (-2))) = Ret true.
Proof.
  unfold abs. change (Z.abs 0) with 0. unfold fix_fin. cbn [Z.eqb obind].
  set (k := Z.min (Z.max e Etiny) Emax).
  unfold lt. cbn [is_nan orb]. unfold cmp. rewrite Z.mul_0_l, Z.mul_1_l.
  pose proof (pow10_pos (-2 - Z.min k (-2)) ltac:(lia)) as H.
  destruct (Z.compare_spec 0 (10 ^ (-2 - Z.min k (-2)))); [lia|reflexivity|lia].
Qed.

(** *** The exceptions of the arithmetic *)

Lemma fix_fin_raises (c e : Z) (x : exn) : fix_fin c e = Raise x -> x = Overflow.
Proof.
  unfold fix_fin. intros H.
  repeat match type of H with
         | (if ?b then _ else _) = _ => destruct b
         end; inversion H; reflexivity.
Qed.

Lemma add_raises (x y : Decimal) (e : exn) :
  add x y = Raise e -> e = Overflow \/ e = InvalidOperation.
Proof.
  destruct x as [c1 e1|s1|[|]], y as [c2 e2|s2|[|]]; cbn; intros H; try discriminate;
    try (inversion H; right; reflexivity).
  - left. eapply fix_fin_raises, H.
  - destruct (Bool.eqb s1 s2); inversion H. right. reflexivity.
Qed.

Lemma sub_raises (x y : Decimal) (e : exn) :
  sub x y = Raise e -> e = Overflow \/ e = InvalidOperation.
Proof.
  unfold sub. destruct (check_nans x y) as [[r|e']|] eqn:Hn.
  - discriminate.
  - intros H. inversion H; subst.
    destruct x as [? ?|?|[|]], y as [? ?|?|[|]]; cbn in Hn; inversion Hn; right; reflexivity.
  - apply add_raises.
Qed.

Lemma mul_raises (x y : Decimal) (e : exn) :
  mul x y = Raise e -> e = Overflow \/ e = InvalidOperation.
Proof.
  destruct x as [c1 e1|s1|[|]], y as [c2 e2|s2|[|]]; cbn; intros H; try discriminate;
    try (inversion H; right; reflexivity).
  - left. eapply fix_fin_raises, H.
  - destruct (c1 =? 0); inversion H. right. reflexivity.
  - destruct (c2 =? 0); inversion H. right. reflexivity.
Qed.

(** What a multiplication returns is a number or a quiet NaN. *)
Lemma mul_result (x y t : Decimal) : mul x y = Ret t -> t <> NaN true.
Proof.
  destruct x as [c1 e1|s1|[|]], y as [c2 e2|s2|[|]]; cbn; intros H; try discriminate;
    try (inversion H; discriminate).
  - apply fix_fin_finite in H as (c & e & ->). discriminate.
  - destruct (c1 =? 0); inversion H. discriminate.
  - destruct (c2 =? 0); inversion H. discriminate.
Qed.

(** Dividing by a nonzero integer raises nothing but an overflow, unless
    the dividend is a signaling NaN. *)
Lemma div_by_nonzero_raises (t : Decimal) (n : Z) (e : exn) :
  n <> 0 -> t <> NaN true -> div t (of_int n) = Raise e -> e = Overflow.
Proof.
  intros Hn Ht. destruct t as [c1 e1|s1|[|]]; try discriminate; [|congruence].
  unfold div, of_int. cbn [check_nans].
  destruct (Z.eqb_spec n 0) as [|_]; [contradiction|].
  destruct (c1 =? 0); [apply fix_fin_raises|].
  destruct (_ =? 0).
  - destruct (strip_zeros _ _ _ _). apply fix_fin_raises.
  - apply fix_fin_raises.
Qed.

Lemma div_raises (x y : Decimal) (e : exn) :
  div x y = Raise e ->
  e = Overflow \/ e = InvalidOperation \/ (e = DivisionByZero /\ is_zero y = true).
Proof.
  destruct x as [c1 e1|s1|[|]], y as [c2 e2|s2|[|]]; unfold div; cbn [check_nans];
    intros H; try discriminate; try (inversion H; right; left; reflexivity).
  destruct (Z.eqb_spec c2 0) as [->|Hc2].
  - destruct (c1 =? 0); inversion H; [right; left; reflexivity|].
    right. right. split; reflexivity.
  - left. destruct (c1 =? 0); [eapply fix_fin_raises, H|].
    destruct (_ =? 0) in H.
    + destruct (strip_zeros _ _ _ _) in H. eapply fix_fin_raises, H.
    + eapply fix_fin_raises, H.
Qed.

Lemma abs_raises (x : Decimal) (e : exn) :
  abs x = Raise e -> e = Overflow \/ e = InvalidOperation.
Proof.
  destruct x as [c1 e1|s1|[|]]; unfold abs; intros H; try discriminate.
  - left. eapply fix_fin_raises, H.
  - inversion H. right. reflexivity.
Qed.

Lemma lt_raises (x y : Decimal) (e : exn) : lt x y = Raise e -> e = InvalidOperation.
Proof. unfold lt. destruct (is_nan x || is_nan y); intros H; inversion H. reflexivity. Qed.

Lemma round_raises (x : Decimal) (e : exn) :
  round x = Raise e -> e = ValueError \/ e = OverflowError.
Proof.
  destruct x as [c1 e1|s1|s]; cbn; intros H.
  - destruct (0 <=? e1); discriminate.
  - inversion H. right. reflexivity.
  - inversion H. left. reflexivity.
Qed.

(** *** Signs *)

Lemma gt_zero_fin (c e : Z) : gt (Fin c e) (of_int 0) = Ret (0 <? c).
Proof.
  unfold gt, of_int. cbn [is_nan orb cmp]. rewrite Z.mul_0_l.
  pose proof (pow10_pos (e - Z.min e 0) ltac:(lia)) as Hp.
  f_equal. destruct (Z.compare_spec (c * 10 ^ (e - Z.min e 0)) 0);
    destruct (Z.ltb_spec 0 c); try reflexivity; nia.
Qed.

Lemma lt_zero_fin (c e : Z) : lt (Fin c e) (of_int 0) = Ret (c <? 0).
Proof.
  unfold lt, of_int. cbn [is_nan orb cmp]. rewrite Z.mul_0_l.
  pose proof (pow10_pos (e - Z.min e 0) ltac:(lia)) as Hp.
  f_equal. destruct (Z.compare_spec (c * 10 ^ (e - Z.min e 0)) 0);
    destruct (Z.ltb_spec c 0); try reflexivity; nia.
Qed.

(** A number that is not a NaN can be compared with zero. *)
Lemma gt_zero_total (x : Decimal) :
  is_nan x = false -> exists b, gt x (of_int 0) = Ret b.
Proof. unfold gt. intros ->. cbn. eauto. Qed.

(** What is printed for a positive balance: [amount < 0] is false,
    [amount > 0] is true and [abs(amount)] is the amount itself. *)
Lemma positive_balance (x : Decimal) :
  context_result x -> gt x (of_int 0) = Ret true ->
  lt x (of_int 0) = Ret false /\ abs x = Ret x.
Proof.
  destruct x as [c e|[|]|s]; cbn [context_result].
  - intros Hfix. rewrite gt_zero_fin, lt_zero_fin. intros H. inversion H.
    destruct (Z.ltb_spec 0 c); [|discriminate].
    split; [destruct (Z.ltb_spec c 0); [lia|reflexivity]|].
    unfold abs. rewrite Z.abs_eq by lia. exact Hfix.
  - intros _ H. inversion H.
  - intros _ _. split; reflexivity.
  - intros _ H. unfold gt in H. cbn in H. discriminate.
Qed.

(** Of two balances that mirror each other and are not zero, exactly one
    is positive. *)
Lemma mirrored_signs (x y : Decimal) :
  eq x (neg y) = Ret true -> ne x (of_int 0) = Ret true ->
  (gt x (of_int 0) = Ret true /\ gt y (of_int 0) = Ret false) \/
  (gt x (of_int 0) = Ret false /\ gt y (of_int 0) = Ret true).
Proof.
  destruct x as [c1 e1|s1|[|]], y as [c2 e2|s2|[|]]; try discriminate.
  - intros Heq Hne. rewrite !gt_zero_fin.
    unfold eq in Heq. cbn [neg check_nans cmp] in Heq.
    unfold ne, eq, of_int in Hne. cbn [check_nans cmp obind] in Hne. rewrite Z.mul_0_l in Hne.
    pose proof (pow10_pos (e1 - Z.min e1 e2) ltac:(lia)) as Hp1.
    pose proof (pow10_pos (e2 - Z.min e1 e2) ltac:(lia)) as Hp2.
    pose proof (pow10_pos (e1 - Z.min e1 0) ltac:(lia)) as Hp3.
    destruct (Z.compare_spec (c1 * 10 ^ (e1 - Z.min e1 e2)) (- c2 * 10 ^ (e2 - Z.min e1 e2)))
      as [Hc| |]; try discriminate.
    destruct (Z.compare_spec (c1 * 10 ^ (e1 - Z.min e1 0)) 0) as [Hz| |]; try discriminate;
      destruct (Z.ltb_spec 0 c1); destruct (Z.ltb_spec 0 c2); try nia;
      try (left; split; reflexivity); try (right; split; reflexivity).
  - intros Heq. unfold eq in Heq. cbn in Heq. destruct s2; discriminate.
  - intros Heq. unfold eq in Heq. cbn in Heq. destruct s1; discriminate.
  - intros Heq _. unfold eq in Heq. cbn in Heq.
    destruct s1, s2; try discriminate; [right|left]; split; reflexivity.
Qed.

Lemma eq_not_nan (x y : Decimal) : eq x y = Ret true -> is_nan x = false.
Proof. destruct x as [c e|s|[|]], y as [? ?|?|[|]]; try discriminate; reflexivity. Qed.

(** *** Division: the quotient before and after rounding *)

Lemma strip_zeros_spec (fuel : nat) : forall c ex ideal c' ex',
  strip_zeros fuel c ex ideal = (c', ex') ->
  ex <= ex' /\ c = c' * 10 ^ (ex' - ex) /\ (ex' <= ideal \/ ex' = ex).
Proof.
  induction fuel as [|fuel IH]; intros c ex ideal c' ex' H; cbn [strip_zeros] in H.
  - inversion H; subst. rewrite Z.sub_diag. cbn. lia.
  - destruct (Z.ltb_spec ex ideal) as [Hlt|Hge]; cbn [andb] in H.
    2:{ inversion H; subst. rewrite Z.sub_diag. cbn. lia. }
    destruct (Z.eqb_spec (c mod 10) 0) as [Hmod|Hmod].
    2:{ inversion H; subst. rewrite Z.sub_diag. cbn. lia. }
    destruct (IH _ _ _ _ _ H) as (Hle & Hc & Hid).
    split; [lia|]. split; [|lia].
    replace (ex' - ex) with ((ex' - (ex + 1)) + 1) by lia.
    rewrite pow10_succ by lia.
    pose proof (Z.div_mod c 10 ltac:(lia)) as Hdm. nia.
Qed.

(** Zeros that were appended are stripped again while the exponent is
    below the ideal one. *)
Lemma strip_zeros_shifted (k : nat) : forall (fuel : nat) x ex ideal,
  (k <= fuel)%nat -> ex + Z.of_nat k <= ideal ->
  strip_zeros fuel (x * 10 ^ Z.of_nat k) ex ideal =
  strip_zeros (fuel - k) x (ex + Z.of_nat k) ideal.
Proof.
  induction k as [|k IH]; intros fuel x ex ideal Hk Hex.
  - cbn [Z.of_nat]. rewrite Z.mul_1_r, Z.add_0_r, Nat.sub_0_r. reflexivity.
  - destruct fuel as [|fuel]; [lia|]. cbn [strip_zeros].
    destruct (Z.ltb_spec ex ideal) as [_|]; [|lia].
    replace (Z.of_nat (S k)) with (Z.of_nat k + 1) by lia.
    rewrite pow10_succ by lia.
    replace (x * (10 * 10 ^ Z.of_nat k)) with ((x * 10 ^ Z.of_nat k) * 10) by lia.
    rewrite Z.mod_mul by lia. cbn [Z.eqb andb]. rewrite Z.div_mul by lia.
    rewrite IH by lia. f_equal. lia.
Qed.

(** An upper bound on the number [_fix] returns, in units of the
    exponent it was given. *)
Lemma fix_fin_upper (X ex cq eq : Z) :
  1 <= X -> fix_fin X ex = Ret (Fin cq eq) ->
  0 <= cq /\ ex <= eq /\
  ((eq = ex /\ cq = X) \/
   (eq <= Z.max (ndigits X + ex - prec) Etiny + 1 /\
    cq * 10 ^ (eq - ex) <= X + 10 ^ (eq - ex))).
Proof.
  intros HX. unfold fix_fin.
  destruct (Z.eqb_spec X 0) as [|_]; [lia|].
  rewrite (Z.abs_eq X) by lia. rewrite (Z.sgn_pos X) by lia.
  destruct (Z.ltb_spec Etop (ndigits X + ex - prec)) as [|_]; [discriminate|].
  set (em := Z.max (ndigits X + ex - prec) Etiny).
  destruct (Z.ltb_spec ex em) as [Hround|Hkeep].
  2:{ intros H. inversion H; subst. lia. }
  pose proof (pow10_pos (em - ex) ltac:(lia)) as Hpk.
  pose proof (div_half_even_bounds X (10 ^ (em - ex)) ltac:(lia) Hpk) as [Hq1 Hq2].
  pose proof (div_half_even_nonneg X (10 ^ (em - ex)) ltac:(lia) Hpk) as Hq0.
  set (q := div_half_even X (10 ^ (em - ex))) in *.
  pose proof (Z.div_mod X (10 ^ (em - ex)) ltac:(lia)) as Hdm.
  pose proof (Z.mod_pos_bound X (10 ^ (em - ex)) ltac:(lia)) as Hmod.
  destruct (Z.leb_spec (10 ^ prec) q) as [Hcarry|Hnocarry].
  - destruct (Z.ltb_spec Etop (em + 1)) as [|_]; [discriminate|].
    intros H. inversion H; subst. rewrite Z.mul_1_l.
    pose proof (Z.div_mod q 10 ltac:(lia)) as Hdq.
    pose proof (Z.mod_pos_bound q 10 ltac:(lia)) as Hmq.
    split; [apply Z.div_pos; lia|]. split; [lia|]. right. split; [lia|].
    replace (em + 1 - ex) with ((em - ex) + 1) by lia. rewrite pow10_succ by lia. nia.
  - intros H. inversion H; subst. rewrite Z.mul_1_l.
    split; [lia|]. split; [lia|]. right. split; [lia|]. nia.
Qed.

(** The integer quotient computed by [__truediv__] has 29 or 30 digits. *)
Lemma div_coeff_bounds (a1 n : Z) :
  1 <= a1 -> 1 <= n ->
  let shift := ndigits n - ndigits a1 + prec + 1 in
  0 <= shift ->
  10 ^ prec <= (a1 * 10 ^ shift) / n < 10 ^ (prec + 2).
Proof.
  intros Ha Hn shift Hs.
  destruct (ndigits_spec a1 Ha) as [[Hlo1 Hhi1] Hd1].
  destruct (ndigits_spec n Hn) as [[Hlo2 Hhi2] Hd2].
  pose proof (pow10_pos shift Hs) as Hps.
  split.
  - apply Z.div_le_lower_bound; [lia|].
    (* n * 10^prec < 10^(d2 + prec) = 10^(d1 - 1 + shift) <= a1 * 10^shift *)
    assert (H1 : n * 10 ^ prec <= 10 ^ ndigits n * 10 ^ prec)
      by (apply Z.mul_le_mono_nonneg_r; [apply Z.lt_le_incl, pow10_pos; unfold prec; lia|lia]).
    assert (H2 : 10 ^ ndigits n * 10 ^ prec = 10 ^ (ndigits a1 - 1) * 10 ^ shift).
    { rewrite <- !Z.pow_add_r by (unfold prec in *; lia). f_equal. unfold shift. lia. }
    assert (H3 : 10 ^ (ndigits a1 - 1) * 10 ^ shift <= a1 * 10 ^ shift)
      by (apply Z.mul_le_mono_nonneg_r; lia).
    lia.
  - apply Z.div_lt_upper_bound; [lia|].
    assert (H1 : a1 * 10 ^ shift < 10 ^ ndigits a1 * 10 ^ shift)
      by (apply Z.mul_lt_mono_pos_r; lia).
    assert (H2 : 10 ^ ndigits a1 * 10 ^ shift = 10 ^ (ndigits n - 1) * 10 ^ (prec + 2)).
    { rewrite <- !Z.pow_add_r by (unfold prec in *; lia). f_equal. unfold shift. lia. }
    assert (H3 : 10 ^ (ndigits n - 1) * 10 ^ (prec + 2) <= n * 10 ^ (prec + 2)).
    { apply Z.mul_le_mono_nonneg_r; [apply Z.lt_le_incl, pow10_pos; unfold prec; lia|lia]. }
    lia.
Qed.

Lemma fix_fin_returns (c e : Z) :
  ndigits (Z.abs c) + e - prec < Etop -> exists c' e', fix_fin c e = Ret (Fin c' e').
Proof.
  intros H. unfold fix_fin.
  destruct (c =? 0); [eauto|].
  destruct (Z.ltb_spec Etop (ndigits (Z.abs c) + e - prec)) as [|_]; [lia|].
  destruct (e <? _); [|eauto].
  destruct (10 ^ prec <=? _); [|eauto].
  destruct (Z.ltb_spec Etop (Z.max (ndigits (Z.abs c) + e - prec) Etiny + 1)) as [Hov|_]; [|eauto].
  unfold Etop, Etiny, Emax, Emin, prec in *. lia.
Qed.

(** [Decimal / int] for a positive dividend and a positive divisor, when
    the dividend is scaled up rather than the divisor. *)
Lemma div_positive (a1 e n : Z) :
  1 <= a1 -> 1 <= n ->
  let shift := ndigits n - ndigits a1 + prec + 1 in
  0 <= shift ->
  div (Fin a1 e) (of_int n) =
  let coeff := (a1 * 10 ^ shift) / n in
  if (a1 * 10 ^ shift) mod n =? 0
  then let '(c', ex') := strip_zeros (Z.to_nat shift) coeff (e - shift) e in fix_fin c' ex'
  else fix_fin (if coeff mod 5 =? 0 then coeff + 1 else coeff) (e - shift).
Proof.
  intros Ha Hn shift Hs. unfold div, of_int. cbn [check_nans].
  destruct (Z.eqb_spec n 0) as [|_]; [lia|].
  destruct (Z.eqb_spec a1 0) as [|_]; [lia|].
  rewrite (Z.abs_eq a1), (Z.abs_eq n), (Z.sgn_pos a1), (Z.sgn_pos n) by lia.
  fold shift. destruct (Z.leb_spec 0 shift) as [_|]; [|lia].
  rewrite !Z.sub_0_r. replace (e - (e - shift)) with shift by lia.
  cbv zeta. destruct (_ =? 0).
  - destruct (strip_zeros _ _ _ _) as [c' ex']. rewrite Z.mul_1_l. reflexivity.
  - rewrite Z.mul_1_l. reflexivity.
Qed.

(** The integer [round(t / n)] is at most three above the quotient. *)
Lemma equal_quotient (a1 e n : Z) :
  1 <= a1 < 10 ^ 26 -> -2 <= e <= 0 -> 1 <= n < 10 ^ 25 ->
  exists q r,
    div (Fin a1 e) (of_int n) = Ret q /\ round q = Ret r /\
    0 <= r /\ r * n * 10 ^ (- e) <= a1 + 3 * n * 10 ^ (- e).
Proof.
  intros Ha He Hn.
  assert (Hd1 : ndigits a1 <= 26) by (apply ndigits_le; lia).
  assert (Hd2 : ndigits n <= 25) by (apply ndigits_le; lia).
  destruct (ndigits_spec a1 ltac:(lia)) as [_ Hd1'].
  destruct (ndigits_spec n ltac:(lia)) as [_ Hd2'].
  set (shift := ndigits n - ndigits a1 + prec + 1).
  assert (Hs : 4 <= shift <= 54) by (unfold shift, prec; lia).
  rewrite (div_positive a1 e n) by (fold shift; lia). fold shift. cbv zeta.
  pose proof (div_coeff_bounds a1 n ltac:(lia) ltac:(lia) ltac:(fold shift; lia)) as Hcoeff.
  fold shift in Hcoeff. cbv zeta in Hcoeff.
  set (coeff := a1 * 10 ^ shift / n) in *.
  set (j := shift - e).
  assert (Hj : 4 <= j) by (unfold j; lia).
  pose proof (pow10_pos j ltac:(lia)) as Hpj.
  assert (Hp4 : 10 ^ 4 <= 10 ^ j) by (apply pow10_le; lia).
  (* the quotient after [_fix], in units of [10 ^ (e - shift)] *)
  assert (Hfix : exists cq eq,
    (if a1 * 10 ^ shift mod n =? 0
     then let '(c', ex') := strip_zeros (Z.to_nat shift) coeff (e - shift) e in fix_fin c' ex'
     else fix_fin (if coeff mod 5 =? 0 then coeff + 1 else coeff) (e - shift))
    = Ret (Fin cq eq) /\
    0 <= cq /\ e - shift <= eq /\ cq * 10 ^ (eq - (e - shift)) <= coeff + 1 + 10 ^ 4).
  { destruct (_ =? 0).
    - destruct (strip_zeros (Z.to_nat shift) coeff (e - shift) e) as [c' ex'] eqn:Hstrip.
      apply strip_zeros_spec in Hstrip as (Hle & Hc & _).
      pose proof (pow10_pos (ex' - (e - shift)) ltac:(lia)) as Hpe.
      assert (Hc' : 1 <= c') by (change (10 ^ prec) with (10 ^ 28) in Hcoeff; nia).
      assert (Hnd : ndigits c' + (ex' - (e - shift)) <= 30).
      { rewrite <- ndigits_shift by lia. rewrite <- Hc.
        apply ndigits_le; [change (10 ^ prec) with (10 ^ 28) in Hcoeff; lia| |lia].
        change (prec + 2) with 30 in Hcoeff. lia. }
      destruct (fix_fin_returns c' ex') as (cq & eq & Hq).
      { rewrite Z.abs_eq by lia. unfold Etop, Emax, prec. lia. }
      exists cq, eq. split; [exact Hq|].
      destruct (fix_fin_upper c' ex' cq eq Hc' Hq) as (Hcq & Hex & [[-> ->]|[Heq Hup]]).
      + split; [lia|]. split; [lia|]. rewrite <- Hc. lia.
      + split; [lia|]. split; [lia|].
        replace (eq - (e - shift)) with ((eq - ex') + (ex' - (e - shift))) by lia.
        rewrite Z.pow_add_r by lia. rewrite Hc.
        assert (H3 : 10 ^ (eq - ex') * 10 ^ (ex' - (e - shift)) <= 10 ^ 4).
        { rewrite <- Z.pow_add_r by lia. apply pow10_le.
          unfold Etiny, Emin, prec in *. lia. }
        pose proof (pow10_pos (eq - ex') ltac:(lia)). nia.
    - set (X := if coeff mod 5 =? 0 then coeff + 1 else coeff).
      assert (HX : coeff <= X <= coeff + 1) by (unfold X; destruct (_ =? 0); lia).
      assert (HX1 : 1 <= X) by (change (10 ^ prec) with (10 ^ 28) in Hcoeff; lia).
      assert (Hnd : ndigits X <= 31).
      { apply ndigits_le; [lia| |lia]. change (prec + 2) with 30 in Hcoeff.
        assert (10 ^ 30 < 10 ^ 31) by (apply pow10_lt; lia). lia. }
      destruct (fix_fin_returns X (e - shift)) as (cq & eq & Hq).
      { rewrite Z.abs_eq by lia. unfold Etop, Emax, prec. lia. }
      exists cq, eq. split; [exact Hq|].
      destruct (fix_fin_upper X (e - shift) cq eq HX1 Hq) as (Hcq & Hex & [[-> ->]|[Heq Hup]]).
      + split; [lia|]. split; [lia|]. rewrite Z.sub_diag. cbn. lia.
      + split; [lia|]. split; [lia|].
        assert (H3 : 10 ^ (eq - (e - shift)) <= 10 ^ 4).
        { apply pow10_le. unfold Etiny, Emin, prec in *. lia. }
        lia. }
  destruct Hfix as (cq & eq & -> & Hcq & Hex & Hup).
  exists (Fin cq eq).
  (* the rounding to an integer *)
  assert (Hround : exists r, round (Fin cq eq) = Ret r /\ 0 <= r /\
                             r * 10 ^ j <= cq * 10 ^ (eq - (e - shift)) + 10 ^ j).
  { unfold round. destruct (Z.leb_spec 0 eq) as [Hpos|Hneg].
    - exists (cq * 10 ^ eq). split; [reflexivity|].
      pose proof (pow10_pos eq Hpos). split; [nia|].
      replace (eq - (e - shift)) with (eq + j) by (unfold j; lia).
      rewrite Z.pow_add_r by lia. nia.
    - pose proof (pow10_pos (- eq) ltac:(lia)) as Hpq.
      pose proof (div_half_even_bounds (Z.abs cq) (10 ^ (- eq)) ltac:(lia) Hpq) as [Hq1 Hq2].
      pose proof (div_half_even_nonneg (Z.abs cq) (10 ^ (- eq)) ltac:(lia) Hpq) as Hq0.
      rewrite Z.abs_eq in * by lia.
      set (d := div_half_even cq (10 ^ (- eq))) in *.
      exists (Z.sgn cq * d). split; [reflexivity|].
      assert (Hsg : 0 <= Z.sgn cq * d <= d) by (destruct cq; cbn; lia).
      split; [lia|].
      pose proof (Z.div_mod cq (10 ^ (- eq)) ltac:(lia)) as Hdm.
      pose proof (Z.mod_pos_bound cq (10 ^ (- eq)) ltac:(lia)) as Hmod.
      assert (Hd : d * 10 ^ (- eq) <= cq + 10 ^ (- eq)) by nia.
      assert (Hjj : 10 ^ j = 10 ^ (- eq) * 10 ^ (eq - (e - shift))).
      { rewrite <- Z.pow_add_r by lia. f_equal. unfold j. lia. }
      pose proof (pow10_pos (eq - (e - shift)) ltac:(lia)) as Hpe.
      rewrite Hjj. nia. }
  destruct Hround as (r & Hr & Hr0 & Hrup).
  exists r. split; [reflexivity|]. split; [exact Hr|]. split; [exact Hr0|].
  (* back to the units of the total *)
  pose proof (Z.div_mod (a1 * 10 ^ shift) n ltac:(lia)) as Hdm.
  pose proof (Z.mod_pos_bound (a1 * 10 ^ shift) n ltac:(lia)) as Hmod.
  fold coeff in Hdm.
  assert (Hrn : r * n * 10 ^ j <= a1 * 10 ^ shift + 3 * n * 10 ^ j) by nia.
  assert (Hjs : 10 ^ j = 10 ^ (- e) * 10 ^ shift).
  { rewrite <- Z.pow_add_r by lia. f_equal. unfold j. lia. }
  pose proof (pow10_pos shift ltac:(lia)) as Hps.
  rewrite Hjs in Hrn. nia.
Qed.

(** [r / Decimal('100')] for an integer [r]: the exact quotient, written
    with as few decimal places as it needs, two at most. *)
Lemma div_by_hundred (r : Z) :
  0 <= r < 10 ^ prec ->
  exists cs es,
    div (of_int r) (Fin 100 0) = Ret (Fin cs es) /\
    0 <= cs /\ -2 <= es <= 0 /\ cs * 10 ^ (es + 2) = r.
Proof.
  intros Hr. destruct (Z.eq_dec r 0) as [->|Hnz].
  { exists 0, 0. repeat split; try lia; reflexivity. }
  assert (Hd : ndigits r <= prec) by (apply ndigits_le; unfold prec in *; lia).
  destruct (ndigits_spec r ltac:(lia)) as [_ Hd'].
  change (div (of_int r) (Fin 100 0)) with (div (Fin r 0) (of_int 100)).
  set (shift := ndigits 100 - ndigits r + prec + 1).
  assert (Hs : 4 <= shift <= 32) by (unfold shift; change (ndigits 100) with 3; unfold prec in *; lia).
  rewrite (div_positive r 0 100) by (fold shift; lia). fold shift. cbv zeta.
  assert (Hsplit : r * 10 ^ shift = (r * 10 ^ (shift - 2)) * 100).
  { replace shift with ((shift - 2) + 2) at 1 by lia. rewrite Z.pow_add_r by lia. lia. }
  rewrite Hsplit, Z.mod_mul, Z.div_mul by lia. cbn [Z.eqb].
  replace (shift - 2) with (Z.of_nat (Z.to_nat (shift - 2))) by lia.
  rewrite strip_zeros_shifted by lia.
  destruct (strip_zeros _ r _ 0) as [cs es] eqn:Hstrip.
  apply strip_zeros_spec in Hstrip as (Hle & Hc & Hid).
  assert (Hes : -2 <= es <= 0) by lia.
  replace (es - (0 - shift + Z.of_nat (Z.to_nat (shift - 2)))) with (es + 2) in Hc by lia.
  pose proof (pow10_pos (es + 2) ltac:(lia)) as Hp.
  assert (Hcs : 1 <= cs <= r) by nia.
  exists cs, es. split.
  - apply fix_fin_small; [unfold prec in *; lia|unfold Etiny, Etop, Emin, Emax, prec; lia].
  - repeat split; lia.
Qed.

(** *** Values *)

Lemma pow10_Q (k : Z) : 0 <= k -> (inject_Z (10 ^ k) == (10 # 1) ^ k)%Q.
Proof.
  intros Hk. destruct k as [|p|p]; [reflexivity| |lia].
  rewrite Qpower_decomp_pos. unfold Qeq. cbn [Qnum Qden inject_Z].
  rewrite Pos2Z.inj_pow, Z.pow_1_l by lia. reflexivity.
Qed.

(** The value of [c * 10^e], written with a smaller exponent [m]. *)
Lemma value_scaled (c e m : Z) :
  m <= e -> (value (Fin c e) == inject_Z (c * 10 ^ (e - m)) * (10 # 1) ^ m)%Q.
Proof.
  intros Hm. cbn [value]. rewrite inject_Z_mult, pow10_Q by lia.
  rewrite <- Qmult_assoc, <- Qpower_plus by discriminate.
  replace (e - m + m) with e by lia. reflexivity.
Qed.

End DecFacts.

(** ** Facts about computations *)

Module MonadFacts.

Lemma bind_ret_inv {S A B} (m : M S A) (k : A -> M S B) (s s' : S) (b : B) :
  bind m k s = (s', Ret b) ->
  exists a s1, m s = (s1, Ret a) /\ k a s1 = (s', Ret b).
Proof.
  unfold bind. destruct (m s) as [s1 [a|e]]; [|discriminate]. eauto.
Qed.

Lemma bind_assoc {S A B C} (m : M S A) (f : A -> M S B) (g : B -> M S C) (s : S) :
  bind (bind m f) g s = bind m (fun x => bind (f x) g) s.
Proof.
  unfold bind. destruct (m s) as [s1 [a|e]]; reflexivity.
Qed.

Lemma bind_ret_eq {S A B} (m : M S A) (k : A -> M S B) (s s1 : S) (a : A) :
  m s = (s1, Ret a) -> bind m k s = k a s1.
Proof. unfold bind. intros ->. reflexivity. Qed.

Lemma bind_raise_eq {S A B} (m : M S A) (k : A -> M S B) (s s1 : S) (e : exn) :
  m s = (s1, Raise e) -> bind m k s = (s1, Raise e).
Proof. unfold bind. intros ->. reflexivity. Qed.

Section preserves.
Context (P : World -> Prop).

Lemma preserves_ret {A} (a : A) : preserves P (ret a).
Proof. intros w H. exact H. Qed.

Lemma preserves_raise {A} (e : exn) : preserves P (@raise World A e).
Proof. intros w H. exact H. Qed.

Lemma preserves_lift {A} (o : outcome A) : preserves P (lift o).
Proof. intros w H. exact H. Qed.

Lemma preserves_get_mgr : preserves P get_mgr.
Proof. intros w H. exact H. Qed.

Lemma preserves_bind {A B} (m : M World A) (k : A -> M World B) :
  preserves P m -> (forall a, preserves P (k a)) -> preserves P (bind m k).
Proof.
  intros Hm Hk w H. unfold bind. specialize (Hm w H).
  destruct (m w) as [w1 [a|e]]; cbn in *; [apply Hk, Hm|exact Hm].
Qed.

Lemma preserves_for_each {A} (l : list A) (body : A -> M World unit) :
  (forall a, preserves P (body a)) -> preserves P (for_each l body).
Proof.
  intros Hb. induction l as [|a l IH]; cbn [for_each].
  - apply preserves_ret.
  - apply preserves_bind; [apply Hb|intros _; exact IH].
Qed.
End preserves.

(** Properties of the manager's fields are not affected by printing or
    by computations on the object store. *)
Section on_manager.
Context (Q : ExpenseManager -> Prop).

Lemma preserves_print (l : Line) : preserves (fun w => Q (mgr w)) (print l).
Proof. intros w H. exact H. Qed.

Lemma preserves_on_heap {A} (m : M Heap A) : preserves (fun w => Q (mgr w)) (on_heap m).
Proof. intros w H. unfold on_heap. destruct (m (heap w)). exact H. Qed.
End on_manager.

(** The exceptions of a composed computation. *)
Section raises.
Context {S : Type} (P : exn -> Prop).

Lemma raises_only_ret {A} (a : A) : raises_only P (@ret S A a).
Proof. intros s s' e H. inversion H. Qed.

Lemma raises_only_lift {A} (o : outcome A) :
  (forall e, o = Raise e -> P e) -> raises_only P (@lift S A o).
Proof. intros Ho s s' e H. inversion H. apply Ho. assumption. Qed.

Lemma raises_only_bind {A B} (m : M S A) (k : A -> M S B) :
  raises_only P m -> (forall a, raises_only P (k a)) -> raises_only P (bind m k).
Proof.
  intros Hm Hk s s' e. unfold bind. destruct (m s) as [s1 [a|e1]] eqn:Hms.
  - apply Hk.
  - intros H. inversion H; subst. eapply Hm, Hms.
Qed.

Lemma raises_only_for_each {A} (l : list A) (body : A -> M S unit) :
  (forall a, raises_only P (body a)) -> raises_only P (for_each l body).
Proof.
  intros Hb. induction l as [|a l IH]; cbn [for_each].
  - apply raises_only_ret.
  - apply raises_only_bind; [apply Hb|intros _; exact IH].
Qed.
End raises.

End MonadFacts.

(** ** Facts about dictionaries *)

Module DictFacts.
Section dict.
Context {V : Type}.
Implicit Types (d : dict V) (k : string) (v : V).

Lemma get_set_eq k v d : Dict.get k (Dict.set k v d) = Some v.
Proof.
  induction d as [|[k' v'] d IH]; cbn.
  - rewrite String.eqb_refl. reflexivity.
  - destruct (String.eqb_spec k k') as [->|Hne]; cbn.
    + rewrite String.eqb_refl. reflexivity.
    + destruct (String.eqb_spec k k'); [contradiction|exact IH].
Qed.

Lemma get_set_ne k k' v d : k <> k' -> Dict.get k' (Dict.set k v d) = Dict.get k' d.
Proof.
  intros Hne. induction d as [|[k0 v0] d IH]; cbn.
  - destruct (String.eqb_spec k' k); [congruence|reflexivity].
  - destruct (String.eqb_spec k k0) as [->|Hk]; cbn.
    + destruct (String.eqb_spec k' k0); [congruence|reflexivity].
    + destruct (String.eqb_spec k' k0); [reflexivity|exact IH].
Qed.

Lemma get_set k k' v d :
  Dict.get k' (Dict.set k v d) = if String.eqb k k' then Some v else Dict.get k' d.
Proof.
  destruct (String.eqb_spec k k') as [->|Hne].
  - apply get_set_eq.
  - apply get_set_ne, Hne.
Qed.

Lemma get_None_not_in k d : Dict.get k d = None -> ~ In k (map fst d).
Proof.
  induction d as [|[k' v'] d IH]; cbn; [tauto|].
  destruct (String.eqb_spec k k') as [->|Hne]; [discriminate|].
  intros H [Heq|Hin]; [congruence|exact (IH H Hin)].
Qed.

Lemma get_Some_in k v d : Dict.get k d = Some v -> In (k, v) d.
Proof.
  induction d as [|[k' v'] d IH]; cbn; [discriminate|].
  destruct (String.eqb_spec k k') as [->|Hne].
  - intros H. inversion H. left. reflexivity.
  - intros H. right. exact (IH H).
Qed.

Lemma in_get k v d : List.NoDup (map fst d) -> In (k, v) d -> Dict.get k d = Some v.
Proof.
  induction d as [|[k' v'] d IH]; cbn; [tauto|].
  intros Hnd [Heq|Hin].
  - inversion Heq; subst. rewrite String.eqb_refl. reflexivity.
  - apply NoDup_cons_iff in Hnd as [Hnotin Hnd].
    destruct (String.eqb_spec k k') as [->|Hne].
    + exfalso. apply Hnotin. change k' with (fst (k', v)). apply in_map, Hin.
    + exact (IH Hnd Hin).
Qed.

(** Assigning to a key keeps the other items and the order of the keys;
    a new key goes last. *)
Lemma in_set k v d k' v' :
  In (k', v') (Dict.set k v d) -> (k' = k /\ v' = v) \/ In (k', v') d.
Proof.
  induction d as [|[k0 v0] d IH]; cbn.
  - intros [H|[]]. inversion H. left. split; reflexivity.
  - destruct (String.eqb_spec k k0) as [->|Hne]; cbn.
    + intros [H|H].
      * inversion H. left. split; reflexivity.
      * right. right. exact H.
    + intros [H|H].
      * right. left. exact H.
      * destruct (IH H) as [?|?]; [left; assumption|right; right; assumption].
Qed.

Lemma keys_set k v d :
  map fst (Dict.set k v d) =
  if Dict.contains k d then map fst d else map fst d ++ [k].
Proof.
  unfold Dict.contains. induction d as [|[k0 v0] d IH]; cbn; [reflexivity|].
  destruct (String.eqb_spec k k0) as [->|Hne]; cbn; [reflexivity|].
  rewrite IH. destruct (Dict.get k d); reflexivity.
Qed.

Lemma NoDup_keys_set k v d :
  List.NoDup (map fst d) -> List.NoDup (map fst (Dict.set k v d)).
Proof.
  intros Hnd. rewrite keys_set. unfold Dict.contains.
  destruct (Dict.get k d) eqn:Hg; [exact Hnd|].
  apply List.NoDup_app; [exact Hnd|repeat constructor; intros []|].
  intros x Hx [<-|[]]. exact (get_None_not_in _ _ Hg Hx).
Qed.
End dict.
End DictFacts.

(** ** The balance table under the updates of [add_expense] *)

Module LedgerFacts.
Import DictFacts.

Lemma entry_assign (m : ExpenseManager) (a b a' b' : string) (v : Decimal) bs :
  balance_sheet m = bs -> Dict.get a bs <> None ->
  entry (mkManager (expenses m) (user_map m) (assign a b v bs)) a' b' =
  if (String.eqb a a' && String.eqb b b')%bool then Some v else entry m a' b'.
Proof.
  intros <- Hrow. unfold entry, assign; cbn.
  destruct (Dict.get a (balance_sheet m)) as [r|] eqn:Hr; [|congruence].
  rewrite get_set.
  destruct (String.eqb_spec a a') as [<-|Hne]; cbn.
  - rewrite Hr, get_set. reflexivity.
  - reflexivity.
Qed.

Lemma row_assign (a b k : string) (v : Decimal) (bs : dict (dict Decimal)) :
  Dict.get k (assign a b v bs) = None <-> Dict.get k bs = None.
Proof.
  unfold assign. destruct (Dict.get a bs) as [r|] eqn:Hr; [|tauto].
  rewrite get_set. destruct (String.eqb_spec a k) as [<-|Hne]; [|tauto].
  rewrite Hr. split; discriminate.
Qed.

Lemma store_entry_spec (a b : string) (v : Decimal) (w : World) :
  store_entry a b v w =
  match Dict.get a (balance_sheet (mgr w)) with
  | Some _ => (with_sheet w (assign a b v (balance_sheet (mgr w))), Ret tt)
  | None => (w, Raise (KeyError a))
  end.
Proof.
  unfold store_entry, row, bind, get_mgr, modify_mgr, lift, Dict.subscript, with_sheet, assign.
  destruct (Dict.get a (balance_sheet (mgr w))); reflexivity.
Qed.

Lemma ensure_entry_spec (a b : string) (w : World) :
  ensure_entry a b w =
  match Dict.get a (balance_sheet (mgr w)) with
  | Some r =>
    if Dict.contains b r then (w, Ret tt)
    else (with_sheet w (assign a b (Dec.of_int 0) (balance_sheet (mgr w))), Ret tt)
  | None => (w, Raise (KeyError a))
  end.
Proof.
  unfold ensure_entry, bind at 1, row, bind, get_mgr, lift, Dict.subscript.
  destruct (Dict.get a (balance_sheet (mgr w))) as [r|] eqn:Hr; [|reflexivity].
  destruct (Dict.contains b r); [reflexivity|].
  rewrite store_entry_spec, Hr. reflexivity.
Qed.

Lemma update_entry_spec (op : Decimal -> Decimal -> outcome Decimal) (a b : string)
    (x : Decimal) (w : World) :
  update_entry op a b x w =
  match Dict.get a (balance_sheet (mgr w)) with
  | Some r =>
    match Dict.get b r with
    | Some v =>
      match op v x with
      | Ret v' => (with_sheet w (assign a b v' (balance_sheet (mgr w))), Ret tt)
      | Raise e => (w, Raise e)
      end
    | None => (w, Raise (KeyError b))
    end
  | None => (w, Raise (KeyError a))
  end.
Proof.
  unfold update_entry, bind at 1, row, bind, get_mgr, lift, Dict.subscript.
  destruct (Dict.get a (balance_sheet (mgr w))) as [r|] eqn:Hr; [|reflexivity].
  destruct (Dict.get b r) as [v|]; [|reflexivity].
  destruct (op v x) as [v'|e]; [|reflexivity].
  rewrite store_entry_spec, Hr. reflexivity.
Qed.

Lemma same_but_sheet_refl (w : World) : same_but_sheet w w.
Proof. repeat split. Qed.

Lemma same_but_sheet_trans (w1 w2 w3 : World) :
  same_but_sheet w1 w2 -> same_but_sheet w2 w3 -> same_but_sheet w1 w3.
Proof. unfold same_but_sheet. intros (?&?&?&?) (?&?&?&?). repeat split; congruence. Qed.

Lemma same_but_sheet_with (w : World) bs : same_but_sheet w (with_sheet w bs).
Proof. repeat split. Qed.

(** The effect of [if b not in table[a]: table[a][b] = 0] followed by
    [table[a][b] = op(table[a][b], x)] when no exception is raised. *)
Lemma bump_ok (op : Decimal -> Decimal -> outcome Decimal) (a b : string) (x : Decimal)
    (w w' : World) :
  (do _ <- ensure_entry a b; update_entry op a b x) w = (w', Ret tt) ->
  exists v',
    op (current (mgr w) a b) x = Ret v' /\
    Dict.get a (balance_sheet (mgr w)) <> None /\
    same_but_sheet w w' /\
    (forall a' b', entry (mgr w') a' b' =
       if (String.eqb a a' && String.eqb b b')%bool then Some v' else entry (mgr w) a' b') /\
    (forall k, Dict.get k (balance_sheet (mgr w')) = None <->
               Dict.get k (balance_sheet (mgr w)) = None).
Proof.
  unfold bind. rewrite ensure_entry_spec. unfold current, entry.
  destruct (Dict.get a (balance_sheet (mgr w))) as [r|] eqn:Hr; [|discriminate].
  unfold Dict.contains.
  destruct (Dict.get b r) as [v|] eqn:Hv.
  - (* the entry exists *)
    rewrite update_entry_spec, Hr, Hv.
    destruct (op v x) as [v'|err] eqn:Hop; [|discriminate].
    intros H. inversion H; subst. clear H.
    exists v'. split; [reflexivity|]. split; [congruence|]. split; [apply same_but_sheet_with|].
    split.
    + intros a' b'. cbn [mgr with_sheet].
      pose proof (entry_assign (mgr w) a b a' b' v' _ eq_refl ltac:(congruence)) as E.
      unfold entry in E. exact E.
    + intros k. cbn. apply row_assign.
  - (* the entry is created first *)
    set (bs0 := assign a b (Dec.of_int 0) (balance_sheet (mgr w))).
    assert (Hr0 : Dict.get a bs0 = Some (Dict.set b (Dec.of_int 0) r)).
    { unfold bs0, assign. rewrite Hr. apply get_set_eq. }
    rewrite update_entry_spec. cbn [mgr with_sheet balance_sheet].
    rewrite Hr0, get_set_eq.
    destruct (op (Dec.of_int 0) x) as [v'|err] eqn:Hop; [|discriminate].
    intros H. inversion H; subst. clear H.
    exists v'. split; [reflexivity|]. split; [congruence|]. split; [repeat split|].
    split.
    + intros a' b'. cbn [mgr with_sheet expenses user_map].
      pose proof (entry_assign (mkManager (expenses (mgr w)) (user_map (mgr w)) bs0)
                    a b a' b' v' bs0 eq_refl ltac:(congruence)) as E1.
      pose proof (entry_assign (mgr w) a b a' b' (Dec.of_int 0) _ eq_refl ltac:(congruence)) as E2.
      fold bs0 in E2. unfold entry in E1, E2. cbn [expenses user_map balance_sheet] in E1, E2.
      cbn [balance_sheet]. rewrite E1, E2.
      destruct (String.eqb a a' && String.eqb b b')%bool eqn:Hab; reflexivity.
    + intros k. cbn. rewrite row_assign. apply row_assign.
Qed.

(** *** The shape of the ledger is kept by every method *)

Import MonadFacts.

Lemma shape_assign (w : World) (a b : string) (v : Decimal) :
  ledger_shape (mgr w) -> Dec.context_result v ->
  ledger_shape (mgr (with_sheet w (assign a b v (balance_sheet (mgr w))))).
Proof.
  intros [Hnd Hrows] Hv. unfold ledger_shape, assign. cbn [mgr with_sheet balance_sheet user_map].
  destruct (Dict.get a (balance_sheet (mgr w))) as [r|] eqn:Hr; [|split; assumption].
  pose proof (get_Some_in _ _ _ Hr) as Hin.
  destruct (Hrows _ _ Hin) as (Hreg & Hndr & Hvals).
  split; [apply NoDup_keys_set, Hnd|].
  intros k r' Hk. apply in_set in Hk as [[-> ->]|Hold]; [|apply Hrows, Hold].
  split; [exact Hreg|]. split; [apply NoDup_keys_set, Hndr|].
  intros b' x' Hx. apply in_set in Hx as [[_ ->]|Hold]; [exact Hv|exact (Hvals _ _ Hold)].
Qed.

Lemma shape_ensure_entry (a b : string) :
  preserves (fun w => ledger_shape (mgr w)) (ensure_entry a b).
Proof.
  intros w H. rewrite ensure_entry_spec.
  destruct (Dict.get a (balance_sheet (mgr w))) as [r|]; [|exact H].
  destruct (Dict.contains b r); [exact H|].
  apply shape_assign; [exact H|reflexivity].
Qed.

Lemma shape_update_entry (op : Decimal -> Decimal -> outcome Decimal) (a b : string) (x : Decimal) :
  (forall v v', op v x = Ret v' -> Dec.context_result v') ->
  preserves (fun w => ledger_shape (mgr w)) (update_entry op a b x).
Proof.
  intros Hop w H. rewrite update_entry_spec.
  destruct (Dict.get a (balance_sheet (mgr w))) as [r|]; [|exact H].
  destruct (Dict.get b r) as [v|]; [|exact H].
  destruct (op v x) as [v'|e] eqn:E; [|exact H].
  apply shape_assign; [exact H|exact (Hop _ _ E)].
Qed.

Lemma shape_apply_split (payer : string) (a : addr) :
  preserves (fun w => ledger_shape (mgr w)) (apply_split payer a).
Proof.
  unfold apply_split.
  apply preserves_bind; [apply (preserves_on_heap ledger_shape)|intros split].
  apply preserves_bind; [apply shape_ensure_entry|intros _].
  apply preserves_bind.
  { apply shape_update_entry. intros v v'. apply DecFacts.add_context_result. }
  intros _.
  apply preserves_bind; [apply shape_ensure_entry|intros _].
  apply shape_update_entry. intros v v'. apply DecFacts.sub_context_result.
Qed.

Lemma preserves_modify_mgr (Q : ExpenseManager -> Prop) (f : ExpenseManager -> ExpenseManager) :
  (forall m, Q m -> Q (f m)) -> preserves (fun w => Q (mgr w)) (modify_mgr f).
Proof. intros Hf w H. cbn. apply Hf, H. Qed.

Lemma shape_add_expense t amt payer l md :
  preserves (fun w => ledger_shape (mgr w)) (add_expense t amt payer l md).
Proof.
  unfold add_expense.
  apply preserves_bind; [apply preserves_get_mgr|intros m].
  apply preserves_bind; [apply preserves_lift|intros u].
  apply preserves_bind; [apply (preserves_on_heap ledger_shape)|intros [e|]].
  - apply preserves_bind.
    + apply preserves_modify_mgr. intros m' H. exact H.
    + intros _. apply preserves_for_each. intros a. apply shape_apply_split.
  - apply (preserves_print ledger_shape).
Qed.

Lemma shape_add_user (u : User) :
  preserves (fun w => ledger_shape (mgr w)) (add_user u).
Proof.
  intros w [Hnd Hrows]. cbn.
  split; [apply NoDup_keys_set, Hnd|]. cbn [balance_sheet user_map].
  intros k r Hin. rewrite get_set.
  apply in_set in Hin as [[-> ->]|Hold].
  - rewrite String.eqb_refl. split; [discriminate|]. split; [constructor|intros ? ? []].
  - destruct (Hrows _ _ Hold) as (Hreg & Hrest). split; [|exact Hrest].
    destruct (String.eqb (user_id u) k); [discriminate|exact Hreg].
Qed.

(** Queries print; they change neither the manager nor the objects. *)
Section queries.
Context (m0 : ExpenseManager) (h0 : Heap).
Let frame (w : World) : Prop := mgr w = m0 /\ heap w = h0.

Lemma frame_print (l : Line) : preserves frame (print l).
Proof. intros w H. exact H. Qed.

Lemma frame_print_balance (user1 user2 : string) (a : Decimal) :
  preserves frame (_print_balance user1 user2 a).
Proof.
  unfold _print_balance.
  apply preserves_bind; [apply preserves_get_mgr|intros m].
  apply preserves_bind; [apply preserves_lift|intros u1].
  apply preserves_bind; [apply preserves_lift|intros u2].
  apply preserves_bind; [apply preserves_lift|intros [|]].
  - apply preserves_bind; [apply preserves_lift|intros v]. apply frame_print.
  - apply preserves_bind; [apply preserves_lift|intros [|]]; [|apply preserves_ret].
    apply preserves_bind; [apply preserves_lift|intros v]. apply frame_print.
Qed.

Lemma frame_show_items (test : Decimal -> outcome bool) (user1 : string)
    (items : dict Decimal) (is_empty : bool) :
  preserves frame (show_items test user1 items is_empty).
Proof.
  revert is_empty. induction items as [|[other a] rest IH]; intros is_empty; cbn [show_items].
  - apply preserves_ret.
  - apply preserves_bind; [apply preserves_lift|intros [|]]; [|apply IH].
    apply preserves_bind; [apply frame_print_balance|intros _; apply IH].
Qed.

Lemma frame_show_rows (rows : dict (dict Decimal)) (is_empty : bool) :
  preserves frame (show_rows rows is_empty).
Proof.
  revert is_empty. induction rows as [|[uid balances] rest IH]; intros is_empty; cbn [show_rows].
  - apply preserves_ret.
  - apply preserves_bind; [apply frame_show_items|intros b; apply IH].
Qed.

Lemma frame_show_balance (uid : option string) : preserves frame (show_balance uid).
Proof.
  assert (Hglobal : forall m, preserves frame
    (do is_empty <- show_rows (balance_sheet m) true;
     if is_empty then print NoBalances else ret tt)).
  { intros m. apply preserves_bind; [apply frame_show_rows|intros [|]];
      [apply frame_print|apply preserves_ret]. }
  unfold show_balance.
  apply preserves_bind; [apply preserves_get_mgr|intros m].
  destruct uid as [k|]; [|apply Hglobal].
  destruct (truthy (Some k)); [|apply Hglobal].
  apply preserves_bind; [apply frame_show_items|intros [|]];
    [apply frame_print|apply preserves_ret].
Qed.
End queries.

Lemma show_balance_frame (uid : option string) (w : World) :
  mgr (fst (show_balance uid w)) = mgr w /\ heap (fst (show_balance uid w)) = heap w.
Proof. apply (frame_show_balance (mgr w) (heap w) uid w). split; reflexivity. Qed.

Lemma reachable_shape (w : World) : reachable w -> ledger_shape (mgr w).
Proof.
  induction 1 as [h out|w w' _ IH Hstep].
  - split; [constructor|intros ? ? []].
  - destruct Hstep.
    + apply shape_add_user, IH.
    + apply shape_add_expense, IH.
    + destruct (show_balance_frame uid w) as [-> _]. exact IH.
    + exact IH.
Qed.

(** *** One split applied to the table *)

Lemma on_heap_read (a : addr) (w : World) :
  on_heap (read a) w =
  (w, match heap w !! a with Some o => Ret o | None => Raise BadReference end).
Proof. destruct w as [h m out]. unfold on_heap, read. cbn. destruct (h !! a); reflexivity. Qed.

(** What a split that is applied without an exception does: the entry
    of the payer's row and its mirror entry are updated, in this order,
    and nothing else changes. *)
Lemma apply_split_ok (p : string) (a : addr) (w w' : World) :
  apply_split p a w = (w', Ret tt) ->
  exists o v1 v2,
    heap w !! a = Some o /\
    Dec.add (current (mgr w) p (user_id (user o))) (amount o) = Ret v1 /\
    Dec.sub (if String.eqb p (user_id (user o)) then v1
             else current (mgr w) (user_id (user o)) p) (amount o) = Ret v2 /\
    same_but_sheet w w' /\
    (forall a' b', entry (mgr w') a' b' =
       if (String.eqb (user_id (user o)) a' && String.eqb p b')%bool then Some v2
       else if (String.eqb p a' && String.eqb (user_id (user o)) b')%bool then Some v1
       else entry (mgr w) a' b') /\
    (forall k, Dict.get k (balance_sheet (mgr w')) = None <->
               Dict.get k (balance_sheet (mgr w)) = None).
Proof.
  unfold apply_split. intros H.
  apply bind_ret_inv in H as (o & w0 & Hread & H).
  rewrite on_heap_read in Hread.
  destruct (heap w !! a) as [o'|] eqn:Ho; inversion Hread; subst o' w0. clear Hread.
  exists o. revert H. generalize (user_id (user o)) as q, (amount o) as x. intros q x H.
  apply bind_ret_inv in H as ([] & w1 & He1 & H).
  apply bind_ret_inv in H as ([] & w2 & Hu1 & H).
  apply bind_ret_inv in H as ([] & w3 & He2 & Hu2).
  assert (B1 : (do _ <- ensure_entry p q; update_entry Dec.add p q x) w = (w2, Ret tt)).
  { rewrite (bind_ret_eq _ _ _ _ _ He1). exact Hu1. }
  assert (B2 : (do _ <- ensure_entry q p; update_entry Dec.sub q p x) w2 = (w', Ret tt)).
  { rewrite (bind_ret_eq _ _ _ _ _ He2). exact Hu2. }
  apply bump_ok in B1 as (v1 & Hv1 & Hrow1 & Hsame1 & Hent1 & Hrows1).
  apply bump_ok in B2 as (v2 & Hv2 & Hrow2 & Hsame2 & Hent2 & Hrows2).
  exists v1, v2. split; [reflexivity|]. split; [exact Hv1|]. split.
  { rewrite <- Hv2. f_equal. unfold current. rewrite Hent1.
    destruct (String.eqb_spec p q) as [Hpq|Hpq].
    - rewrite <- Hpq, String.eqb_refl. reflexivity.
    - destruct (String.eqb_spec q p) as [Hqp|_]; [congruence|].
      rewrite andb_false_r. reflexivity. }
  split; [eapply same_but_sheet_trans; eassumption|]. split.
  - intros a' b'. rewrite Hent2, Hent1. reflexivity.
  - intros k. rewrite Hrows2. apply Hrows1.
Qed.

(** *** The matched pair *)

Lemma neg_involutive (x : Decimal) : Dec.neg (Dec.neg x) = x.
Proof.
  destruct x as [c e|s|s]; cbn; [rewrite Z.opp_involutive|rewrite negb_involutive|]; reflexivity.
Qed.

Lemma is_nan_neg (x : Decimal) : Dec.is_nan (Dec.neg x) = Dec.is_nan x.
Proof. destruct x; reflexivity. Qed.

Lemma mirror_current (m : ExpenseManager) (a b : string) :
  mirror m -> current m b a = Dec.neg (current m a b) /\ Dec.is_nan (current m a b) = false.
Proof.
  intros Hm. unfold current.
  destruct (entry m a b) as [x|] eqn:Hab.
  - destruct (Hm _ _ _ Hab) as [-> Hnan]. split; [reflexivity|exact Hnan].
  - destruct (entry m b a) as [y|] eqn:Hba; [|split; reflexivity].
    destruct (Hm _ _ _ Hba) as [Hab' _]. congruence.
Qed.

Lemma mirror_self_zero (m : ExpenseManager) (a : string) :
  mirror m -> exists e0, current m a a = Dec.Fin 0 e0.
Proof.
  intros Hm. destruct (mirror_current m a a Hm) as [Heq Hnan].
  destruct (current m a a) as [c e|s|s]; cbn in *.
  - exists e. inversion Heq. f_equal. lia.
  - inversion Heq. destruct s; discriminate.
  - discriminate.
Qed.

Lemma apply_split_mirror (p : string) (a : addr) (w w' : World) :
  mirror (mgr w) ->
  (forall o, heap w !! a = Some o -> Dec.representable (amount o)) ->
  apply_split p a w = (w', Ret tt) ->
  mirror (mgr w').
Proof.
  intros Hm Hrep H.
  apply apply_split_ok in H as (o & v1 & v2 & Ho & Hv1 & Hv2 & _ & Hent & _).
  specialize (Hrep o Ho).
  revert Hv1 Hv2 Hent Hrep. generalize (user_id (user o)) as q, (amount o) as x.
  intros q x Hv1 Hv2 Hent Hrep.
  destruct x as [c e| |]; try contradiction.
  destruct (String.eqb_spec p q) as [<-|Hpq].
  - (* the payer is the participant: the entry stays a zero *)
    destruct (mirror_self_zero (mgr w) p Hm) as [e0 Hz]. rewrite Hz in Hv1.
    destruct (DecFacts.add_zero_l e0 c e Hrep) as (e' & He' & Hadd).
    rewrite Hadd in Hv1. inversion Hv1; subst v1. clear Hv1.
    destruct (DecFacts.sub_same_value c e e' He') as [e'' Hsub].
    rewrite Hsub in Hv2. inversion Hv2; subst v2. clear Hv2.
    intros a' b' x0. rewrite !Hent.
    destruct (String.eqb_spec p a') as [Ha|Ha]; destruct (String.eqb_spec p b') as [Hb|Hb]; cbn [andb].
    + intros Hx. inversion Hx. split; reflexivity.
    + apply Hm.
    + apply Hm.
    + apply Hm.
  - (* two users: the mirror entry receives the negated sum *)
    destruct (mirror_current (mgr w) p q Hm) as [Hcur Hnan].
    rewrite Hcur, DecFacts.sub_neg_l, Hv1 in Hv2. cbn in Hv2. inversion Hv2; subst v2. clear Hv2.
    assert (Hnan1 : Dec.is_nan v1 = false) by (eapply DecFacts.add_not_nan; eauto).
    intros a' b' x0. rewrite !Hent.
    destruct (String.eqb_spec q a') as [Hqa|Hqa]; destruct (String.eqb_spec p b') as [Hpb|Hpb];
      destruct (String.eqb_spec p a') as [Hpa|Hpa]; destruct (String.eqb_spec q b') as [Hqb|Hqb];
      cbn [andb]; try congruence;
      try (intros Hx; inversion Hx; subst; rewrite ?neg_involutive, ?is_nan_neg;
           split; [reflexivity|assumption]);
      try apply Hm.
Qed.

Lemma for_each_apply_split_same (p : string) (l : list addr) :
  forall w w', for_each l (apply_split p) w = (w', Ret tt) -> same_but_sheet w w'.
Proof.
  induction l as [|a l IH]; intros w w' H; cbn [for_each] in H.
  - inversion H. apply same_but_sheet_refl.
  - apply bind_ret_inv in H as ([] & w1 & Ha & Hl).
    apply apply_split_ok in Ha as (? & ? & ? & _ & _ & _ & Hs & _).
    eapply same_but_sheet_trans; [exact Hs|apply IH, Hl].
Qed.

Lemma for_each_apply_split_mirror (p : string) (l : list addr) :
  forall w w',
    mirror (mgr w) -> shares_representable (heap w) l ->
    for_each l (apply_split p) w = (w', Ret tt) ->
    mirror (mgr w') /\ same_but_sheet w w'.
Proof.
  induction l as [|a l IH]; intros w w' Hm Hrep H; cbn [for_each] in H.
  - inversion H; subst. split; [exact Hm|apply same_but_sheet_refl].
  - apply bind_ret_inv in H as ([] & w1 & Ha & Hl).
    assert (Hsame : same_but_sheet w w1).
    { apply apply_split_ok in Ha as (? & ? & ? & _ & _ & _ & Hs & _). exact Hs. }
    assert (Hm1 : mirror (mgr w1)).
    { eapply apply_split_mirror; [exact Hm| |exact Ha].
      intros o Ho. destruct (Hrep a (or_introl eq_refl)) as (o' & Ho' & Hr). congruence. }
    destruct (IH w1 w' Hm1) as [Hm' Hs']; [|exact Hl|].
    + intros a0 Ha0. destruct Hsame as (-> & _). apply Hrep. right. exact Ha0.
    + split; [exact Hm'|eapply same_but_sheet_trans; eassumption].
Qed.

(** *** The factory returns the list of splits it was given *)

Lemma validate_result (e : Expense) (h h' : Heap) (r : option Expense) :
  (do ok <- validate e; ret (if ok then Some e else None)) h = (h', Ret r) ->
  r = None \/ r = Some e.
Proof.
  intros H. apply bind_ret_inv in H as (b & h1 & _ & H). inversion H.
  destruct b; [right|left]; reflexivity.
Qed.

Lemma create_expense_splits t amt u l md (h h' : Heap) (e : Expense) :
  create_expense t amt u l md h = (h', Ret (Some e)) ->
  splits e = l /\ expense_amount e = amt /\ paid_by e = u.
Proof.
  unfold create_expense. intros H.
  apply bind_ret_inv in H as (built & h1 & Hb & H).
  destruct built as [e0|]; [|inversion H].
  apply validate_result in H as [H|H]; [discriminate|]. inversion H; subst e0. clear H.
  destruct t as [[| |]|]; cbn [build_expense] in Hb.
  - apply bind_ret_inv in Hb as (? & ? & _ & Hb).
    apply bind_ret_inv in Hb as (? & ? & _ & Hb).
    apply bind_ret_inv in Hb as (? & ? & _ & Hb).
    inversion Hb. repeat split.
  - inversion Hb. repeat split.
  - apply bind_ret_inv in Hb as (? & ? & _ & Hb). inversion Hb. repeat split.
  - inversion Hb.
Qed.

(** The two ways [add_expense] returns normally. *)
Lemma add_expense_ok t amt payer l md (w w' : World) :
  add_expense t amt payer l md w = (w', Ret tt) ->
  exists u h1 r,
    Dict.get payer (user_map (mgr w)) = Some u /\
    create_expense t amt u l md (heap w) = (h1, Ret r) /\
    match r with
    | None => w' = mkWorld h1 (mgr w) (stdout w ++ [InvalidExpense])
    | Some e =>
      for_each l (apply_split payer)
        (mkWorld h1 (mkManager (expenses (mgr w) ++ [e]) (user_map (mgr w))
                       (balance_sheet (mgr w))) (stdout w)) = (w', Ret tt)
    end.
Proof.
  unfold add_expense. intros H.
  apply bind_ret_inv in H as (m & w0 & Hg & H). inversion Hg; subst m w0. clear Hg.
  apply bind_ret_inv in H as (u & w0 & Hu & H).
  unfold lift, Dict.subscript in Hu.
  destruct (Dict.get payer (user_map (mgr w))) as [u'|] eqn:Hget; inversion Hu; subst u' w0. clear Hu.
  apply bind_ret_inv in H as (r & w1 & Hc & H).
  unfold on_heap in Hc.
  destruct (create_expense t amt u l md (heap w)) as [h1 o] eqn:Hce.
  inversion Hc; subst w1 o. clear Hc.
  exists u, h1, r. split; [reflexivity|]. split; [exact Hce|].
  destruct r as [e|].
  - apply create_expense_splits in Hce as (Hs & _). rewrite Hs in H.
    apply bind_ret_inv in H as ([] & w2 & Hmod & H). inversion Hmod; subst w2. exact H.
  - inversion H. reflexivity.
Qed.

Lemma orderly_reachable (w : World) : orderly w -> reachable w.
Proof.
  induction 1 as [h out|u w _ IH _|t amt payer l md w w' _ IH Hrun _|uid w _ IH|h w _ IH].
  - constructor.
  - eapply reachable_step; [exact IH|constructor].
  - eapply reachable_step; [exact IH|].
    replace w' with (fst (add_expense t amt payer l md w)) by (rewrite Hrun; reflexivity).
    constructor.
  - eapply reachable_step; [exact IH|constructor].
  - eapply reachable_step; [exact IH|constructor].
Qed.

Lemma add_user_mirror (u : User) (w : World) :
  ledger_shape (mgr w) -> mirror (mgr w) ->
  Dict.get (user_id u) (user_map (mgr w)) = None ->
  mirror (mgr (fst (add_user u w))).
Proof.
  intros [_ Hrows] Hm Hnew.
  assert (Hnorow : Dict.get (user_id u) (balance_sheet (mgr w)) = None).
  { destruct (Dict.get (user_id u) (balance_sheet (mgr w))) as [r|] eqn:Hr; [|reflexivity].
    destruct (Hrows _ _ (get_Some_in _ _ _ Hr)) as [Hreg _]. contradiction. }
  assert (Hent : forall a b, entry (mgr (fst (add_user u w))) a b =
                             if String.eqb (user_id u) a then None else entry (mgr w) a b).
  { intros a b. unfold entry. cbn. rewrite get_set.
    destruct (String.eqb (user_id u) a); reflexivity. }
  intros a b x. rewrite !Hent.
  destruct (String.eqb_spec (user_id u) a) as [Ha|Ha]; [discriminate|].
  intros Hx. destruct (Hm _ _ _ Hx) as [Hba Hnan].
  destruct (String.eqb_spec (user_id u) b) as [Hb|Hb]; [|split; assumption].
  exfalso. subst b. unfold entry in Hba. rewrite Hnorow in Hba. discriminate.
Qed.

Lemma orderly_mirror (w : World) : orderly w -> mirror (mgr w).
Proof.
  induction 1 as [h out|u w Ho IH Hnew|t amt payer l md w w' Ho IH Hrun Hrep|uid w _ IH|h w _ IH].
  - intros a b x H. discriminate.
  - apply add_user_mirror; [apply reachable_shape, orderly_reachable, Ho|exact IH|exact Hnew].
  - apply add_expense_ok in Hrun as (u & h1 & r & _ & _ & Hr).
    destruct r as [e|]; [|subst w'; exact IH].
    pose proof (for_each_apply_split_same _ _ _ _ Hr) as (Hh & _). cbn [heap] in Hh.
    apply for_each_apply_split_mirror in Hr as [Hm _]; [exact Hm|exact IH|].
    cbn [heap]. rewrite <- Hh. exact Hrep.
  - destruct (show_balance_frame uid w) as [-> _]. exact IH.
  - exact IH.
Qed.

Lemma eq_self (x : Decimal) : Dec.is_nan x = false -> Dec.eq x x = Ret true.
Proof.
  destruct x as [c e|[|]|s]; cbn; try discriminate; try reflexivity.
  intros _. unfold Dec.eq. cbn. rewrite Z.compare_refl. reflexivity.
Qed.

Lemma mirror_antisymmetric (m : ExpenseManager) : mirror m -> antisymmetric m.
Proof.
  intros Hm a b x Hx. destruct (Hm _ _ _ Hx) as [Hy Hnan].
  exists (Dec.neg x). split; [exact Hy|]. rewrite neg_involutive. apply eq_self, Hnan.
Qed.

Lemma add_user_returns (u : User) (w : World) : add_user u w = (fst (add_user u w), Ret tt).
Proof. reflexivity. Qed.

Lemma reachable_for_each_add_user (users : list User) :
  forall w, reachable w -> reachable (fst (for_each users add_user w)).
Proof.
  induction users as [|u users IH]; intros w Hw; cbn [for_each].
  - exact Hw.
  - rewrite (bind_ret_eq _ _ _ _ _ (add_user_returns u w)).
    apply IH. eapply reachable_step; [exact Hw|constructor].
Qed.

(** When the factory does not return an expense, the manager's fields
    stay as they are, and the object store is the one the factory left. *)
Lemma add_expense_not_accepted t amt payer l md (w : World) :
  (forall u e, snd (create_expense t amt u l md (heap w)) <> Ret (Some e)) ->
  mgr (fst (add_expense t amt payer l md w)) = mgr w /\
  (forall u, Dict.get payer (user_map (mgr w)) = Some u ->
     heap (fst (add_expense t amt payer l md w)) = fst (create_expense t amt u l md (heap w))) /\
  (Dict.get payer (user_map (mgr w)) = None ->
     heap (fst (add_expense t amt payer l md w)) = heap w).
Proof.
  intros Hno. unfold add_expense, bind, get_mgr, lift, Dict.subscript, on_heap.
  destruct (Dict.get payer (user_map (mgr w))) as [u|].
  - specialize (Hno u).
    destruct (create_expense t amt u l md (heap w)) as [h1 [[e|]|err]] eqn:Hce; cbn in *.
    + exfalso. apply (Hno e). reflexivity.
    + split; [reflexivity|]. split; [|discriminate].
      intros u' Hu'. inversion Hu'; subst u'. rewrite Hce. reflexivity.
    + split; [reflexivity|]. split; [|discriminate].
      intros u' Hu'. inversion Hu'; subst u'. rewrite Hce. reflexivity.
  - split; [reflexivity|]. split; [discriminate|reflexivity].
Qed.

(** *** Splits of the payer with themselves *)

Lemma bump_run (op : Decimal -> Decimal -> outcome Decimal) (a b : string) (x v' : Decimal)
    (w : World) :
  Dict.get a (balance_sheet (mgr w)) <> None ->
  op (current (mgr w) a b) x = Ret v' ->
  exists w', (do _ <- ensure_entry a b; update_entry op a b x) w = (w', Ret tt).
Proof.
  intros Hrow Hop. unfold bind. rewrite ensure_entry_spec. unfold current, entry in Hop.
  destruct (Dict.get a (balance_sheet (mgr w))) as [r|] eqn:Hr; [|congruence].
  unfold Dict.contains.
  destruct (Dict.get b r) as [v|] eqn:Hv.
  - rewrite update_entry_spec, Hr, Hv, Hop. eauto.
  - rewrite update_entry_spec. cbn [mgr with_sheet balance_sheet].
    unfold assign at 1. rewrite Hr, get_set_eq, get_set_eq, Hop. eauto.
Qed.

Lemma apply_split_run (p : string) (a : addr) (o : SplitObj) (v1 v2 : Decimal) (w : World) :
  heap w !! a = Some o ->
  Dict.get p (balance_sheet (mgr w)) <> None ->
  Dict.get (user_id (user o)) (balance_sheet (mgr w)) <> None ->
  Dec.add (current (mgr w) p (user_id (user o))) (amount o) = Ret v1 ->
  Dec.sub (if String.eqb p (user_id (user o)) then v1
           else current (mgr w) (user_id (user o)) p) (amount o) = Ret v2 ->
  exists w', apply_split p a w = (w', Ret tt).
Proof.
  intros Ho Hp Hq Hv1 Hv2. unfold apply_split.
  assert (Hread : on_heap (read a) w = (w, Ret o)) by (rewrite on_heap_read, Ho; reflexivity).
  rewrite (bind_ret_eq _ _ _ _ _ Hread).
  revert Hq Hv1 Hv2. generalize (user_id (user o)) as q, (amount o) as x. intros q x Hq Hv1 Hv2.
  destruct (bump_run Dec.add p q x v1 w Hp Hv1) as [w1 H1].
  pose proof (bump_ok _ _ _ _ _ _ H1) as (v1' & Hv1' & _ & _ & Hent1 & Hrows1).
  assert (v1' = v1) by congruence. subst v1'.
  assert (Hq1 : Dict.get q (balance_sheet (mgr w1)) <> None) by (rewrite Hrows1; exact Hq).
  assert (Hcur : current (mgr w1) q p = if String.eqb p q then v1 else current (mgr w) q p).
  { unfold current. rewrite Hent1.
    destruct (String.eqb_spec p q) as [Hpq|Hpq].
    - rewrite <- Hpq, String.eqb_refl. reflexivity.
    - destruct (String.eqb_spec q p) as [Hqp|_]; [congruence|].
      rewrite andb_false_r. reflexivity. }
  rewrite <- Hcur in Hv2.
  destruct (bump_run Dec.sub q p x v2 w1 Hq1 Hv2) as [w2 H2].
  exists w2.
  rewrite <- bind_assoc. rewrite (bind_ret_eq _ _ _ _ _ H1).
  exact H2.
Qed.

Lemma agree_but_self_refl (p : string) (w : World) : agree_but_self p w w.
Proof. repeat split; tauto. Qed.

(** A split of the payer with themselves touches [balance[p][p]] only. *)
Lemma self_split_agree (p : string) (a : addr) (o : SplitObj) (w w' : World) :
  heap w !! a = Some o -> user_id (user o) = p ->
  apply_split p a w = (w', Ret tt) -> agree_but_self p w' w.
Proof.
  intros Ho Hself H.
  apply apply_split_ok in H as (o' & v1 & v2 & Ho' & _ & _ & (Hh & _) & Hent & Hrows).
  assert (o' = o) by congruence. subst o'. rewrite Hself in Hent.
  split; [exact Hh|]. split; [exact Hrows|].
  intros a0 b0 Hne. rewrite Hent.
  destruct (String.eqb_spec p a0) as [Ha|Ha]; destruct (String.eqb_spec p b0) as [Hb|Hb];
    cbn [andb]; try reflexivity.
  exfalso. destruct Hne; congruence.
Qed.

(** A split with another user does the same in two worlds that agree
    but for [balance[p][p]]. *)
Lemma other_split_agree (p : string) (a : addr) (o : SplitObj) (w1 w1' w2 : World) :
  heap w1 !! a = Some o -> user_id (user o) <> p ->
  agree_but_self p w1 w2 ->
  apply_split p a w1 = (w1', Ret tt) ->
  exists w2', apply_split p a w2 = (w2', Ret tt) /\ agree_but_self p w1' w2'.
Proof.
  intros Ho Hother (Hh & Hr & He) H.
  pose proof (apply_split_ok _ _ _ _ H) as (o' & v1 & v2 & Ho' & Hv1 & Hv2 & (Hh1 & _) & Hent1 & Hrows1).
  assert (o' = o) by congruence. subst o'.
  assert (Hpq : String.eqb p (user_id (user o)) = false)
    by (destruct (String.eqb_spec p (user_id (user o))); congruence).
  rewrite Hpq in Hv2.
  assert (Hc1 : current (mgr w1) p (user_id (user o)) = current (mgr w2) p (user_id (user o)))
    by (unfold current; rewrite He by (right; congruence); reflexivity).
  assert (Hc2 : current (mgr w1) (user_id (user o)) p = current (mgr w2) (user_id (user o)) p)
    by (unfold current; rewrite He by (left; exact Hother); reflexivity).
  assert (Hrows : Dict.get p (balance_sheet (mgr w1)) <> None /\
                  Dict.get (user_id (user o)) (balance_sheet (mgr w1)) <> None).
  { assert (Hread : on_heap (read a) w1 = (w1, Ret o)) by (rewrite on_heap_read, Ho; reflexivity).
    unfold apply_split in H. rewrite (bind_ret_eq _ _ _ _ _ Hread) in H.
    apply bind_ret_inv in H as ([] & wa & Hea & H).
    apply bind_ret_inv in H as ([] & wb & Hub & H).
    assert (B1 : (do _ <- ensure_entry p (user_id (user o));
                  update_entry Dec.add p (user_id (user o)) (amount o)) w1 = (wb, Ret tt))
      by (rewrite (bind_ret_eq _ _ _ _ _ Hea); exact Hub).
    apply bump_ok in B1 as (? & _ & Hp & _ & _ & Hrb).
    apply bump_ok in H as (? & _ & Hq & _). split; [exact Hp|]. rewrite <- Hrb. exact Hq. }
  destruct Hrows as [Hp Hq]. rewrite Hr in Hp, Hq. rewrite Hc1 in Hv1. rewrite Hc2 in Hv2.
  destruct (apply_split_run p a o v1 v2 w2) as [w2' H2]; try assumption; try congruence.
  { rewrite Hpq. exact Hv2. }
  exists w2'. split; [exact H2|].
  apply apply_split_ok in H2 as (o' & v1' & v2' & Ho2 & Hv1' & Hv2' & (Hh2 & _) & Hent2 & Hrows2).
  assert (o' = o) by congruence. subst o'. rewrite Hpq in Hv2'.
  assert (v1' = v1) by congruence. assert (v2' = v2) by congruence. subst v1' v2'.
  split; [congruence|]. split.
  - intros k. rewrite Hrows1, Hrows2. apply Hr.
  - intros a0 b0 Hne. rewrite Hent1, Hent2. rewrite (He a0 b0 Hne). reflexivity.
Qed.

Lemma others_run (p : string) (l : list addr) :
  forall w1 w1' w2,
    agree_but_self p w1 w2 ->
    for_each l (apply_split p) w1 = (w1', Ret tt) ->
    exists w2', for_each (others p (heap w1) l) (apply_split p) w2 = (w2', Ret tt) /\
                agree_but_self p w1' w2'.
Proof.
  induction l as [|a l IH]; intros w1 w1' w2 Hag H; cbn [for_each others List.filter] in *.
  - inversion H; subst. exists w2. split; [reflexivity|exact Hag].
  - apply bind_ret_inv in H as ([] & wa & Ha & Hl).
    pose proof (apply_split_ok _ _ _ _ Ha) as (o & _ & _ & Ho & _ & _ & (Hh & _) & _).
    rewrite Ho.
    destruct (String.eqb_spec p (user_id (user o))) as [Hself|Hother]; cbn [negb].
    + (* the payer's own split is left out on the right *)
      assert (Hag' : agree_but_self p wa w2).
      { destruct (self_split_agree p a o w1 wa Ho (eq_sym Hself) Ha) as (H1 & H2 & H3).
        destruct Hag as (G1 & G2 & G3). split; [congruence|]. split.
        - intros k. rewrite H2. apply G2.
        - intros a0 b0 Hne. rewrite (H3 a0 b0 Hne). apply G3, Hne. }
      destruct (IH wa w1' w2 Hag' Hl) as (w2' & Hrun & Hfin).
      exists w2'. split; [|exact Hfin]. unfold others in Hrun. rewrite Hh in Hrun. exact Hrun.
    + destruct (other_split_agree p a o w1 wa w2 Ho ltac:(congruence) Hag Ha) as (wb & Hb & Hag').
      destruct (IH wa w1' wb Hag' Hl) as (w2' & Hrun & Hfin).
      exists w2'. split; [|exact Hfin]. cbn [for_each].
      rewrite (bind_ret_eq _ _ _ _ _ Hb). unfold others in Hrun. rewrite Hh in Hrun. exact Hrun.
Qed.

Lemma eq_zero (e : Z) : Dec.eq (Dec.Fin 0 e) (Dec.of_int 0) = Ret true.
Proof. unfold Dec.eq. cbn. reflexivity. Qed.

(** *** The global query *)

Lemma emit_nil (w : World) : emit w [] = w.
Proof. destruct w as [h m out]. unfold emit. cbn. rewrite app_nil_r. reflexivity. Qed.

Lemma emit_emit (w : World) (l1 l2 : list Line) : emit (emit w l1) l2 = emit w (l1 ++ l2).
Proof. unfold emit. cbn. rewrite <- app_assoc. reflexivity. Qed.

Lemma positive_gt (x : Decimal) :
  Dec.is_nan x = false -> Dec.gt x (Dec.of_int 0) = Ret (positive x).
Proof.
  intros Hx. unfold positive. destruct (DecFacts.gt_zero_total x Hx) as [b ->]. reflexivity.
Qed.

Lemma print_positive (w : World) (a b : string) (x : Decimal) :
  printable (mgr w) (a, b, x) -> positive x = true ->
  _print_balance a b x w = (emit w [owes_line (mgr w) (a, b, x)], Ret tt).
Proof.
  intros (Ha & Hb & Hnan & Hres) Hpos.
  pose proof (positive_gt x Hnan) as Hgt. rewrite Hpos in Hgt.
  destruct (DecFacts.positive_balance x Hres Hgt) as [Hlt Habs].
  unfold _print_balance, owes_line, name_of, bind, get_mgr, lift, Dict.subscript.
  destruct (Dict.get a (user_map (mgr w))) as [ua|]; [|congruence].
  destruct (Dict.get b (user_map (mgr w))) as [ub|]; [|congruence].
  rewrite Hlt, Hgt, Habs. reflexivity.
Qed.

Lemma show_items_global (a : string) (items : dict Decimal) :
  forall (is_empty : bool) (w : World),
    Forall (printable (mgr w)) (row_entries a items) ->
    show_items (fun x => Dec.gt x (Dec.of_int 0)) a items is_empty w =
    (emit w (map (owes_line (mgr w)) (List.filter is_positive_entry (row_entries a items))),
     Ret (is_empty && is_nil (List.filter is_positive_entry (row_entries a items)))).
Proof.
  induction items as [|[b x] rest IH]; intros is_empty w Hgood; cbn [show_items].
  - cbn. rewrite emit_nil, andb_true_r. reflexivity.
  - cbn [row_entries map] in Hgood. apply Forall_cons_iff in Hgood as [Hx Hrest].
    pose proof Hx as (_ & _ & Hnan & _).
    unfold bind at 1, lift at 1. rewrite (positive_gt x Hnan).
    cbn [row_entries map List.filter is_positive_entry].
    destruct (positive x) eqn:Hpos.
    + rewrite (bind_ret_eq _ _ _ _ _ (print_positive w a b x Hx Hpos)).
      rewrite (IH false (emit w [owes_line (mgr w) (a, b, x)]) Hrest).
      rewrite emit_emit. cbn. rewrite andb_false_r. reflexivity.
    + apply IH, Hrest.
Qed.

Lemma is_nil_app {A} (l1 l2 : list A) : is_nil (l1 ++ l2) = (is_nil l1 && is_nil l2)%bool.
Proof. destruct l1; reflexivity. Qed.

Lemma show_rows_global (rows : dict (dict Decimal)) :
  forall (is_empty : bool) (w : World),
    Forall (printable (mgr w)) (flat_map (fun '(a, r) => row_entries a r) rows) ->
    show_rows rows is_empty w =
    (emit w (map (owes_line (mgr w))
               (List.filter is_positive_entry (flat_map (fun '(a, r) => row_entries a r) rows))),
     Ret (is_empty &&
          is_nil (List.filter is_positive_entry (flat_map (fun '(a, r) => row_entries a r) rows)))).
Proof.
  induction rows as [|[a r] rest IH]; intros is_empty w Hgood; cbn [show_rows].
  - cbn. rewrite emit_nil, andb_true_r. reflexivity.
  - cbn [flat_map] in *. apply Forall_app in Hgood as [Hrow Hrest].
    rewrite (bind_ret_eq _ _ _ _ _ (show_items_global a r is_empty w Hrow)).
    rewrite (IH _ (emit w _) Hrest).
    rewrite emit_emit, List.filter_app, map_app, is_nil_app, andb_assoc. reflexivity.
Qed.

(** Every entry of the table is found by its two keys. *)
Lemma all_entries_entry (m : ExpenseManager) (a b : string) (x : Decimal) :
  ledger_shape m -> (In (a, b, x) (all_entries m) <-> entry m a b = Some x).
Proof.
  intros [Hnd Hrows]. unfold all_entries, entry. rewrite in_flat_map. split.
  - intros ([a' r] & Hin & Hx). apply in_map_iff in Hx as ([b' x'] & Heq & Hbx).
    inversion Heq; subst. rewrite (in_get _ _ _ Hnd Hin).
    destruct (Hrows _ _ Hin) as (_ & Hndr & _). apply (in_get _ _ _ Hndr Hbx).
  - destruct (Dict.get a (balance_sheet m)) as [r|] eqn:Hr; [|discriminate].
    intros Hx. exists (a, r). split; [apply get_Some_in, Hr|].
    apply in_map_iff. exists (b, x). split; [reflexivity|apply get_Some_in, Hx].
Qed.

Lemma all_entries_printable (m : ExpenseManager) :
  ledger_shape m -> antisymmetric m -> Forall (printable m) (all_entries m).
Proof.
  intros Hshape Hanti. apply List.Forall_forall. intros [[a b] x] Hin.
  pose proof (proj1 (all_entries_entry m a b x Hshape) Hin) as Hab.
  destruct (Hanti a b x Hab) as (y & Hba & Heq).
  destruct Hshape as [Hnd Hrows]. unfold entry in Hab, Hba.
  destruct (Dict.get a (balance_sheet m)) as [ra|] eqn:Hra; [|discriminate].
  destruct (Dict.get b (balance_sheet m)) as [rb|] eqn:Hrb; [|discriminate].
  destruct (Hrows _ _ (get_Some_in _ _ _ Hra)) as (Hrega & _ & Hvals).
  destruct (Hrows _ _ (get_Some_in _ _ _ Hrb)) as (Hregb & _ & _).
  repeat split; try assumption.
  - eapply DecFacts.eq_not_nan, Heq.
  - apply (Hvals b x). apply get_Some_in, Hab.
Qed.

(** No pair of users occurs twice among the entries. *)
Lemma NoDup_all_entries (m : ExpenseManager) :
  ledger_shape m -> List.NoDup (map pair_of (all_entries m)).
Proof.
  intros [Hnd Hrows]. unfold all_entries. revert Hnd Hrows.
  induction (balance_sheet m) as [|[a r] rest IH]; intros Hnd Hrows; cbn [flat_map].
  - constructor.
  - cbn [map fst] in Hnd. apply NoDup_cons_iff in Hnd as [Hnotin Hnd].
    rewrite map_app. apply List.NoDup_app.
    + destruct (Hrows a r (or_introl eq_refl)) as (_ & Hndr & _).
      unfold row_entries. rewrite map_map.
      replace (map (fun x => pair_of (let '(b, x0) := x in (a, b, x0))) r)
        with (map (fun b => (a, b)) (map fst r)).
      * apply List.NoDup_map_inv with (f := snd). rewrite map_map. cbn.
        rewrite map_id. exact Hndr.
      * rewrite map_map. apply map_ext. intros [b x]. reflexivity.
    + apply IH; [exact Hnd|]. intros k r' Hin. apply Hrows. right. exact Hin.
    + intros [a' b'] H1 H2.
      apply in_map_iff in H1 as ([[a1 b1] x1] & Heq1 & Hin1). inversion Heq1; subst.
      apply in_map_iff in Hin1 as ([b0 x0] & Heq0 & _). inversion Heq0; subst.
      apply in_map_iff in H2 as ([[a2 b2] x2] & Heq2 & Hin2). inversion Heq2; subst.
      apply in_flat_map in Hin2 as ([a3 r3] & Hin3 & Hin4).
      apply in_map_iff in Hin4 as ([b4 x4] & Heq4 & _). inversion Heq4; subst.
      apply Hnotin. change a' with (fst (a', r3)). apply in_map, Hin3.
Qed.

Lemma NoDup_map_filter {A B} (f : A -> B) (p : A -> bool) (l : list A) :
  List.NoDup (map f l) -> List.NoDup (map f (List.filter p l)).
Proof.
  induction l as [|x l IH]; cbn; [intros H; exact H|].
  intros H. apply NoDup_cons_iff in H as [Hnotin Hnd].
  destruct (p x); cbn; [|apply IH, Hnd].
  constructor; [|apply IH, Hnd].
  intros Hin. apply Hnotin. apply in_map_iff in Hin as (y & Hy & Hiny).
  apply filter_In in Hiny as [Hiny _]. rewrite <- Hy. apply in_map, Hiny.
Qed.

Lemma orderly_reregistration_1 : orderly Scenario.reregistration_1.
Proof.
  apply (orderly_add_expense (Member EXACT) (Dec.Fin 10 0) "u1"%string [0%nat] None
           Scenario.reregistration_0).
  - apply (orderly_add_user Scenario.u2 (fst (add_user Scenario.u1
             (mkWorld [Scenario.exact Scenario.u2 10 0; Scenario.exact Scenario.u2 5 0] init [])))).
    + apply (orderly_add_user Scenario.u1). constructor. reflexivity.
    + reflexivity.
  - reflexivity.
  - intros a [<-|[]]. exists (Scenario.exact Scenario.u2 10 0). split; reflexivity.
Qed.

End LedgerFacts.

(** ** Facts about the factory *)

Module FactoryFacts.
Import MonadFacts.

Lemma read_at (h : Heap) (a : addr) (o : SplitObj) : h !! a = Some o -> read a h = (h, Ret o).
Proof. unfold read. intros ->. reflexivity. Qed.

(** [all(...)] reads the objects and changes nothing. *)
Lemma all_splits_spec (test : SplitObj -> bool) (h : Heap) (l : list addr) (objs : list SplitObj) :
  objects_at h l objs -> all_splits test l h = (h, Ret (forallb test objs)).
Proof.
  induction 1 as [|a o l objs Ha _ IH]; cbn [all_splits forallb]; [reflexivity|].
  rewrite (bind_ret_eq _ _ _ _ _ (read_at _ _ _ Ha)).
  destruct (test o); [exact IH|reflexivity].
Qed.

(** [sum(...)] reads the objects and changes nothing. *)
Lemma sum_from_spec (f : SplitObj -> outcome Decimal) (h : Heap) (l : list addr)
    (objs : list SplitObj) :
  objects_at h l objs -> forall acc, sum_from acc f l h = (h, sum_of acc f objs).
Proof.
  induction 1 as [|a o l objs Ha _ IH]; intros acc; cbn [sum_from sum_of]; [reflexivity|].
  rewrite (bind_ret_eq _ _ _ _ _ (read_at _ _ _ Ha)).
  unfold bind at 1, lift at 1. destruct (f o) as [x|e]; [|reflexivity]. cbn [obind].
  unfold bind at 1, lift at 1. destruct (Dec.add acc x) as [acc'|e]; [|reflexivity]. cbn [obind].
  apply IH.
Qed.

Lemma forallb_exact (objs : list SplitObj) :
  forallb isinstance_ExactSplit objs = true <-> Forall (fun o => cls o = ExactSplit) objs.
Proof.
  rewrite forallb_forall, List.Forall_forall. unfold isinstance_ExactSplit.
  split; intros H o Ho; specialize (H o Ho); destruct (cls o); congruence.
Qed.

(** The result of the factory for an EXACT expense. *)
Lemma create_exact_spec amt u (l : list addr) md (h : Heap) (objs : list SplitObj) :
  objects_at h l objs ->
  create_expense (Member EXACT) amt u l md h =
  (h, if forallb isinstance_ExactSplit objs
      then obind (sum_of (Dec.of_int 0) get_amount objs) (fun total =>
           obind (within_tolerance total amt) (fun ok =>
           Ret (if ok then Some (mkExpense ExactExpense amt u l md None) else None)))
      else Ret None).
Proof.
  intros Hobjs. unfold create_expense. cbn [build_expense].
  unfold bind at 1, ret at 1. unfold validate. cbn [expense_cls splits expense_amount].
  unfold bind at 1. rewrite (bind_ret_eq _ _ _ _ _ (all_splits_spec _ _ _ _ Hobjs)).
  destruct (forallb isinstance_ExactSplit objs); cbn [negb]; [|reflexivity].
  unfold sum_splits. unfold bind at 1. rewrite (sum_from_spec _ _ _ _ Hobjs).
  destruct (sum_of (Dec.of_int 0) get_amount objs) as [total|e]; [|reflexivity]. cbn [obind].
  unfold lift. destruct (within_tolerance total amt) as [[|]|e]; reflexivity.
Qed.

(** *** The PERCENT loop *)

Lemma set_amount_spec (h : Heap) (a : addr) (o : SplitObj) (x : Decimal) :
  h !! a = Some o ->
  set_amount a x h = (<[a := mkSplit (cls o) (user o) x]> h, Ret tt).
Proof. unfold set_amount. intros ->. reflexivity. Qed.

Lemma assign_percent_share_spec (amt : Decimal) (h : Heap) (a : addr) (o : SplitObj) :
  h !! a = Some o ->
  assign_percent_share amt a h =
  match cls o with
  | PercentSplit p =>
    match percent_share amt p with
    | Ret y => (<[a := mkSplit (cls o) (user o) y]> h, Ret tt)
    | Raise e => (h, Raise e)
    end
  | _ => (h, Ret tt)
  end.
Proof.
  intros Ha. unfold assign_percent_share.
  rewrite (bind_ret_eq _ _ _ _ _ (read_at _ _ _ Ha)).
  destruct (cls o) as [| | |p] eqn:Hc; try reflexivity.
  unfold percent_share, bind, lift.
  destruct (Dec.mul amt p) as [x|e]; [|reflexivity]. cbn [obind].
  destruct (Dec.div x hundred) as [y|e]; [|reflexivity].
  rewrite (set_amount_spec _ _ _ _ Ha), Hc. reflexivity.
Qed.

Lemma same_identities_refl (h : Heap) : same_identities h h.
Proof. intros a o Ha. eauto. Qed.

Lemma same_identities_trans (h1 h2 h3 : Heap) :
  same_identities h1 h2 -> same_identities h2 h3 -> same_identities h1 h3.
Proof.
  intros H12 H23 a o Ha. destruct (H12 _ _ Ha) as (o2 & Ha2 & Hc2 & Hu2).
  destruct (H23 _ _ Ha2) as (o3 & Ha3 & Hc3 & Hu3). exists o3. repeat split; congruence.
Qed.

Lemma same_identities_insert (h : Heap) (a : addr) (o : SplitObj) (x : Decimal) :
  h !! a = Some o -> same_identities h (<[a := mkSplit (cls o) (user o) x]> h).
Proof.
  intros Ha b ob Hb. destruct (Nat.eq_dec a b) as [<-|Hne].
  - rewrite list_lookup_insert_eq by (eapply lookup_lt_Some; exact Ha).
    eexists. split; [reflexivity|]. cbn. split; congruence.
  - rewrite list_lookup_insert_ne by exact Hne. eauto.
Qed.

Lemma objects_follow (h h' : Heap) (l : list addr) (objs : list SplitObj) :
  same_identities h h' -> objects_at h l objs ->
  exists objs', objects_at h' l objs' /\ map cls objs' = map cls objs.
Proof.
  intros Hid. induction 1 as [|a o l objs Ha _ (objs' & Hobjs' & Hcls)].
  - exists []. split; [constructor|reflexivity].
  - destruct (Hid _ _ Ha) as (o' & Ha' & Hc & _).
    exists (o' :: objs'). split; [constructor; assumption|]. cbn. congruence.
Qed.

Lemma forallb_percent_cls (objs objs' : list SplitObj) :
  map cls objs' = map cls objs ->
  forallb isinstance_PercentSplit objs' = forallb isinstance_PercentSplit objs.
Proof.
  revert objs'. induction objs as [|o objs IH]; intros [|o' objs'] H; try discriminate; [reflexivity|].
  cbn in *. inversion H. unfold isinstance_PercentSplit at 1 3.
  rewrite (IH objs') by assumption. rewrite H1. reflexivity.
Qed.

Lemma sum_of_percent_cls (objs objs' : list SplitObj) :
  map cls objs' = map cls objs ->
  forall acc, sum_of acc get_percent objs' = sum_of acc get_percent objs.
Proof.
  revert objs'. induction objs as [|o objs IH]; intros [|o' objs'] H acc; try discriminate; [reflexivity|].
  cbn in *. inversion H. unfold get_percent at 1 3. replace (cls o') with (cls o) by congruence.
  destruct (match cls o with PercentSplit p => Ret p | _ => Raise BadReference end); [|reflexivity].
  cbn. destruct (Dec.add acc a); [|reflexivity]. cbn. apply IH. assumption.
Qed.

Lemma shares_computable_cls (amt : Decimal) (objs objs' : list SplitObj) :
  map cls objs' = map cls objs -> shares_computable amt objs -> shares_computable amt objs'.
Proof.
  intros Hcls H o' p Hin Hc.
  assert (In (cls o') (map cls objs)) as Hin' by (rewrite <- Hcls; apply in_map, Hin).
  apply in_map_iff in Hin' as (o & Ho & Hino). apply (H o p Hino). congruence.
Qed.

(** The loop assigns [(amount * percent) / 100] to every percent split of
    the list, leaves every other object alone, and stops at the first
    share that cannot be computed. *)
Lemma percent_loop (amt : Decimal) (l : list addr) :
  forall (h : Heap) (objs : list SplitObj),
    objects_at h l objs ->
    exists h' r,
      for_each l (assign_percent_share amt) h = (h', r) /\
      same_identities h h' /\
      (r = Ret tt <-> shares_computable amt objs) /\
      (r = Ret tt -> forall a o, h !! a = Some o ->
         exists o', h' !! a = Some o' /\
           (In a l -> forall p, cls o = PercentSplit p -> percent_share amt p = Ret (amount o')) /\
           (~ In a l -> amount o' = amount o) /\
           ((forall p, cls o <> PercentSplit p) -> amount o' = amount o)).
Proof.
  induction l as [|a0 l IH]; intros h objs Hobjs.
  - inversion Hobjs; subst. exists h, (Ret tt). split; [reflexivity|].
    split; [apply same_identities_refl|]. split.
    + split; [intros _ ? ? []|reflexivity].
    + intros _ a o Ha. exists o. split; [exact Ha|]. split; [intros []|]. split; reflexivity.
  - inversion Hobjs as [|? o0 ? objs0 Ha0 Hrest]; subst. cbn [for_each].
    pose proof (assign_percent_share_spec amt h a0 o0 Ha0) as Hstep.
    (* the store after the first split *)
    assert (Hcases :
      (exists p y, cls o0 = PercentSplit p /\ percent_share amt p = Ret y /\
         assign_percent_share amt a0 h = (<[a0 := mkSplit (cls o0) (user o0) y]> h, Ret tt)) \/
      ((forall p, cls o0 <> PercentSplit p) /\ assign_percent_share amt a0 h = (h, Ret tt)) \/
      (exists p e, cls o0 = PercentSplit p /\ percent_share amt p = Raise e /\
         assign_percent_share amt a0 h = (h, Raise e))).
    { destruct (cls o0) as [| | |p] eqn:Hc.
      - right. left. split; [discriminate|exact Hstep].
      - right. left. split; [discriminate|exact Hstep].
      - right. left. split; [discriminate|exact Hstep].
      - destruct (percent_share amt p) as [y|e] eqn:Hy.
        + left. exists p, y. repeat split; assumption.
        + right. right. exists p, e. repeat split; assumption. }
    destruct Hcases as [(p & y & Hc & Hy & Hrun)|[(Hnp & Hrun)|(p & e & Hc & Hy & Hrun)]].
    + (* a percent split: its amount is assigned *)
      set (h1 := <[a0 := mkSplit (cls o0) (user o0) y]> h) in *.
      pose proof (same_identities_insert h a0 o0 y Ha0) as Hid1. fold h1 in Hid1.
      destruct (objects_follow _ _ _ _ Hid1 Hrest) as (objs1 & Hobjs1 & Hcls1).
      destruct (IH h1 objs1 Hobjs1) as (h' & r & Hloop & Hid & Hiff & Hamounts).
      exists h', r. rewrite (bind_ret_eq _ _ _ _ _ Hrun). split; [exact Hloop|].
      split; [eapply same_identities_trans; eassumption|]. split.
      * rewrite Hiff. split.
        -- intros H o q [<-|Hin] Hq.
           ++ exists y. congruence.
           ++ exact (shares_computable_cls amt objs1 objs0 (eq_sym Hcls1) H o q Hin Hq).
        -- intros H. apply (shares_computable_cls amt objs0 objs1 Hcls1).
           intros o q Hin. apply H. right. exact Hin.
      * intros Hr a o Ha.
        destruct (Nat.eq_dec a0 a) as [<-|Hne].
        -- assert (o = o0) by congruence. subst o.
           assert (Ha1 : h1 !! a0 = Some (mkSplit (cls o0) (user o0) y)).
           { unfold h1. apply list_lookup_insert_eq. eapply lookup_lt_Some; exact Ha0. }
           destruct (Hamounts Hr _ _ Ha1) as (o' & Ho' & Hin' & Hout' & Hother').
           exists o'. split; [exact Ho'|]. cbn in *. split; [|split].
           ++ intros _ q Hq. destruct (in_dec Nat.eq_dec a0 l) as [Hin|Hnin].
              ** apply Hin'; assumption.
              ** rewrite (Hout' Hnin). congruence.
           ++ intros Hnin. exfalso. apply Hnin. left. reflexivity.
           ++ intros Hnq. exfalso. apply (Hnq p Hc).
        -- assert (Ha1 : h1 !! a = Some o).
           { unfold h1. rewrite list_lookup_insert_ne by exact Hne. exact Ha. }
           destruct (Hamounts Hr _ _ Ha1) as (o' & Ho' & Hin' & Hout' & Hother').
           exists o'. split; [exact Ho'|]. split; [|split].
           ++ intros [Heq|Hin]; [contradiction|apply Hin', Hin].
           ++ intros Hnin. apply Hout'. intros Hin. apply Hnin. right. exact Hin.
           ++ exact Hother'.
    + (* any other split: nothing is assigned *)
      destruct (IH h objs0 Hrest) as (h' & r & Hloop & Hid & Hiff & Hamounts).
      exists h', r. rewrite (bind_ret_eq _ _ _ _ _ Hrun). split; [exact Hloop|].
      split; [exact Hid|]. split.
      * rewrite Hiff. split.
        -- intros H o q [<-|Hin] Hq; [exfalso; apply (Hnp q Hq)|apply (H o q Hin Hq)].
        -- intros H o q Hin. apply H. right. exact Hin.
      * intros Hr a o Ha. destruct (Hamounts Hr _ _ Ha) as (o' & Ho' & Hin' & Hout' & Hother').
        exists o'. split; [exact Ho'|]. split; [|split].
        -- intros [<-|Hin] q Hq; [|apply Hin'; assumption].
           exfalso. assert (o = o0) by congruence. subst o. apply (Hnp q Hq).
        -- intros Hnin. apply Hout'. intros Hin. apply Hnin. right. exact Hin.
        -- exact Hother'.
    + (* the share cannot be computed: the exception leaves the loop *)
      exists h, (Raise e). rewrite (bind_raise_eq _ _ _ _ _ Hrun). split; [reflexivity|].
      split; [apply same_identities_refl|]. split; [|discriminate].
      split; [discriminate|].
      intros H. destruct (H o0 p (or_introl eq_refl) Hc) as [y' Hy']. congruence.
Qed.

Lemma forallb_percent (objs : list SplitObj) :
  forallb isinstance_PercentSplit objs = true <->
  Forall (fun o => exists p, cls o = PercentSplit p) objs.
Proof.
  rewrite forallb_forall, List.Forall_forall. unfold isinstance_PercentSplit.
  split; intros H o Ho; specialize (H o Ho).
  - destruct (cls o) as [| | |p]; try discriminate. eauto.
  - destruct H as [p ->]. reflexivity.
Qed.

(** The result of the factory for a PERCENT expense, once the loop has
    run: validation reads the classes and the percents, which the loop
    does not change. *)
Lemma create_percent_spec amt u (l : list addr) md (h h' : Heap) (objs : list SplitObj)
    (r0 : outcome unit) :
  objects_at h l objs ->
  for_each l (assign_percent_share amt) h = (h', r0) ->
  same_identities h h' ->
  create_expense (Member PERCENT) amt u l md h =
  (h', match r0 with
       | Raise e => Raise e
       | Ret _ =>
         if forallb isinstance_PercentSplit objs
         then obind (sum_of (Dec.of_int 0) get_percent objs) (fun total =>
              obind (within_tolerance total hundred) (fun ok =>
              Ret (if ok then Some (mkExpense PercentExpense amt u l md None) else None)))
         else Ret None
       end).
Proof.
  intros Hobjs Hloop Hid. unfold create_expense. cbn [build_expense].
  unfold bind at 1. unfold bind at 1. rewrite Hloop.
  destruct r0 as [[]|e]; [|reflexivity]. cbn [ret].
  destruct (objects_follow _ _ _ _ Hid Hobjs) as (objs' & Hobjs' & Hcls).
  unfold validate. cbn [expense_cls splits expense_amount].
  unfold bind at 1. rewrite (bind_ret_eq _ _ _ _ _ (all_splits_spec _ _ _ _ Hobjs')).
  rewrite (forallb_percent_cls _ _ Hcls).
  destruct (forallb isinstance_PercentSplit objs); cbn [negb]; [|reflexivity].
  unfold sum_splits. unfold bind at 1. rewrite (sum_from_spec _ _ _ _ Hobjs').
  rewrite (sum_of_percent_cls _ _ Hcls).
  destruct (sum_of (Dec.of_int 0) get_percent objs) as [total|e]; [|reflexivity]. cbn [obind].
  unfold lift. destruct (within_tolerance total hundred) as [[|]|e]; reflexivity.
Qed.

(** *** The payer plays no part in the factory *)

Lemma build_expense_any_payer t amt u u' (l : list addr) md (h : Heap) :
  build_expense t amt u' l md h =
  (fst (build_expense t amt u l md h),
   match snd (build_expense t amt u l md h) with
   | Ret (Some e) => Ret (Some (with_payer u' e))
   | r => r
   end).
Proof.
  destruct t as [[| |]|]; cbn [build_expense]; try reflexivity.
  - unfold bind, lift.
    destruct (equal_share amt (Z.of_nat (length l))) as [x|e]; [|reflexivity].
    destruct (for_each l (fun a => set_amount a x) h) as [h2 [[]|e]]; [|reflexivity].
    destruct (absorb_remainder amt x (Z.of_nat (length l)) l h2) as [h3 [[]|e]]; reflexivity.
  - unfold bind. destruct (for_each l (assign_percent_share amt) h) as [h1 [[]|e]]; reflexivity.
Qed.

Lemma validate_any_payer (u' : User) (e : Expense) (h : Heap) :
  validate (with_payer u' e) h = validate e h.
Proof. reflexivity. Qed.

Lemma create_expense_any_payer t amt u u' (l : list addr) md (h : Heap) :
  create_expense t amt u' l md h =
  (fst (create_expense t amt u l md h),
   match snd (create_expense t amt u l md h) with
   | Ret (Some e) => Ret (Some (with_payer u' e))
   | r => r
   end).
Proof.
  unfold create_expense, bind. rewrite (build_expense_any_payer t amt u u').
  destruct (build_expense t amt u l md h) as [h1 [[e|]|err]]; cbn [fst snd]; try reflexivity.
  rewrite validate_any_payer. destruct (validate e h1) as [h2 [[|]|err]]; reflexivity.
Qed.

(** *** The exceptions of the EQUAL branch *)

Lemma read_raises (a : addr) : raises_only (fun e => e = BadReference) (read a).
Proof. intros h h' e. unfold read. destruct (h !! a); intros H; inversion H. reflexivity. Qed.

Lemma set_amount_raises (a : addr) (x : Decimal) :
  raises_only (fun e => e = BadReference) (set_amount a x).
Proof. intros h h' e. unfold set_amount. destruct (h !! a); intros H; inversion H. reflexivity. Qed.

Lemma raises_only_weaken {S A} (P Q : exn -> Prop) (m : M S A) :
  (forall e, P e -> Q e) -> raises_only P m -> raises_only Q m.
Proof. intros HPQ Hm s s' e H. apply HPQ. eapply Hm, H. Qed.

Lemma safe_BadReference : forall e, e = BadReference -> not_zero_division_nor_index e.
Proof. intros e ->. split; discriminate. Qed.

Lemma safe_arith : forall e, e = Overflow \/ e = InvalidOperation -> not_zero_division_nor_index e.
Proof. intros e [->| ->]; split; discriminate. Qed.

Lemma equal_share_raises (amt : Decimal) (n : Z) (e : exn) :
  n <> 0%Z -> equal_share amt n = Raise e -> not_zero_division_nor_index e.
Proof.
  intros Hn. unfold equal_share.
  destruct (Dec.mul amt hundred) as [t|e1] eqn:Hmul; cbn [obind].
  2:{ intros H. inversion H; subst. apply safe_arith. eapply DecFacts.mul_raises, Hmul. }
  destruct (Dec.div t (Dec.of_int n)) as [q|e1] eqn:Hdiv; cbn [obind].
  2:{ intros H. inversion H; subst.
      rewrite (DecFacts.div_by_nonzero_raises t n e Hn (DecFacts.mul_result _ _ _ Hmul) Hdiv).
      split; discriminate. }
  destruct (Dec.round q) as [r|e1] eqn:Hround; cbn [obind].
  2:{ intros H. inversion H; subst.
      destruct (DecFacts.round_raises _ _ Hround) as [-> | ->]; split; discriminate. }
  intros Hd. change hundred with (Dec.of_int 100) in Hd.
  rewrite (DecFacts.div_by_nonzero_raises (Dec.of_int r) 100%Z e ltac:(lia) ltac:(discriminate) Hd).
  split; discriminate.
Qed.

Lemma absorb_remainder_raises (amt x : Decimal) (n : Z) (a0 : addr) (l : list addr) :
  raises_only not_zero_division_nor_index (absorb_remainder amt x n (a0 :: l)).
Proof.
  unfold absorb_remainder.
  apply raises_only_bind;
    [eapply raises_only_weaken; [apply safe_BadReference|apply read_raises]|intros o].
  apply raises_only_bind;
    [apply raises_only_lift; intros e He; apply safe_arith; eapply DecFacts.mul_raises, He|intros p].
  apply raises_only_bind;
    [apply raises_only_lift; intros e He; apply safe_arith; eapply DecFacts.sub_raises, He|intros r].
  apply raises_only_bind;
    [apply raises_only_lift; intros e He; apply safe_arith; eapply DecFacts.add_raises, He|intros y].
  eapply raises_only_weaken; [apply safe_BadReference|apply set_amount_raises].
Qed.

Lemma all_splits_raises (test : SplitObj -> bool) (l : list addr) :
  raises_only (fun e => e = BadReference) (all_splits test l).
Proof.
  induction l as [|a l IH]; cbn [all_splits].
  - apply raises_only_ret.
  - apply raises_only_bind; [apply read_raises|intros o].
    destruct (test o); [exact IH|apply raises_only_ret].
Qed.

Lemma sum_from_raises (f : SplitObj -> outcome Decimal) (l : list addr) :
  (forall o e, f o = Raise e -> not_zero_division_nor_index e) ->
  forall acc, raises_only not_zero_division_nor_index (sum_from acc f l).
Proof.
  intros Hf. induction l as [|a l IH]; intros acc; cbn [sum_from].
  - apply raises_only_ret.
  - apply raises_only_bind;
      [eapply raises_only_weaken; [apply safe_BadReference|apply read_raises]|intros o].
    apply raises_only_bind; [apply raises_only_lift; apply Hf|intros x].
    apply raises_only_bind;
      [apply raises_only_lift; intros e He; apply safe_arith; eapply DecFacts.add_raises, He|].
    intros acc'. apply IH.
Qed.

Lemma within_tolerance_raises (total target : Decimal) (e : exn) :
  within_tolerance total target = Raise e -> not_zero_division_nor_index e.
Proof.
  unfold within_tolerance.
  destruct (Dec.sub total target) as [d|e1] eqn:Hsub; cbn [obind].
  2:{ intros H. inversion H; subst. apply safe_arith. eapply DecFacts.sub_raises, Hsub. }
  destruct (Dec.abs d) as [a|e1] eqn:Habs; cbn [obind].
  2:{ intros H. inversion H; subst. apply safe_arith. eapply DecFacts.abs_raises, Habs. }
  intros H. apply DecFacts.lt_raises in H. subst. split; discriminate.
Qed.

Lemma validate_raises (e : Expense) : raises_only not_zero_division_nor_index (validate e).
Proof.
  unfold validate. destruct (expense_cls e).
  - eapply raises_only_weaken; [apply safe_BadReference|apply all_splits_raises].
  - apply raises_only_bind;
      [eapply raises_only_weaken; [apply safe_BadReference|apply all_splits_raises]|intros ok].
    destruct (negb ok); [apply raises_only_ret|].
    apply raises_only_bind.
    + apply sum_from_raises. intros o x H. discriminate.
    + intros total. apply raises_only_lift. apply within_tolerance_raises.
  - apply raises_only_bind;
      [eapply raises_only_weaken; [apply safe_BadReference|apply all_splits_raises]|intros ok].
    destruct (negb ok); [apply raises_only_ret|].
    apply raises_only_bind.
    + apply sum_from_raises. intros o x. unfold get_percent.
      destruct (cls o); intros H; inversion H; split; discriminate.
    + intros total. apply raises_only_lift. apply within_tolerance_raises.
Qed.

(** With at least one split, the EQUAL computation raises neither a
    division by zero nor an index error. *)
Lemma create_equal_raises amt u (a0 : addr) (l : list addr) md :
  raises_only not_zero_division_nor_index (create_expense (Member EQUAL) amt u (a0 :: l) md).
Proof.
  unfold create_expense. apply raises_only_bind.
  - cbn [build_expense].
    apply raises_only_bind.
    { apply raises_only_lift. intros e. apply equal_share_raises.
      rewrite length_cons. lia. }
    intros x. apply raises_only_bind.
    { apply raises_only_for_each. intros a.
      eapply raises_only_weaken; [apply safe_BadReference|apply set_amount_raises]. }
    intros _. apply raises_only_bind; [apply absorb_remainder_raises|intros _].
    apply raises_only_ret.
  - intros [e|]; [|apply raises_only_ret].
    apply raises_only_bind; [apply validate_raises|intros ok; apply raises_only_ret].
Qed.

(** The exception of the base share among no participants, by the
    result of [amount * Decimal('100')]. *)
Lemma equal_share_zero_cases (amt : Decimal) :
  exists e, equal_share amt 0 = Raise e /\
    e <> IndexError /\
    (forall ct et, Dec.mul amt hundred = Ret (Dec.Fin ct et) ->
       e = if (ct =? 0)%Z then InvalidOperation else DivisionByZero) /\
    (forall s, Dec.mul amt hundred = Ret (Dec.Inf s) -> e = OverflowError) /\
    (forall s, Dec.mul amt hundred = Ret (Dec.NaN s) -> e = ValueError) /\
    (forall e', Dec.mul amt hundred = Raise e' ->
       e = e' /\ (e' = Overflow \/ e' = InvalidOperation)).
Proof.
  unfold equal_share.
  destruct (Dec.mul amt hundred) as [t|e1] eqn:Hmul; cbn [obind].
  - destruct t as [ct et|s|[|]].
    + unfold Dec.div, Dec.of_int. cbn [Dec.check_nans Z.eqb].
      exists (if (ct =? 0)%Z then InvalidOperation else DivisionByZero).
      split; [destruct (ct =? 0)%Z; reflexivity|].
      split; [destruct (ct =? 0)%Z; discriminate|].
      split; [intros ct' et' H; injection H as <- _; reflexivity|].
      split; [intros s H; discriminate H|].
      split; [intros s H; discriminate H|intros e' H; discriminate H].
    + exists OverflowError. split; [reflexivity|]. split; [discriminate|].
      split; [intros ct' et' H; discriminate H|].
      split; [intros s' H; reflexivity|].
      split; [intros s' H; discriminate H|intros e' H; discriminate H].
    + exfalso. exact (DecFacts.mul_result _ _ _ Hmul eq_refl).
    + exists ValueError. split; [reflexivity|]. split; [discriminate|].
      split; [intros ct' et' H; discriminate H|].
      split; [intros s' H; discriminate H|].
      split; [intros s' H; reflexivity|intros e' H; discriminate H].
  - exists e1. split; [reflexivity|].
    pose proof (DecFacts.mul_raises _ _ _ Hmul) as Hkind.
    split; [destruct Hkind; subst e1; discriminate|].
    split; [intros ct' et' H; discriminate H|].
    split; [intros s' H; discriminate H|].
    split; [intros s' H; discriminate H|].
    intros e' H. injection H as <-. split; [reflexivity|exact Hkind].
Qed.

End FactoryFacts.

(** ** The equal split *)

Module EqualFacts.
Import MonadFacts DecFacts.
Local Open Scope Z_scope.

(** The base share [round(amount * 100 / n) / 100] of a total with at
    most two decimal places: a whole number [r] of hundredths, at most
    three above the exact quotient. *)
Lemma equal_share_returns (c e n : Z) :
  0 <= c < 10 ^ 24 -> -2 <= e <= 0 -> 1 <= n < 10 ^ 25 ->
  exists r cs es,
    equal_share (Dec.Fin c e) n = Ret (Dec.Fin cs es) /\
    0 <= r /\ r * n <= c * 10 ^ (e + 2) + 3 * n /\
    0 <= cs /\ -2 <= es <= 0 /\ cs * 10 ^ (es + 2) = r.
Proof.
  intros Hc He Hn. unfold equal_share, hundred.
  assert (H24 : 10 ^ 24 * 100 = 10 ^ 26) by reflexivity.
  rewrite (mul_exact c e 100 0)
    by (unfold Dec.Etiny, Dec.Etop, Dec.Emin, Dec.Emax, Dec.prec; lia).
  cbn [obind]. rewrite Z.add_0_r.
  assert (Hq : exists q r, Dec.div (Dec.Fin (c * 100) e) (Dec.of_int n) = Ret q /\
                           Dec.round q = Ret r /\ 0 <= r /\
                           r * n * 10 ^ (- e) <= c * 100 + 3 * n * 10 ^ (- e)).
  { destruct (Z.eq_dec c 0) as [->|Hnz].
    - exists (Dec.Fin 0 e), 0. split.
      + unfold Dec.div, Dec.of_int. cbn [Dec.check_nans].
        destruct (Z.eqb_spec n 0) as [|_]; [lia|]. cbn [Z.mul Z.eqb].
        rewrite Z.sub_0_r. apply fix_fin_zero. unfold Dec.Etiny, Dec.Emin, Dec.Emax, Dec.prec. lia.
      + split.
        * unfold Dec.round. destruct (0 <=? e); reflexivity.
        * pose proof (pow10_pos (- e) ltac:(lia)). nia.
    - apply equal_quotient; lia. }
  destruct Hq as (q & r & -> & Hr & Hr0 & Hrn). cbn [obind]. rewrite Hr. cbn [obind].
  assert (Hrn' : r * n <= c * 10 ^ (e + 2) + 3 * n).
  { pose proof (pow10_pos (- e) ltac:(lia)) as Hp.
    assert (Hcc : c * 100 = c * 10 ^ (e + 2) * 10 ^ (- e)).
    { rewrite <- Z.mul_assoc, <- Z.pow_add_r by lia.
      replace (e + 2 + - e) with 2 by lia. reflexivity. }
    rewrite Hcc in Hrn. nia. }
  assert (HC : c * 10 ^ (e + 2) <= c * 100).
  { assert (10 ^ (e + 2) <= 10 ^ 2) by (apply pow10_le; lia). change (10 ^ 2) with 100 in *. nia. }
  destruct (div_by_hundred r) as (cs & es & Hs & Hcs & Hes & Hval).
  { unfold Dec.prec. assert (r <= r * n) by nia.
    assert (10 ^ 26 + 3 * 10 ^ 25 < 10 ^ 28) by reflexivity. lia. }
  exists r, cs, es. repeat split; try assumption; lia.
Qed.

(** The first share [s + (amount - s * n)] is computed without rounding,
    so the shares add up to the total. *)
Lemma first_share_exact (c e n r cs es : Z) :
  0 <= c < 10 ^ 24 -> -2 <= e <= 0 -> 1 <= n < 10 ^ 25 ->
  0 <= r -> r * n <= c * 10 ^ (e + 2) + 3 * n ->
  0 <= cs -> -2 <= es <= 0 -> cs * 10 ^ (es + 2) = r ->
  exists F m,
    obind (Dec.mul (Dec.Fin cs es) (Dec.of_int n)) (fun p =>
    obind (Dec.sub (Dec.Fin c e) p) (fun rem =>
    Dec.add (Dec.Fin cs es) rem)) = Ret (Dec.Fin F m) /\
    (Dec.value (Dec.Fin F m) + inject_Z (n - 1) * Dec.value (Dec.Fin cs es)
     == Dec.value (Dec.Fin c e))%Q.
Proof.
  intros Hc He Hn Hr0 Hrn Hcs Hes Hval.
  set (m := Z.min e es).
  assert (Hm : -2 <= m <= 0) by (unfold m; lia).
  pose proof (pow10_pos (e + 2) ltac:(lia)) as Hp1.
  pose proof (pow10_pos (es + 2) ltac:(lia)) as Hp2.
  pose proof (pow10_pos (e - m) ltac:(unfold m; lia)) as Hp3.
  pose proof (pow10_pos (es - m) ltac:(unfold m; lia)) as Hp4.
  assert (Hle1 : 10 ^ (e - m) <= 10 ^ (e + 2)) by (apply pow10_le; lia).
  assert (Hle2 : 10 ^ (es - m) <= 10 ^ (es + 2)) by (apply pow10_le; lia).
  assert (HC : c * 10 ^ (e + 2) <= c * 100).
  { assert (10 ^ (e + 2) <= 10 ^ 2) by (apply pow10_le; lia). change (10 ^ 2) with 100 in *. nia. }
  assert (Hbig : 10 ^ 28 = 100 * 10 ^ 26) by reflexivity.
  assert (H24 : 10 ^ 26 = 100 * 10 ^ 24) by reflexivity.
  assert (H25 : 10 ^ 26 = 10 * 10 ^ 25) by reflexivity.
  assert (Hr_le : r <= r * n) by nia.
  assert (Hcs_le : cs <= r) by nia.
  (* split_amount * total_splits *)
  unfold Dec.of_int.
  rewrite (mul_exact cs es n 0)
    by (unfold Dec.Etiny, Dec.Etop, Dec.Emin, Dec.Emax, Dec.prec; rewrite ?Z.abs_eq by nia; nia).
  cbn [obind]. rewrite Z.add_0_r.
  (* amount - ... *)
  unfold Dec.sub. cbn [Dec.check_nans Dec.neg].
  assert (Hb1 : c * 10 ^ (e - m) <= c * 10 ^ (e + 2)) by nia.
  assert (Hb2 : cs * n * 10 ^ (es - m) <= r * n) by nia.
  assert (Hb2' : 0 <= cs * n * 10 ^ (es - m)) by nia.
  assert (Hb1' : 0 <= c * 10 ^ (e - m)) by nia.
  rewrite (add_exact c e (- (cs * n)) es); fold m.
  2:{ unfold Dec.prec. apply Z.abs_lt. nia. }
  2:{ unfold Dec.Etiny, Dec.Etop, Dec.Emin, Dec.Emax, Dec.prec. lia. }
  cbn [obind].
  set (R := c * 10 ^ (e - m) + - (cs * n) * 10 ^ (es - m)).
  (* split_amount + ... *)
  assert (Hmm : Z.min es m = m) by (unfold m; lia).
  assert (Hb3 : 0 <= cs * 10 ^ (es - m) <= r) by nia.
  rewrite (add_exact cs es R m); rewrite Hmm.
  2:{ rewrite Z.sub_diag, Z.mul_1_r. unfold Dec.prec, R. apply Z.abs_lt. nia. }
  2:{ unfold Dec.Etiny, Dec.Etop, Dec.Emin, Dec.Emax, Dec.prec. lia. }
  rewrite Z.sub_diag, Z.mul_1_r.
  exists (cs * 10 ^ (es - m) + R), m. split; [reflexivity|].
  (* the values, in units of [10 ^ m] *)
  rewrite (value_scaled (cs * 10 ^ (es - m) + R) m m) by lia.
  rewrite (value_scaled cs es m) by (unfold m; lia).
  rewrite (value_scaled c e m) by (unfold m; lia).
  rewrite Z.sub_diag, Z.mul_1_r.
  rewrite Qmult_assoc, <- Qmult_plus_distr_l, <- inject_Z_mult, <- inject_Z_plus.
  replace (cs * 10 ^ (es - m) + R + (n - 1) * (cs * 10 ^ (es - m))) with (c * 10 ^ (e - m))
    by (unfold R; ring).
  reflexivity.
Qed.

(** The EQUAL loop assigns the base share to every object of the list. *)
Lemma equal_loop (x : Decimal) (l : list addr) :
  forall (h : Heap) (objs : list SplitObj),
    objects_at h l objs ->
    exists h1,
      for_each l (fun a => set_amount a x) h = (h1, Ret tt) /\
      forall a o, h !! a = Some o ->
        exists o', h1 !! a = Some o' /\ cls o' = cls o /\ user o' = user o /\
          (In a l -> amount o' = x) /\ (~ In a l -> amount o' = amount o).
Proof.
  induction l as [|a0 l IH]; intros h objs Hobjs.
  - exists h. split; [reflexivity|]. intros a o Ha. exists o.
    repeat split; auto. intros [].
  - inversion Hobjs as [|? o0 ? objs0 Ha0 Hrest]; subst. cbn [for_each].
    rewrite (bind_ret_eq _ _ _ _ _ (FactoryFacts.set_amount_spec h a0 o0 x Ha0)).
    set (h0 := <[a0 := mkSplit (cls o0) (user o0) x]> h).
    pose proof (FactoryFacts.same_identities_insert h a0 o0 x Ha0) as Hid. fold h0 in Hid.
    destruct (FactoryFacts.objects_follow _ _ _ _ Hid Hrest) as (objs1 & Hobjs1 & _).
    destruct (IH h0 objs1 Hobjs1) as (h1 & Hrun & Hall).
    exists h1. split; [exact Hrun|].
    intros a o Ha. destruct (Nat.eq_dec a0 a) as [<-|Hne].
    + assert (o = o0) by congruence. subst o.
      assert (Ha1 : h0 !! a0 = Some (mkSplit (cls o0) (user o0) x)).
      { unfold h0. apply list_lookup_insert_eq. eapply lookup_lt_Some; exact Ha0. }
      destruct (Hall _ _ Ha1) as (o' & Ho' & Hc & Hu & Hin & Hout). cbn in *.
      exists o'. repeat split; try assumption.
      * intros _. destruct (in_dec Nat.eq_dec a0 l) as [Hi|Hni]; [apply Hin, Hi|apply Hout, Hni].
      * intros Hni. exfalso. apply Hni. left. reflexivity.
    + assert (Ha1 : h0 !! a = Some o).
      { unfold h0. rewrite list_lookup_insert_ne by exact Hne. exact Ha. }
      destruct (Hall _ _ Ha1) as (o' & Ho' & Hc & Hu & Hin & Hout).
      exists o'. repeat split; try assumption.
      * intros [Heq|Hi]; [contradiction|apply Hin, Hi].
      * intros Hni. apply Hout. intros Hi. apply Hni. right. exact Hi.
Qed.

Lemma total_value_same (x : Decimal) (objs : list SplitObj) :
  Forall (fun o => amount o = x) objs ->
  (total_value objs == inject_Z (Z.of_nat (length objs)) * Dec.value x)%Q.
Proof.
  induction 1 as [|o objs Ho _ IH].
  - cbn. ring.
  - cbn [total_value fold_right length]. fold (total_value objs). rewrite IH, Ho.
    rewrite Nat2Z.inj_succ. unfold Z.succ. rewrite inject_Z_plus. ring.
Qed.

Lemma forallb_equal_cls (objs objs' : list SplitObj) :
  map cls objs' = map cls objs ->
  forallb isinstance_EqualSplit objs' = forallb isinstance_EqualSplit objs.
Proof.
  revert objs. induction objs' as [|o' objs' IH]; intros [|o objs] H; try discriminate.
  - reflexivity.
  - cbn in H. injection H as Ho Hrest. cbn [forallb].
    rewrite (IH _ Hrest). unfold isinstance_EqualSplit. rewrite Ho. reflexivity.
Qed.

(** The EQUAL branch up to the construction of the expense. *)
Lemma equal_build (amt s f : Decimal) u (a0 : addr) (rest : list addr) md (h : Heap)
    (objs : list SplitObj) :
  objects_at h (a0 :: rest) objs ->
  equal_share amt (Z.of_nat (length (a0 :: rest))) = Ret s ->
  first_share amt s (Z.of_nat (length (a0 :: rest))) = Ret f ->
  exists h',
    build_expense (Member EQUAL) amt u (a0 :: rest) md h =
      (h', Ret (Some (mkExpense EqualExpense amt u (a0 :: rest) md None))) /\
    forall a o, h !! a = Some o ->
      h' !! a = Some (mkSplit (cls o) (user o) (equal_amount a0 rest f s a o)).
Proof.
  intros Hobjs Hs Hf.
  destruct (equal_loop s _ _ _ Hobjs) as (h1 & Hrun & Hall).
  inversion Hobjs as [|? o0 ? objs0 Ha0 Hrest]; subst.
  destruct (Hall _ _ Ha0) as (o1 & Ho1 & Hc1 & Hu1 & Hin1 & _).
  specialize (Hin1 (or_introl eq_refl)).
  unfold first_share in Hf.
  destruct (Dec.mul s (Dec.of_int (Z.of_nat (length (a0 :: rest))))) as [p|] eqn:Hp;
    [|discriminate].
  cbn [obind] in Hf.
  destruct (Dec.sub amt p) as [rem|] eqn:Hrem; [|discriminate].
  cbn [obind] in Hf.
  exists (<[a0 := mkSplit (cls o1) (user o1) f]> h1). split.
  - unfold build_expense.
    rewrite (bind_ret_eq _ _ h h s) by (unfold lift; rewrite Hs; reflexivity).
    rewrite (bind_ret_eq _ _ _ _ _ Hrun).
    assert (Habs : absorb_remainder amt s (Z.of_nat (length (a0 :: rest))) (a0 :: rest) h1 =
                   (<[a0 := mkSplit (cls o1) (user o1) f]> h1, Ret tt)).
    { unfold absorb_remainder.
      rewrite (bind_ret_eq _ _ _ _ _ (FactoryFacts.read_at _ _ _ Ho1)).
      rewrite (bind_ret_eq _ _ h1 h1 p) by (unfold lift; rewrite Hp; reflexivity).
      rewrite (bind_ret_eq _ _ h1 h1 rem) by (unfold lift; rewrite Hrem; reflexivity).
      rewrite (bind_ret_eq _ _ h1 h1 f) by (unfold lift; rewrite Hin1, Hf; reflexivity).
      apply FactoryFacts.set_amount_spec. exact Ho1. }
    rewrite (bind_ret_eq _ _ _ _ _ Habs). reflexivity.
  - intros a o Ha. unfold equal_amount.
    destruct (Hall _ _ Ha) as (o' & Ho' & Hc & Hu & Hin & Hout).
    destruct (Nat.eqb_spec a a0) as [->|Hne].
    + assert (o' = o1) by congruence. subst o'.
      rewrite list_lookup_insert_eq by (eapply lookup_lt_Some; exact Ho1).
      rewrite Hc, Hu. reflexivity.
    + rewrite list_lookup_insert_ne by congruence. rewrite Ho'. f_equal.
      destruct o' as [c' u' x']. cbn in Hc, Hu, Hin, Hout. subst c' u'. f_equal.
      destruct (existsb (Nat.eqb a) rest) eqn:Hex.
      * apply Hin. right. apply existsb_exists in Hex. destruct Hex as (b & Hb & Heq).
        apply Nat.eqb_eq in Heq. subst b. exact Hb.
      * apply Hout. intros [Heq|Hb]; [congruence|].
        assert (existsb (Nat.eqb a) rest = true); [|congruence].
        apply existsb_exists. exists a. split; [exact Hb|apply Nat.eqb_refl].
Qed.

(** The objects behind a list once every object has got a new amount. *)
Lemma objects_reassigned (g : addr -> SplitObj -> Decimal) (h h' : Heap) :
  (forall a o, h !! a = Some o -> h' !! a = Some (mkSplit (cls o) (user o) (g a o))) ->
  forall l objs, objects_at h l objs ->
    objects_at h' l (zip_with (fun a o => mkSplit (cls o) (user o) (g a o)) l objs).
Proof.
  intros Hall l objs Hobjs. induction Hobjs as [|a o l objs Ha _ IH].
  - constructor.
  - cbn [zip_with]. constructor; [apply Hall, Ha|exact IH].
Qed.

Lemma total_value_rest (a0 : addr) (f s : Decimal) (rest0 : list addr) :
  forall (rest : list addr) (objs : list SplitObj),
    ~ In a0 rest -> incl rest rest0 -> length objs = length rest ->
    Forall (fun o => amount o = s)
      (zip_with (fun a o => mkSplit (cls o) (user o) (equal_amount a0 rest0 f s a o)) rest objs).
Proof.
  induction rest as [|a rest IH]; intros [|o objs] Hni Hincl Hlen; try discriminate.
  - constructor.
  - cbn [zip_with]. constructor.
    + cbn [amount]. unfold equal_amount.
      destruct (Nat.eqb_spec a a0) as [->|_]; [exfalso; apply Hni; left; reflexivity|].
      assert (Hex : existsb (Nat.eqb a) rest0 = true).
      { apply existsb_exists. exists a. split; [apply Hincl; left; reflexivity|apply Nat.eqb_refl]. }
      rewrite Hex. reflexivity.
    + apply IH.
      * intros Hi. apply Hni. right. exact Hi.
      * intros b Hb. apply Hincl. right. exact Hb.
      * cbn in Hlen. lia.
Qed.

Lemma zip_identities (g : addr -> SplitObj -> Decimal) :
  forall (l : list addr) (objs : list SplitObj),
    length l = length objs ->
    let objs' := zip_with (fun a o => mkSplit (cls o) (user o) (g a o)) l objs in
    map cls objs' = map cls objs /\ map user objs' = map user objs /\
    length objs' = length objs.
Proof.
  induction l as [|a l IH]; intros [|o objs] Hlen; try discriminate.
  - repeat split.
  - cbn in Hlen. destruct (IH objs ltac:(lia)) as (Hc & Hu & Hl).
    cbn [zip_with map length cls user]. rewrite Hc, Hu, Hl. repeat split.
Qed.

Lemma map_amount_same (s : Decimal) (objs : list SplitObj) :
  Forall (fun o => amount o = s) objs -> map amount objs = repeat s (length objs).
Proof.
  induction 1 as [|o objs Ho _ IH]; [reflexivity|].
  cbn [map length repeat]. rewrite Ho, IH. reflexivity.
Qed.

Lemma untouched (a0 : addr) (rest : list addr) (f s : Decimal) (a : addr) (o : SplitObj) :
  ~ In a (a0 :: rest) -> mkSplit (cls o) (user o) (equal_amount a0 rest f s a o) = o.
Proof.
  intros Hni. unfold equal_amount.
  destruct (Nat.eqb_spec a a0) as [->|_]; [exfalso; apply Hni; left; reflexivity|].
  destruct (existsb (Nat.eqb a) rest) eqn:Hex.
  - apply existsb_exists in Hex. destruct Hex as (b & Hb & Heq).
    apply Nat.eqb_eq in Heq. subst b. exfalso. apply Hni. right. exact Hb.
  - destruct o; reflexivity.
Qed.

End EqualFacts.

(** ** What the factory and the manager leave alone *)

Module FootprintFacts.
Import MonadFacts DictFacts LedgerFacts.

Section keeps.
Context {S : Type} (R : S -> S -> Prop).
Hypothesis R_refl : forall s, R s s.
Hypothesis R_trans : forall s1 s2 s3, R s1 s2 -> R s2 s3 -> R s1 s3.

Lemma keeps_ret {A} (a : A) : keeps R (ret a).
Proof. intros s. apply R_refl. Qed.

Lemma keeps_raise {A} (e : exn) : keeps R (@raise S A e).
Proof. intros s. apply R_refl. Qed.

Lemma keeps_lift {A} (o : outcome A) : keeps R (lift o).
Proof. intros s. apply R_refl. Qed.

Lemma keeps_bind {A B} (m : M S A) (k : A -> M S B) :
  keeps R m -> (forall a, keeps R (k a)) -> keeps R (bind m k).
Proof.
  intros Hm Hk s. unfold bind. specialize (Hm s).
  destruct (m s) as [s1 [a|e]]; cbn [fst] in *.
  - eapply R_trans; [exact Hm|apply Hk].
  - exact Hm.
Qed.

Lemma keeps_for_each {A} (xs : list A) (body : A -> M S unit) :
  (forall a, In a xs -> keeps R (body a)) -> keeps R (for_each xs body).
Proof.
  induction xs as [|x xs IH]; intros Hbody; cbn [for_each].
  - apply keeps_ret.
  - apply keeps_bind; [apply Hbody; left; reflexivity|intros _].
    apply IH. intros a Ha. apply Hbody. right. exact Ha.
Qed.

Lemma keeps_same {A} (m : M S A) : keeps eq m -> keeps R m.
Proof. intros H s. rewrite <- (H s). apply R_refl. Qed.
End keeps.

Lemma touches_only_refl (l : list addr) (h : Heap) : touches_only l h h.
Proof. split; [reflexivity|]. intros a o Ha. exists o. repeat split; auto. Qed.

Lemma touches_only_trans (l : list addr) (h1 h2 h3 : Heap) :
  touches_only l h1 h2 -> touches_only l h2 h3 -> touches_only l h1 h3.
Proof.
  intros [Hl1 H1] [Hl2 H2]. split; [congruence|].
  intros a o Ha. destruct (H1 _ _ Ha) as (o' & Ha' & Hc & Hu & Hout).
  destruct (H2 _ _ Ha') as (o'' & Ha'' & Hc' & Hu' & Hout').
  exists o''. repeat split; try congruence.
  intros Hni. rewrite (Hout' Hni). apply Hout, Hni.
Qed.

Lemma keeps_read (R : Heap -> Heap -> Prop) (a : addr) :
  (forall h, R h h) -> keeps R (read a).
Proof. intros HR h. unfold read. destruct (h !! a); apply HR. Qed.

Lemma keeps_set_amount (l : list addr) (a : addr) (x : Decimal) :
  In a l -> keeps (touches_only l) (set_amount a x).
Proof.
  intros Hin h. unfold set_amount. destruct (h !! a) as [o|] eqn:Ha; cbn [fst].
  - split; [apply length_insert|].
    intros a' o' Ha'. destruct (Nat.eq_dec a a') as [<-|Hne].
    + assert (o' = o) by congruence. subst o'.
      exists (mkSplit (cls o) (user o) x).
      rewrite list_lookup_insert_eq by (eapply lookup_lt_Some; exact Ha).
      repeat split. intros Hni. contradiction.
    + exists o'. rewrite list_lookup_insert_ne by exact Hne. repeat split; auto.
  - apply touches_only_refl.
Qed.

Lemma same_bind {S A B} (m : M S A) (k : A -> M S B) :
  keeps eq m -> (forall a, keeps eq (k a)) -> keeps eq (bind m k).
Proof. apply (keeps_bind eq (@eq_trans S)). Qed.

Lemma same_read (a : addr) : keeps eq (read a).
Proof. apply keeps_read. reflexivity. Qed.

Lemma same_all_splits (test : SplitObj -> bool) (l : list addr) : keeps eq (all_splits test l).
Proof.
  induction l as [|a l IH]; cbn [all_splits].
  - intros h. reflexivity.
  - apply same_bind; [apply same_read|intros o].
    destruct (test o); [exact IH|intros h; reflexivity].
Qed.

Lemma same_sum_from (f : SplitObj -> outcome Decimal) (l : list addr) :
  forall acc, keeps eq (sum_from acc f l).
Proof.
  induction l as [|a l IH]; intros acc; cbn [sum_from].
  - intros h. reflexivity.
  - apply same_bind; [apply same_read|intros o].
    apply same_bind; [intros h; reflexivity|intros x].
    apply same_bind; [intros h; reflexivity|intros acc'].
    apply IH.
Qed.

Lemma same_validate (e : Expense) : keeps eq (validate e).
Proof.
  unfold validate. destruct (expense_cls e).
  - apply same_all_splits.
  - apply same_bind; [apply same_all_splits|intros ok].
    destruct (negb ok); [intros h; reflexivity|].
    apply same_bind; [apply same_sum_from|intros total].
    intros h. reflexivity.
  - apply same_bind; [apply same_all_splits|intros ok].
    destruct (negb ok); [intros h; reflexivity|].
    apply same_bind; [apply same_sum_from|intros total].
    intros h. reflexivity.
Qed.

Section factory.
Context (l : list addr).

Let touch_bind {A B} (m : M Heap A) (k : A -> M Heap B) :
  keeps (touches_only l) m -> (forall a, keeps (touches_only l) (k a)) ->
  keeps (touches_only l) (bind m k).
Proof. apply (keeps_bind _ (touches_only_trans l)). Qed.

Lemma touch_assign_percent_share (amt : Decimal) (a : addr) :
  In a l -> keeps (touches_only l) (assign_percent_share amt a).
Proof.
  intros Hin. unfold assign_percent_share.
  apply touch_bind; [apply keeps_read, touches_only_refl|intros o].
  destruct (cls o); try (intros h; apply touches_only_refl).
  apply touch_bind; [intros h; apply touches_only_refl|intros p].
  apply touch_bind; [intros h; apply touches_only_refl|intros x].
  apply keeps_set_amount, Hin.
Qed.

Lemma touch_absorb_remainder (amt x : Decimal) (n : Z) :
  keeps (touches_only l) (absorb_remainder amt x n l).
Proof.
  unfold absorb_remainder. destruct l as [|a0 rest] eqn:Hl.
  - intros h. apply touches_only_refl.
  - apply touch_bind; [apply keeps_read, touches_only_refl|intros o].
    apply touch_bind; [intros h; apply touches_only_refl|intros p].
    apply touch_bind; [intros h; apply touches_only_refl|intros r].
    apply touch_bind; [intros h; apply touches_only_refl|intros y].
    apply keeps_set_amount. left. reflexivity.
Qed.

Lemma touch_build_expense t amt u md :
  keeps (touches_only l) (build_expense t amt u l md).
Proof.
  unfold build_expense. destruct t as [[| |]|].
  - apply touch_bind; [intros h; apply touches_only_refl|intros x].
    apply touch_bind.
    + apply (keeps_for_each _ (touches_only_refl l) (touches_only_trans l)).
      intros a Ha. apply keeps_set_amount, Ha.
    + intros _. apply touch_bind; [apply touch_absorb_remainder|intros _].
      intros h. apply touches_only_refl.
  - intros h. apply touches_only_refl.
  - apply touch_bind.
    + apply (keeps_for_each _ (touches_only_refl l) (touches_only_trans l)).
      intros a Ha. apply touch_assign_percent_share, Ha.
    + intros _ h. apply touches_only_refl.
  - intros h. apply touches_only_refl.
Qed.

Lemma touch_create_expense t amt u md :
  keeps (touches_only l) (create_expense t amt u l md).
Proof.
  unfold create_expense.
  apply touch_bind; [apply touch_build_expense|intros [e|]].
  - apply touch_bind; [|intros ok h; apply touches_only_refl].
    apply keeps_same; [apply touches_only_refl|apply same_validate].
  - intros h. apply touches_only_refl.
Qed.
End factory.

Lemma same_create_exact amt u l md : keeps eq (create_expense (Member EXACT) amt u l md).
Proof.
  unfold create_expense, build_expense.
  apply same_bind; [intros h; reflexivity|intros [e|]]; [|intros h; reflexivity].
  apply same_bind; [apply same_validate|intros ok h; reflexivity].
Qed.

(** *** The manager *)

Lemma same_rows_refl (w : World) : same_rows w w.
Proof. split; [apply same_but_sheet_refl|tauto]. Qed.

Lemma same_rows_trans (w1 w2 w3 : World) :
  same_rows w1 w2 -> same_rows w2 w3 -> same_rows w1 w3.
Proof.
  intros [H1 K1] [H2 K2]. split; [eapply same_but_sheet_trans; eassumption|].
  intros k. rewrite K2. apply K1.
Qed.

Lemma same_rows_assign (w : World) (a b : string) (v : Decimal) :
  same_rows w (with_sheet w (assign a b v (balance_sheet (mgr w)))).
Proof. split; [apply same_but_sheet_with|]. intros k. cbn. apply row_assign. Qed.

Lemma rows_store_entry (a b : string) (v : Decimal) : keeps same_rows (store_entry a b v).
Proof.
  intros w. rewrite store_entry_spec.
  destruct (Dict.get a (balance_sheet (mgr w))); cbn [fst];
    [apply same_rows_assign|apply same_rows_refl].
Qed.

Lemma rows_ensure_entry (a b : string) : keeps same_rows (ensure_entry a b).
Proof.
  intros w. rewrite ensure_entry_spec.
  destruct (Dict.get a (balance_sheet (mgr w))) as [r|]; [|apply same_rows_refl].
  destruct (Dict.contains b r); cbn [fst]; [apply same_rows_refl|apply same_rows_assign].
Qed.

Lemma rows_update_entry (op : Decimal -> Decimal -> outcome Decimal) (a b : string)
    (x : Decimal) :
  keeps same_rows (update_entry op a b x).
Proof.
  intros w. rewrite update_entry_spec.
  destruct (Dict.get a (balance_sheet (mgr w))) as [r|]; [|apply same_rows_refl].
  destruct (Dict.get b r) as [v|]; [|apply same_rows_refl].
  destruct (op v x); cbn [fst]; [apply same_rows_assign|apply same_rows_refl].
Qed.

Lemma rows_apply_split (p : string) (a : addr) : keeps same_rows (apply_split p a).
Proof.
  unfold apply_split.
  apply (keeps_bind _ same_rows_trans).
  { intros w. rewrite on_heap_read. apply same_rows_refl. }
  intros o.
  apply (keeps_bind _ same_rows_trans); [apply rows_ensure_entry|intros _].
  apply (keeps_bind _ same_rows_trans); [apply rows_update_entry|intros _].
  apply (keeps_bind _ same_rows_trans); [apply rows_ensure_entry|intros _].
  apply rows_update_entry.
Qed.

Lemma rows_for_each_apply_split (p : string) (l : list addr) :
  keeps same_rows (for_each l (apply_split p)).
Proof.
  apply (keeps_for_each _ same_rows_refl same_rows_trans).
  intros a _. apply rows_apply_split.
Qed.

(** [add_expense], branch by branch. *)
Lemma add_expense_unfold t amt payer l md (w : World) :
  add_expense t amt payer l md w =
  match Dict.get payer (user_map (mgr w)) with
  | None => (w, Raise (KeyError payer))
  | Some u =>
    match create_expense t amt u l md (heap w) with
    | (h1, Raise e) => (mkWorld h1 (mgr w) (stdout w), Raise e)
    | (h1, Ret None) => (mkWorld h1 (mgr w) (stdout w ++ [InvalidExpense]), Ret tt)
    | (h1, Ret (Some e)) =>
      for_each (splits e) (apply_split payer)
        (mkWorld h1 (mkManager (expenses (mgr w) ++ [e]) (user_map (mgr w))
                       (balance_sheet (mgr w))) (stdout w))
    end
  end.
Proof.
  unfold add_expense, get_mgr, lift, Dict.subscript, on_heap, print, modify_mgr, bind.
  destruct (Dict.get payer (user_map (mgr w))) as [u|]; [|reflexivity].
  destruct (create_expense t amt u l md (heap w)) as [h1 [[e|]|ex]]; reflexivity.
Qed.

Lemma add_expense_effect t amt payer l md (w : World) :
  let w' := fst (add_expense t amt payer l md w) in
  touches_only l (heap w) (heap w') /\
  user_map (mgr w') = user_map (mgr w) /\
  (forall k, Dict.get k (balance_sheet (mgr w')) = None <->
             Dict.get k (balance_sheet (mgr w)) = None) /\
  ((mgr w' = mgr w /\
    (stdout w' = stdout w \/
     stdout w' = stdout w ++ [InvalidExpense] /\
     snd (add_expense t amt payer l md w) = Ret tt)) \/
   (exists e u,
      Dict.get payer (user_map (mgr w)) = Some u /\
      splits e = l /\ expense_amount e = amt /\ paid_by e = u /\
      expenses (mgr w') = expenses (mgr w) ++ [e] /\ stdout w' = stdout w)).
Proof.
  cbv zeta. rewrite add_expense_unfold.
  destruct (Dict.get payer (user_map (mgr w))) as [u|] eqn:Hu.
  2:{ cbn [fst snd]. split; [apply touches_only_refl|]. split; [reflexivity|].
      split; [tauto|]. left. auto. }
  pose proof (touch_create_expense l t amt u md (heap w)) as Htouch.
  destruct (create_expense t amt u l md (heap w)) as [h1 [[e|]|ex]] eqn:Hcreate;
    cbn [fst snd] in *.
  - destruct (create_expense_splits _ _ _ _ _ _ _ _ Hcreate) as (Hl & Hamt & Hpaid).
    pose proof (rows_for_each_apply_split payer (splits e)
                  (mkWorld h1 (mkManager (expenses (mgr w) ++ [e]) (user_map (mgr w))
                                 (balance_sheet (mgr w))) (stdout w)))
      as [(Hh & Hout & Hexp & Hum) Hrows].
    cbn [heap stdout mgr expenses user_map balance_sheet] in Hh, Hout, Hexp, Hum, Hrows.
    rewrite Hh. split; [exact Htouch|]. split; [exact Hum|]. split; [exact Hrows|].
    right. exists e, u. repeat split; assumption.
  - split; [exact Htouch|]. split; [reflexivity|]. split; [tauto|]. left. auto.
  - split; [exact Htouch|]. split; [reflexivity|]. split; [tauto|]. left. auto.
Qed.

Lemma add_user_registry (u : User) (m : ExpenseManager) :
  registry_consistent m -> registry_consistent (mgr (fst (add_user u (mkWorld [] m [])))).
Proof.
  intros (Hid & Hrows & Hlog). unfold registry_consistent. cbn. repeat split.
  - intros k u' H. rewrite get_set in H.
    destruct (String.eqb_spec (user_id u) k) as [<-|_]; [congruence|apply Hid, H].
  - rewrite !get_set. destruct (String.eqb (user_id u) k); [discriminate|apply Hrows].
  - rewrite !get_set. destruct (String.eqb (user_id u) k); [discriminate|apply Hrows].
  - intros e He. rewrite get_set.
    destruct (String.eqb (user_id u) (user_id (paid_by e))); [discriminate|apply Hlog, He].
Qed.

Lemma reachable_registry (w : World) : reachable w -> registry_consistent (mgr w).
Proof.
  induction 1 as [h out|w w' _ IH Hstep].
  - repeat split; cbn; try discriminate; try tauto.
  - destruct Hstep.
    + apply (add_user_registry u (mgr w) IH).
    + destruct IH as (Hid & Hrows & Hlog).
      destruct (add_expense_effect t amt payer l md w) as (_ & Hum & Hkeys & Hcases).
      repeat split.
      * intros k u. rewrite Hum. apply Hid.
      * rewrite Hkeys, Hum. apply Hrows.
      * rewrite Hkeys, Hum. apply Hrows.
      * intros e He. rewrite Hum.
        destruct Hcases as [[Hm _]|(e' & u & Hu & _ & _ & Hpaid & Hexp & _)].
        -- rewrite Hm in He. apply Hlog, He.
        -- rewrite Hexp in He. apply in_app_or in He as [He|[<-|[]]]; [apply Hlog, He|].
           rewrite Hpaid, (Hid _ _ Hu), Hu. discriminate.
    + destruct (show_balance_frame uid w) as [-> _]. exact IH.
    + exact IH.
Qed.

End FootprintFacts.

(** ** The balance queries *)

Module QueryFacts.
Import MonadFacts DictFacts LedgerFacts DecFacts.

(** [_print_balance], branch by branch. *)
Lemma print_balance_unfold (a b : string) (x : Decimal) (w : World) :
  _print_balance a b x w =
  match Dict.get a (user_map (mgr w)) with
  | None => (w, Raise (KeyError a))
  | Some u1 =>
    match Dict.get b (user_map (mgr w)) with
    | None => (w, Raise (KeyError b))
    | Some u2 =>
      match Dec.lt x (Dec.of_int 0) with
      | Raise e => (w, Raise e)
      | Ret true =>
        match Dec.abs x with
        | Ret v => (emit w [Owes (user_name u1) (user_name u2) v], Ret tt)
        | Raise e => (w, Raise e)
        end
      | Ret false =>
        match Dec.gt x (Dec.of_int 0) with
        | Raise e => (w, Raise e)
        | Ret true =>
          match Dec.abs x with
          | Ret v => (emit w [Owes (user_name u2) (user_name u1) v], Ret tt)
          | Raise e => (w, Raise e)
          end
        | Ret false => (w, Ret tt)
        end
      end
    end
  end.
Proof.
  unfold _print_balance, get_mgr, lift, Dict.subscript, print, emit, ret, bind.
  destruct (Dict.get a (user_map (mgr w))) as [u1|]; [|reflexivity].
  destruct (Dict.get b (user_map (mgr w))) as [u2|]; [|reflexivity].
  destruct (Dec.lt x (Dec.of_int 0)) as [[|]|]; [| |reflexivity].
  - destruct (Dec.abs x); reflexivity.
  - destruct (Dec.gt x (Dec.of_int 0)) as [[|]|]; [| |reflexivity].
    + destruct (Dec.abs x); reflexivity.
    + destruct w; reflexivity.
Qed.

Lemma abs_magnitude (x : Decimal) :
  Dec.context_result x -> Dec.is_nan x = false -> Dec.abs x = Ret (magnitude x).
Proof.
  destruct x as [c e|s|s]; cbn; [|reflexivity|discriminate].
  intros H _. destruct (Z.le_gt_cases 0 c) as [Hc|Hc].
  - rewrite Z.abs_eq by exact Hc. exact H.
  - rewrite Z.abs_neq by lia. rewrite fix_fin_opp, H. reflexivity.
Qed.

Lemma lt_negative (x : Decimal) :
  Dec.is_nan x = false -> Dec.lt x (Dec.of_int 0) = Ret (negative x).
Proof. intros H. unfold negative, Dec.lt. rewrite H. reflexivity. Qed.

Lemma ne_nonzero (x : Decimal) :
  Dec.is_nan x = false -> Dec.ne x (Dec.of_int 0) = Ret (nonzero x).
Proof. destruct x as [c e|s|[|]]; try discriminate; reflexivity. Qed.

(** A number that is neither zero nor negative is positive. *)
Lemma nonzero_sign (x : Decimal) :
  Dec.ne x (Dec.of_int 0) = Ret true -> Dec.lt x (Dec.of_int 0) = Ret false ->
  Dec.gt x (Dec.of_int 0) = Ret true.
Proof.
  destruct x as [c e|[|]|[|]]; try discriminate; try reflexivity.
  unfold Dec.ne, Dec.eq, Dec.lt, Dec.gt, Dec.of_int. cbn [Dec.check_nans Dec.is_nan orb obind].
  destruct (Dec.cmp (Dec.Fin c e) (Dec.Fin 0 0)); cbn; congruence.
Qed.

(** *** What a query prints when it returns *)

Section items.
Context (test : Decimal -> outcome bool).
Hypothesis test_sign : forall x,
  test x = Ret true -> Dec.lt x (Dec.of_int 0) = Ret false ->
  Dec.gt x (Dec.of_int 0) = Ret true.

Lemma print_balance_hit (a b : string) (x : Decimal) (w w' : World) :
  test x = Ret true -> _print_balance a b x w = (w', Ret tt) ->
  exists line, w' = emit w [line] /\ is_owes line = true.
Proof.
  intros Hhit. rewrite print_balance_unfold.
  destruct (Dict.get a (user_map (mgr w))) as [u1|]; [|discriminate].
  destruct (Dict.get b (user_map (mgr w))) as [u2|]; [|discriminate].
  destruct (Dec.lt x (Dec.of_int 0)) as [[|]|] eqn:Hlt; [| |discriminate].
  - destruct (Dec.abs x) as [v|]; [|discriminate].
    intros [= <-]. eexists. split; reflexivity.
  - rewrite (test_sign x Hhit Hlt).
    destruct (Dec.abs x) as [v|]; [|discriminate].
    intros [= <-]. eexists. split; reflexivity.
Qed.

Lemma show_items_returns (u : string) (items : dict Decimal) :
  forall (is_empty : bool) (w w' : World) (b : bool),
    show_items test u items is_empty w = (w', Ret b) ->
    exists lines, w' = emit w lines /\ forallb is_owes lines = true /\
                  b = (is_empty && is_nil lines)%bool.
Proof.
  induction items as [|[other x] rest IH]; intros is_empty w w' b; cbn [show_items].
  - intros [= <- <-]. exists []. rewrite emit_nil, andb_true_r. auto.
  - intros H. apply bind_ret_inv in H as (hit & w1 & Hhit & H).
    unfold lift in Hhit. injection Hhit as <- Hhit.
    destruct hit.
    + apply bind_ret_inv in H as ([] & w2 & Hprint & H).
      destruct (print_balance_hit _ _ _ _ _ Hhit Hprint) as (line & -> & Hline).
      destruct (IH _ _ _ _ H) as (lines & -> & Hlines & ->).
      exists (line :: lines). rewrite emit_emit. cbn [forallb is_nil app].
      rewrite Hline, Hlines, andb_false_r. auto.
    + apply IH, H.
Qed.
End items.

Lemma show_rows_returns (rows : dict (dict Decimal)) :
  forall (is_empty : bool) (w w' : World) (b : bool),
    show_rows rows is_empty w = (w', Ret b) ->
    exists lines, w' = emit w lines /\ forallb is_owes lines = true /\
                  b = (is_empty && is_nil lines)%bool.
Proof.
  induction rows as [|[uid balances] rest IH]; intros is_empty w w' b; cbn [show_rows].
  - intros [= <- <-]. exists []. rewrite emit_nil, andb_true_r. auto.
  - intros H. apply bind_ret_inv in H as (b1 & w1 & Hrow & H).
    apply show_items_returns in Hrow as (lines1 & -> & Hl1 & ->); [|auto].
    destruct (IH _ _ _ _ H) as (lines2 & -> & Hl2 & ->).
    exists (lines1 ++ lines2).
    rewrite emit_emit, forallb_app, Hl1, Hl2, is_nil_app, andb_assoc. auto.
Qed.

Lemma report_returns (m : M World bool) (w w' : World) :
  (forall w1 b, m w = (w1, Ret b) ->
     exists lines, w1 = emit w lines /\ forallb is_owes lines = true /\
                   b = (true && is_nil lines)%bool) ->
  (do is_empty <- m; if is_empty then print NoBalances else ret tt) w = (w', Ret tt) ->
  exists lines, w' = emit w lines /\
    (lines = [NoBalances] \/ lines <> [] /\ forallb is_owes lines = true).
Proof.
  intros Hm H. apply bind_ret_inv in H as (b & w1 & Hrun & H).
  destruct (Hm _ _ Hrun) as (lines & -> & Hlines & ->).
  destruct lines as [|line lines]; cbn [andb is_nil] in H.
  - exists [NoBalances]. split; [|left; reflexivity].
    rewrite emit_nil in H. injection H as <-. reflexivity.
  - injection H as <-. exists (line :: lines). split; [reflexivity|].
    right. split; [discriminate|exact Hlines].
Qed.

Lemma show_balance_returns (uid : option string) (w w' : World) :
  show_balance uid w = (w', Ret tt) ->
  exists lines, w' = emit w lines /\
    (lines = [NoBalances] \/ lines <> [] /\ forallb is_owes lines = true).
Proof.
  unfold show_balance. rewrite (bind_ret_eq _ _ w w (mgr w) eq_refl).
  assert (Hglobal :
    (do is_empty <- show_rows (balance_sheet (mgr w)) true;
     if is_empty then print NoBalances else ret tt) w = (w', Ret tt) ->
    exists lines, w' = emit w lines /\
      (lines = [NoBalances] \/ lines <> [] /\ forallb is_owes lines = true)).
  { apply report_returns. intros w1 b. apply show_rows_returns. }
  destruct uid as [k|]; [|exact Hglobal].
  destruct (truthy (Some k)); [|exact Hglobal].
  apply report_returns. intros w1 b. apply show_items_returns.
  intros x. apply nonzero_sign.
Qed.

(** *** Whatever the outcome, a query only adds lines to the output *)

Section appends.
Context (w0 : World).
Let extends (w : World) : Prop := exists lines, stdout w = stdout w0 ++ lines.

Lemma extends_print (l : Line) : preserves extends (print l).
Proof.
  intros w [lines H]. exists (lines ++ [l]). cbn. rewrite H, app_assoc. reflexivity.
Qed.

Lemma extends_print_balance (user1 user2 : string) (a : Decimal) :
  preserves extends (_print_balance user1 user2 a).
Proof.
  unfold _print_balance.
  apply preserves_bind; [apply preserves_get_mgr|intros m].
  apply preserves_bind; [apply preserves_lift|intros u1].
  apply preserves_bind; [apply preserves_lift|intros u2].
  apply preserves_bind; [apply preserves_lift|intros [|]].
  - apply preserves_bind; [apply preserves_lift|intros v]. apply extends_print.
  - apply preserves_bind; [apply preserves_lift|intros [|]]; [|apply preserves_ret].
    apply preserves_bind; [apply preserves_lift|intros v]. apply extends_print.
Qed.

Lemma extends_show_items (test : Decimal -> outcome bool) (user1 : string)
    (items : dict Decimal) (is_empty : bool) :
  preserves extends (show_items test user1 items is_empty).
Proof.
  revert is_empty. induction items as [|[other a] rest IH]; intros is_empty; cbn [show_items].
  - apply preserves_ret.
  - apply preserves_bind; [apply preserves_lift|intros [|]]; [|apply IH].
    apply preserves_bind; [apply extends_print_balance|intros _; apply IH].
Qed.

Lemma extends_show_rows (rows : dict (dict Decimal)) (is_empty : bool) :
  preserves extends (show_rows rows is_empty).
Proof.
  revert is_empty. induction rows as [|[uid balances] rest IH]; intros is_empty; cbn [show_rows].
  - apply preserves_ret.
  - apply preserves_bind; [apply extends_show_items|intros b; apply IH].
Qed.

Lemma extends_show_balance (uid : option string) : preserves extends (show_balance uid).
Proof.
  assert (Hglobal : forall m, preserves extends
    (do is_empty <- show_rows (balance_sheet m) true;
     if is_empty then print NoBalances else ret tt)).
  { intros m. apply preserves_bind; [apply extends_show_rows|intros [|]];
      [apply extends_print|apply preserves_ret]. }
  unfold show_balance.
  apply preserves_bind; [apply preserves_get_mgr|intros m].
  destruct uid as [k|]; [|apply Hglobal].
  destruct (truthy (Some k)); [|apply Hglobal].
  apply preserves_bind; [apply extends_show_items|intros [|]];
    [apply extends_print|apply preserves_ret].
Qed.
End appends.

Lemma show_balance_appends (uid : option string) (w : World) :
  exists lines, stdout (fst (show_balance uid w)) = stdout w ++ lines.
Proof.
  apply (extends_show_balance w uid w). exists []. rewrite app_nil_r. reflexivity.
Qed.

(** *** The query for one user *)

Lemma print_nonzero (w : World) (a b : string) (x : Decimal) :
  printable (mgr w) (a, b, x) -> nonzero x = true ->
  _print_balance a b x w = (emit w [user_line (mgr w) a (b, x)], Ret tt).
Proof.
  intros (Ha & Hb & Hnan & Hres) Hnz.
  pose proof (ne_nonzero x Hnan) as Hne. rewrite Hnz in Hne.
  pose proof (lt_negative x Hnan) as Hlt.
  rewrite print_balance_unfold. unfold user_line, name_of. cbn [fst snd].
  destruct (Dict.get a (user_map (mgr w))) as [ua|]; [|congruence].
  destruct (Dict.get b (user_map (mgr w))) as [ub|]; [|congruence].
  rewrite Hlt, (abs_magnitude x Hres Hnan).
  destruct (negative x); [reflexivity|].
  rewrite (nonzero_sign x Hne Hlt). reflexivity.
Qed.

Lemma show_items_user (a : string) (items : dict Decimal) :
  forall (is_empty : bool) (w : World),
    Forall (printable (mgr w)) (row_entries a items) ->
    show_items (fun x => Dec.ne x (Dec.of_int 0)) a items is_empty w =
    (emit w (map (user_line (mgr w) a) (List.filter is_nonzero_item items)),
     Ret (is_empty && is_nil (List.filter is_nonzero_item items))%bool).
Proof.
  induction items as [|[b x] rest IH]; intros is_empty w Hgood; cbn [show_items].
  - cbn. rewrite emit_nil, andb_true_r. reflexivity.
  - cbn [row_entries map] in Hgood. apply Forall_cons_iff in Hgood as [Hx Hrest].
    pose proof Hx as (_ & _ & Hnan & _).
    unfold bind at 1, lift at 1. rewrite (ne_nonzero x Hnan).
    cbn [List.filter]. change (is_nonzero_item (b, x)) with (nonzero x).
    destruct (nonzero x) eqn:Hnz.
    + rewrite (bind_ret_eq _ _ _ _ _ (print_nonzero w a b x Hx Hnz)).
      rewrite (IH false (emit w [user_line (mgr w) a (b, x)]) Hrest).
      rewrite emit_emit. cbn. rewrite andb_false_r. reflexivity.
    + apply IH, Hrest.
Qed.

Lemma row_printable (m : ExpenseManager) (uid : string) :
  ledger_shape m -> antisymmetric m ->
  Forall (printable m) (row_entries uid (row_of m uid)).
Proof.
  intros Hshape Hanti. unfold row_of.
  destruct (Dict.get uid (balance_sheet m)) as [r|] eqn:Hr; [|constructor].
  pose proof (all_entries_printable m Hshape Hanti) as Hall.
  rewrite List.Forall_forall in Hall. apply List.Forall_forall. intros t Ht.
  apply Hall. unfold all_entries. apply in_flat_map.
  exists (uid, r). split; [apply get_Some_in, Hr|exact Ht].
Qed.

Lemma negative_neg (x : Decimal) :
  Dec.is_nan x = false -> nonzero x = true -> negative (Dec.neg x) = negb (negative x).
Proof.
  destruct x as [c e|[|]|[|]]; try discriminate; try reflexivity.
  intros _. unfold nonzero, negative, Dec.neg, Dec.ne, Dec.eq.
  rewrite !lt_zero_fin. unfold Dec.of_int. cbn [Dec.check_nans obind].
  unfold Dec.cmp. rewrite Z.mul_0_l.
  pose proof (pow10_pos (e - Z.min e 0) ltac:(lia)) as Hp.
  destruct (Z.compare_spec (c * 10 ^ (e - Z.min e 0)) 0) as [H|H|H]; cbn; try discriminate;
    intros _; destruct (Z.ltb_spec (- c) 0), (Z.ltb_spec c 0); try reflexivity; nia.
Qed.

Lemma magnitude_neg (x : Decimal) : magnitude (Dec.neg x) = magnitude x.
Proof. destruct x as [c e|s|s]; cbn; [rewrite Z.abs_opp|..]; reflexivity. Qed.

End QueryFacts.

(** ** The balances add up to zero *)

Module BalanceFacts.
Import MonadFacts DictFacts LedgerFacts DecFacts.

Lemma representable_finite (x : Decimal) : Dec.representable x -> finite x.
Proof. destruct x; cbn; auto. Qed.

Lemma add_finite (x y d : Decimal) : finite x -> finite y -> Dec.add x y = Ret d -> finite d.
Proof.
  destruct x as [c1 e1| |]; try contradiction. destruct y as [c2 e2| |]; try contradiction.
  intros _ _ H. cbn in H. apply fix_fin_finite in H as (c & e & ->). exact I.
Qed.

Lemma sub_finite (x y d : Decimal) : finite x -> finite y -> Dec.sub x y = Ret d -> finite d.
Proof.
  destruct x as [c1 e1| |]; try contradiction. destruct y as [c2 e2| |]; try contradiction.
  intros _ _ H. cbn in H. apply fix_fin_finite in H as (c & e & ->). exact I.
Qed.

Lemma current_finite (m : ExpenseManager) (a b : string) :
  finite_entries m -> finite (current m a b).
Proof.
  intros H. unfold current. destruct (entry m a b) as [x|] eqn:Hx; [|exact I].
  apply (H _ _ _ Hx).
Qed.

Lemma apply_split_finite (p : string) (a : addr) (w w' : World) :
  finite_entries (mgr w) ->
  (forall o, heap w !! a = Some o -> Dec.representable (amount o)) ->
  apply_split p a w = (w', Ret tt) ->
  finite_entries (mgr w').
Proof.
  intros Hfin Hrep Hrun.
  apply apply_split_ok in Hrun as (o & v1 & v2 & Ho & Hadd & Hsub & _ & Hent & _).
  pose proof (representable_finite _ (Hrep _ Ho)) as Hx.
  assert (H1 : finite v1).
  { eapply add_finite; [|exact Hx|exact Hadd]. apply current_finite, Hfin. }
  assert (H2 : finite v2).
  { eapply sub_finite; [|exact Hx|exact Hsub].
    destruct (String.eqb p (user_id (user o))); [exact H1|apply current_finite, Hfin]. }
  intros a' b' x. rewrite Hent.
  destruct (_ && _)%bool; [intros [= <-]; exact H2|].
  destruct (_ && _)%bool; [intros [= <-]; exact H1|apply Hfin].
Qed.

Lemma for_each_apply_split_finite (p : string) (l : list addr) :
  forall w w',
    finite_entries (mgr w) -> shares_representable (heap w) l ->
    for_each l (apply_split p) w = (w', Ret tt) ->
    finite_entries (mgr w').
Proof.
  induction l as [|a l IH]; intros w w' Hfin Hrep H; cbn [for_each] in H.
  - inversion H; subst. exact Hfin.
  - apply bind_ret_inv in H as ([] & w1 & Ha & Hl).
    assert (Hsame : same_but_sheet w w1).
    { apply apply_split_ok in Ha as (? & ? & ? & _ & _ & _ & Hs & _). exact Hs. }
    apply (IH w1 w'); [|intros a0 Ha0|exact Hl].
    + eapply apply_split_finite; [exact Hfin| |exact Ha].
      intros o Ho. destruct (Hrep a (or_introl eq_refl)) as (o' & Ho' & Hr). congruence.
    + destruct Hsame as (-> & _). apply Hrep. right. exact Ha0.
Qed.

Lemma orderly_finite (w : World) : orderly w -> finite_entries (mgr w).
Proof.
  induction 1 as [h out|u w Ho IH Hnew|t amt payer l md w w' Ho IH Hrun Hrep|uid w _ IH|h w _ IH].
  - intros a b x H. discriminate.
  - intros a b x. unfold entry. cbn. rewrite get_set.
    destruct (String.eqb (user_id u) a); [discriminate|]. apply IH.
  - apply add_expense_ok in Hrun as (u & h1 & r & _ & _ & Hr).
    destruct r as [e|]; [|subst w'; exact IH].
    pose proof (for_each_apply_split_same _ _ _ _ Hr) as (Hh & _). cbn [heap] in Hh.
    apply for_each_apply_split_finite in Hr; [exact Hr|exact IH|].
    cbn [heap]. rewrite <- Hh. exact Hrep.
  - destruct (show_balance_frame uid w) as [-> _]. exact IH.
  - exact IH.
Qed.

(** *** Sums of entries *)

Lemma value_neg (x : Decimal) : (Dec.value (Dec.neg x) == - Dec.value x)%Q.
Proof.
  destruct x as [c e| |]; cbn [Dec.neg Dec.value]; [|reflexivity|reflexivity].
  rewrite inject_Z_opp. ring.
Qed.

Lemma entries_total_perm (l l' : list (string * string * Decimal)) :
  Permutation l l' -> (entries_total l == entries_total l')%Q.
Proof.
  induction 1 as [|t l l' _ IH|t t' l|l l' l'' _ IH1 _ IH2]; cbn [entries_total fold_right].
  - reflexivity.
  - fold (entries_total l). fold (entries_total l'). rewrite IH. reflexivity.
  - ring.
  - rewrite IH1. exact IH2.
Qed.

Lemma entries_total_swap (l : list (string * string * Decimal)) :
  (entries_total (map swap_entry l) == - entries_total l)%Q.
Proof.
  induction l as [|[[a b] x] l IH]; cbn [map entries_total fold_right swap_entry snd].
  - reflexivity.
  - fold (entries_total (map swap_entry l)). fold (entries_total l).
    rewrite IH, value_neg. ring.
Qed.

Lemma swap_entry_injective (t t' : string * string * Decimal) :
  swap_entry t = swap_entry t' -> t = t'.
Proof.
  destruct t as [[a b] x], t' as [[a' b'] x']. cbn. intros [= -> -> H].
  rewrite <- (neg_involutive x), H, neg_involutive. reflexivity.
Qed.

Lemma mirror_total (m : ExpenseManager) :
  ledger_shape m -> mirror m -> (balance_total m == 0)%Q.
Proof.
  intros Hshape Hm. unfold balance_total.
  assert (Hperm : Permutation (map swap_entry (all_entries m)) (all_entries m)).
  { apply NoDup_Permutation_bis.
    - apply Finite.Injective_map_NoDup; [intros t t'; apply swap_entry_injective|].
      apply (NoDup_map_inv pair_of), NoDup_all_entries, Hshape.
    - rewrite length_map. reflexivity.
    - intros t Ht. apply in_map_iff in Ht as ([[a b] x] & <- & Hin).
      apply (all_entries_entry m a b x Hshape) in Hin.
      destruct (Hm _ _ _ Hin) as [Hmirror _].
      apply (all_entries_entry m b a _ Hshape). exact Hmirror. }
  pose proof (entries_total_perm _ _ Hperm) as H.
  rewrite entries_total_swap in H.
  set (t := entries_total (all_entries m)) in *.
  assert (H2 : ((2 # 1) * t == 0)%Q).
  { assert (H3 : ((2 # 1) * t == t + t)%Q) by ring.
    rewrite H3. rewrite <- H at 1. ring. }
  apply Qmult_integral in H2 as [H2|H2]; [discriminate H2|exact H2].
Qed.

End BalanceFacts.

(** ** The percent split *)

Module PercentFacts.
Import MonadFacts DecFacts.
Local Open Scope Z_scope.

Lemma div_opp_l (c e c2 e2 : Z) :
  Dec.div (Dec.Fin (- c) e) (Dec.Fin c2 e2) =
  obind (Dec.div (Dec.Fin c e) (Dec.Fin c2 e2)) (fun d => Ret (Dec.neg d)).
Proof.
  unfold Dec.div. cbn [Dec.check_nans].
  destruct (Z.eqb_spec c2 0) as [_|Hc2].
  - destruct (Z.eqb_spec c 0) as [->|Hc]; [reflexivity|].
    destruct (Z.eqb_spec (- c) 0) as [|_]; [lia|reflexivity].
  - destruct (Z.eqb_spec c 0) as [->|Hc]; [reflexivity|].
    destruct (Z.eqb_spec (- c) 0) as [|_]; [lia|].
    rewrite Z.abs_opp, Z.sgn_opp. cbv zeta.
    destruct (_ =? 0).
    + destruct (Dec.strip_zeros _ _ _ _) as [c' e'].
      rewrite <- fix_fin_opp. f_equal. ring.
    + rewrite <- fix_fin_opp. f_equal. ring.
Qed.

(** [x / Decimal('100')] is exact for a number of 28 digits at most. *)
Lemma div_hundred_exact (c e : Z) :
  Z.abs c < 10 ^ 28 -> -1000 <= e <= 1000 ->
  exists cs es,
    Dec.div (Dec.Fin c e) hundred = Ret (Dec.Fin cs es) /\
    e - 2 <= es <= e /\ cs * 10 ^ (es - (e - 2)) = c.
Proof.
  assert (Hpos : forall c, 1 <= c < 10 ^ 28 -> -1000 <= e <= 1000 ->
    exists cs es,
      Dec.div (Dec.Fin c e) hundred = Ret (Dec.Fin cs es) /\
      e - 2 <= es <= e /\ cs * 10 ^ (es - (e - 2)) = c).
  { clear c. intros r Hr He.
    assert (Hd : Dec.ndigits r <= Dec.prec) by (apply ndigits_le; unfold Dec.prec in *; lia).
    destruct (ndigits_spec r ltac:(lia)) as [_ Hd'].
    change (Dec.div (Dec.Fin r e) hundred) with (Dec.div (Dec.Fin r e) (Dec.of_int 100)).
    set (shift := Dec.ndigits 100 - Dec.ndigits r + Dec.prec + 1).
    assert (Hs : 4 <= shift <= 32)
      by (unfold shift; change (Dec.ndigits 100) with 3; unfold Dec.prec in *; lia).
    rewrite (div_positive r e 100) by (fold shift; lia). fold shift. cbv zeta.
    assert (Hsplit : r * 10 ^ shift = (r * 10 ^ (shift - 2)) * 100).
    { replace shift with ((shift - 2) + 2) at 1 by lia. rewrite Z.pow_add_r by lia. lia. }
    rewrite Hsplit, Z.mod_mul, Z.div_mul by lia. cbn [Z.eqb].
    replace (shift - 2) with (Z.of_nat (Z.to_nat (shift - 2))) by lia.
    rewrite strip_zeros_shifted by lia.
    destruct (Dec.strip_zeros _ r _ e) as [cs es] eqn:Hstrip.
    apply strip_zeros_spec in Hstrip as (Hle & Hc & Hid).
    assert (Hes : e - 2 <= es <= e) by lia.
    replace (es - (e - shift + Z.of_nat (Z.to_nat (shift - 2)))) with (es - (e - 2)) in Hc by lia.
    pose proof (pow10_pos (es - (e - 2)) ltac:(lia)) as Hp.
    assert (Hcs : 1 <= cs <= r) by nia.
    exists cs, es. split.
    - apply fix_fin_small;
        [unfold Dec.prec in *; lia|unfold Dec.Etiny, Dec.Etop, Dec.Emin, Dec.Emax, Dec.prec; lia].
    - split; [exact Hes|lia]. }
  intros Hc He. destruct (Z.lt_trichotomy c 0) as [Hneg|[->|Hp]].
  - destruct (Hpos (- c) ltac:(lia) He) as (cs & es & Hdiv & Hes & Hval).
    exists (- cs), es. split; [|split; [exact Hes|lia]].
    rewrite <- (Z.opp_involutive c) at 1. unfold hundred in *.
    rewrite div_opp_l, Hdiv. reflexivity.
  - exists 0, e. split; [|split; lia].
    unfold Dec.div, hundred. cbn [Dec.check_nans Z.eqb]. rewrite Z.sub_0_r.
    apply fix_fin_zero. unfold Dec.Etiny, Dec.Emin, Dec.Emax, Dec.prec. lia.
  - apply Hpos; lia.
Qed.

Lemma value_mul (c1 e1 c2 e2 : Z) :
  (Dec.value (Dec.Fin (c1 * c2) (e1 + e2)) ==
   Dec.value (Dec.Fin c1 e1) * Dec.value (Dec.Fin c2 e2))%Q.
Proof.
  cbn [Dec.value]. rewrite inject_Z_mult, Qpower_plus by discriminate. ring.
Qed.

Lemma value_hundredth (c e cs es : Z) :
  e - 2 <= es <= e -> cs * 10 ^ (es - (e - 2)) = c ->
  (Dec.value (Dec.Fin cs es) * (100 # 1) == Dec.value (Dec.Fin c e))%Q.
Proof.
  intros Hes Hval.
  rewrite (value_scaled cs es (e - 2)) by lia.
  rewrite (value_scaled c e (e - 2)) by lia.
  rewrite Hval. replace (e - (e - 2)) with 2 by lia.
  rewrite inject_Z_mult. change (inject_Z (10 ^ 2)) with (100 # 1)%Q. ring.
Qed.

(** [(amount * percent) / Decimal('100')] without rounding. *)
Lemma percent_share_exact (c e p f : Z) :
  Z.abs (c * p) < 10 ^ 28 -> -500 <= e <= 500 -> -500 <= f <= 500 ->
  exists y,
    percent_share (Dec.Fin c e) (Dec.Fin p f) = Ret y /\ finite y /\
    (Dec.value y * (100 # 1) == Dec.value (Dec.Fin c e) * Dec.value (Dec.Fin p f))%Q.
Proof.
  intros Hcp He Hf. unfold percent_share.
  rewrite mul_exact
    by (unfold Dec.Etiny, Dec.Etop, Dec.Emin, Dec.Emax, Dec.prec; lia).
  cbn [obind].
  destruct (div_hundred_exact (c * p) (e + f) Hcp ltac:(lia)) as (cs & es & Hdiv & Hes & Hval).
  exists (Dec.Fin cs es). split; [exact Hdiv|]. split; [exact I|].
  rewrite (value_hundredth _ _ _ _ Hes Hval). apply value_mul.
Qed.

(** *** The shares behind a list of percent splits *)

Lemma objects_at_in (h : Heap) :
  forall (l : list addr) (objs : list SplitObj),
    objects_at h l objs ->
    forall a o, In a l -> h !! a = Some o -> In o objs.
Proof.
  induction 1 as [|a0 o0 l objs Ha0 _ IH]; intros a o Hin Ha; [contradiction|].
  destruct Hin as [->|Hin]; [left; congruence|right; eapply IH; eassumption].
Qed.

Lemma objects_related (R : SplitObj -> SplitObj -> Prop) (h h' : Heap) :
  forall (l : list addr) (objs : list SplitObj),
    objects_at h l objs ->
    (forall a o, In a l -> h !! a = Some o -> exists o', h' !! a = Some o' /\ R o o') ->
    exists objs', objects_at h' l objs' /\ Forall2 R objs objs'.
Proof.
  induction 1 as [|a o l objs Ha _ IH]; intros Hall.
  - exists []. split; constructor.
  - destruct (Hall a o (or_introl eq_refl) Ha) as (o' & Ha' & HR).
    destruct IH as (objs' & Hobjs' & HRs).
    { intros a1 o1 Hin. apply Hall. right. exact Hin. }
    exists (o' :: objs'). split; constructor; assumption.
Qed.

Lemma totals_related (amt : Decimal) (objs objs' : list SplitObj) :
  Forall2 (exact_percent_share amt) objs objs' ->
  (total_value objs' * (100 # 1) == Dec.value amt * total_percent objs)%Q.
Proof.
  induction 1 as [|o o' objs objs' (_ & _ & _ & Hv) _ IH];
    cbn [total_value total_percent fold_right].
  - ring.
  - fold (total_value objs'). fold (total_percent objs).
    rewrite Qmult_plus_distr_l, Qmult_plus_distr_r, Hv, IH. reflexivity.
Qed.

Lemma percent_loop_exact (c e : Z) (l : list addr) (h : Heap) (objs : list SplitObj) :
  -500 <= e <= 500 -> objects_at h l objs -> Forall (short_percent c) objs ->
  exists h' objs',
    for_each l (assign_percent_share (Dec.Fin c e)) h = (h', Ret tt) /\
    same_identities h h' /\
    objects_at h' l objs' /\
    Forall2 (exact_percent_share (Dec.Fin c e)) objs objs'.
Proof.
  intros He Hobjs Hshort.
  destruct (FactoryFacts.percent_loop (Dec.Fin c e) l h objs Hobjs)
    as (h' & r & Hrun & Hid & Hiff & Hamounts).
  assert (Hcomp : shares_computable (Dec.Fin c e) objs).
  { intros o pc Ho Hcls. rewrite List.Forall_forall in Hshort.
    destruct (Hshort o Ho) as (p & f & Hcls' & Hcp & Hf).
    assert (pc = Dec.Fin p f) by congruence. subst pc.
    destruct (percent_share_exact c e p f Hcp He Hf) as (y & Hy & _). eauto. }
  apply Hiff in Hcomp. subst r. specialize (Hamounts eq_refl).
  exists h'. destruct (objects_related (exact_percent_share (Dec.Fin c e)) h h' l objs Hobjs)
    as (objs' & Hobjs' & Hrel).
  { intros a o Hin Ha.
    destruct (Hamounts a o Ha) as (o' & Ha' & Hshare & _ & _).
    destruct (Hid a o Ha) as (o'' & Ha'' & Hcls & Husr).
    assert (o'' = o') by congruence. subst o''.
    exists o'. split; [exact Ha'|].
    pose proof (objects_at_in h l objs Hobjs a o Hin Ha) as Ho.
    rewrite List.Forall_forall in Hshort.
    destruct (Hshort o Ho) as (p & f & Hp & Hcp & Hf).
    destruct (percent_share_exact c e p f Hcp He Hf) as (y & Hy & Hfin & Hval).
    specialize (Hshare Hin _ Hp). assert (amount o' = y) by congruence.
    unfold exact_percent_share, percent_value. subst y.
    split; [exact Hcls|]. split; [exact Husr|]. split; [exact Hfin|].
    rewrite Hp. exact Hval. }
  exists objs'. auto.
Qed.

End PercentFacts.

(** ** The command loop *)

Module MainFacts.
Import MonadFacts DictFacts LedgerFacts FootprintFacts.

Lemma bind_raise_inv {S A B} (m : M S A) (k : A -> M S B) (s s' : S) (e : exn) :
  bind m k s = (s', Raise e) ->
  m s = (s', Raise e) \/ exists a s1, m s = (s1, Ret a) /\ k a s1 = (s', Raise e).
Proof.
  unfold bind. destruct (m s) as [s1 [a|e1]]; intros H; [right; eauto|].
  left. injection H as -> ->. reflexivity.
Qed.

(** *** What every iteration keeps *)

Lemma registry_kept_refl (w : World) : registry_kept w w.
Proof. split; [reflexivity|tauto]. Qed.

Lemma registry_kept_trans (w1 w2 w3 : World) :
  registry_kept w1 w2 -> registry_kept w2 w3 -> registry_kept w1 w3.
Proof.
  intros [H1 K1] [H2 K2]. split; [congruence|]. intros k. rewrite K2. apply K1.
Qed.

Lemma loop_invariant_refl (w : World) : loop_invariant w w.
Proof. split; [auto|apply registry_kept_refl]. Qed.

Lemma loop_invariant_trans (w1 w2 w3 : World) :
  loop_invariant w1 w2 -> loop_invariant w2 w3 -> loop_invariant w1 w3.
Proof.
  intros [H1 K1] [H2 K2]. split; [auto|eapply registry_kept_trans; eassumption].
Qed.

Lemma loop_bind {A B} (m : M World A) (k : A -> M World B) :
  keeps loop_invariant m -> (forall a, keeps loop_invariant (k a)) ->
  keeps loop_invariant (bind m k).
Proof. apply (keeps_bind _ loop_invariant_trans). Qed.

Lemma loop_lift {A} (o : outcome A) : keeps loop_invariant (lift o).
Proof. intros w. apply loop_invariant_refl. Qed.

Lemma loop_on_heap {A} (m : M Heap A) : keeps loop_invariant (on_heap m).
Proof.
  intros w. unfold on_heap. destruct (m (heap w)) as [h r]. cbn [fst]. split.
  - intros Hr. eapply reachable_step; [exact Hr|]. apply (step_objects h w).
  - split; [reflexivity|cbn; tauto].
Qed.

Lemma loop_show_balance (uid : option string) : keeps loop_invariant (show_balance uid).
Proof.
  intros w. split.
  - intros Hr. eapply reachable_step; [exact Hr|constructor].
  - destruct (show_balance_frame uid w) as [Hm _]. unfold registry_kept. rewrite Hm.
    split; [reflexivity|tauto].
Qed.

Lemma loop_add_expense t amt payer l md :
  keeps loop_invariant (add_expense t amt payer l md).
Proof.
  intros w. split.
  - intros Hr. eapply reachable_step; [exact Hr|constructor].
  - destruct (add_expense_effect t amt payer l md w) as (_ & Hum & Hrows & _).
    split; assumption.
Qed.

Lemma loop_comprehension {A} (f : Z -> M World A) (indices : list Z) :
  (forall i, keeps loop_invariant (f i)) -> keeps loop_invariant (comprehension f indices).
Proof.
  intros Hf. induction indices as [|i rest IH]; cbn [comprehension].
  - intros w. apply loop_invariant_refl.
  - apply loop_bind; [apply Hf|intros x].
    apply loop_bind; [exact IH|intros xs w; apply loop_invariant_refl].
Qed.

Section main.
Context (Decimal_of_str : string -> outcome Decimal) (int_of_str : string -> outcome Z).

Lemma loop_user_at (command : list string) (k : Z) : keeps loop_invariant (user_at command k).
Proof.
  unfold user_at.
  apply loop_bind; [intros w; apply loop_invariant_refl|intros m].
  apply loop_bind; [apply loop_lift|intros uid]. apply loop_lift.
Qed.

Lemma loop_new_splits (command : list string) (n : Z) (ty : string) :
  keeps loop_invariant (new_splits Decimal_of_str command n ty).
Proof.
  unfold new_splits.
  destruct (String.eqb ty "EQUAL").
  { apply loop_comprehension. intros i. unfold new_EqualSplit.
    apply loop_bind; [apply loop_user_at|intros u]. apply loop_on_heap. }
  destruct (String.eqb ty "EXACT").
  { apply loop_comprehension. intros i. unfold new_ExactSplit.
    apply loop_bind; [apply loop_user_at|intros u].
    apply loop_bind; [apply loop_lift|intros word].
    apply loop_bind; [apply loop_lift|intros x]. apply loop_on_heap. }
  destruct (String.eqb ty "PERCENT").
  { apply loop_comprehension. intros i. unfold new_PercentSplit.
    apply loop_bind; [apply loop_user_at|intros u].
    apply loop_bind; [apply loop_lift|intros word].
    apply loop_bind; [apply loop_lift|intros x]. apply loop_on_heap. }
  intros w. apply loop_invariant_refl.
Qed.

Lemma loop_try_body (command : list string) :
  keeps loop_invariant (try_body Decimal_of_str int_of_str command).
Proof.
  unfold try_body. destruct command as [|word rest]; [intros w; apply loop_invariant_refl|].
  destruct (String.eqb word "SHOW").
  { apply loop_bind; [|intros _ w; apply loop_invariant_refl].
    unfold show_command. destruct (Nat.eqb _ 1); [apply loop_show_balance|].
    apply loop_bind; [apply loop_lift|intros uid]. apply loop_show_balance. }
  destruct (String.eqb word "EXPENSE"); [|intros w; apply loop_invariant_refl].
  apply loop_bind; [|intros _ w; apply loop_invariant_refl].
  unfold expense_command.
  apply loop_bind; [apply loop_lift|intros paid_by].
  apply loop_bind; [apply loop_lift|intros word2].
  apply loop_bind; [apply loop_lift|intros amt].
  apply loop_bind; [apply loop_lift|intros word3].
  apply loop_bind; [apply loop_lift|intros num_users].
  apply loop_bind; [apply loop_lift|intros expense_type].
  apply loop_bind; [apply loop_new_splits|intros l].
  apply loop_bind; [apply loop_lift|intros t].
  apply loop_add_expense.
Qed.

Lemma iteration_world (command : list string) (w : World) :
  fst (iteration Decimal_of_str int_of_str command w) =
  fst (try_body Decimal_of_str int_of_str command w).
Proof.
  unfold iteration. destruct (try_body _ _ command w) as [w' [line|e]]; reflexivity.
Qed.

Lemma loop_keeps (inputs : list (list string)) :
  forall w,
    loop_invariant w (fst (loop Decimal_of_str int_of_str inputs w)) /\
    length (snd (loop Decimal_of_str int_of_str inputs w)) = length inputs.
Proof.
  induction inputs as [|command rest IH]; intros w; cbn [loop].
  - split; [apply loop_invariant_refl|reflexivity].
  - pose proof (loop_try_body command w) as Hone. rewrite <- iteration_world in Hone.
    destruct (iteration _ _ command w) as [w1 line]. cbn [fst] in Hone.
    destruct (IH w1) as [Hrest Hlen].
    destruct (loop _ _ rest w1) as [w' lines]. cbn [fst snd length] in *.
    split; [eapply loop_invariant_trans; eassumption|congruence].
Qed.
End main.

(** *** The splits a command builds *)

Lemma only_objects_refl (w : World) : only_objects w w.
Proof. repeat split; auto. Qed.

Lemma only_objects_trans (w1 w2 w3 : World) :
  only_objects w1 w2 -> only_objects w2 w3 -> only_objects w1 w3.
Proof.
  intros (Hm1 & Ho1 & Hh1) (Hm2 & Ho2 & Hh2). repeat split; try congruence. auto.
Qed.

Lemma objects_bind {A B} (m : M World A) (k : A -> M World B) :
  keeps only_objects m -> (forall a, keeps only_objects (k a)) ->
  keeps only_objects (bind m k).
Proof. apply (keeps_bind _ only_objects_trans). Qed.

Lemma objects_lift {A} (o : outcome A) : keeps only_objects (lift o).
Proof. intros w. apply only_objects_refl. Qed.

Lemma objects_alloc (o : SplitObj) : keeps only_objects (on_heap (alloc o)).
Proof.
  intros w. cbn. split; [reflexivity|]. split; [reflexivity|].
  intros a o' Ha. apply lookup_app_l_Some. exact Ha.
Qed.

Lemma objects_user_at (command : list string) (k : Z) :
  keeps only_objects (user_at command k).
Proof.
  unfold user_at.
  apply objects_bind; [intros w; apply only_objects_refl|intros m].
  apply objects_bind; [apply objects_lift|intros uid]. apply objects_lift.
Qed.

Lemma objects_comprehension {A} (f : Z -> M World A) (indices : list Z) :
  (forall i, keeps only_objects (f i)) -> keeps only_objects (comprehension f indices).
Proof.
  intros Hf. induction indices as [|i rest IH]; cbn [comprehension].
  - intros w. apply only_objects_refl.
  - apply objects_bind; [apply Hf|intros x].
    apply objects_bind; [exact IH|intros xs w; apply only_objects_refl].
Qed.

Lemma user_at_ok (command : list string) (k : Z) (w w1 : World) (u : User) :
  user_at command k w = (w1, Ret u) ->
  w1 = w /\ exists uid, Dict.get uid (user_map (mgr w)) = Some u.
Proof.
  unfold user_at, bind, get_mgr, lift, Dict.subscript.
  destruct (index command k) as [uid|]; [|discriminate].
  destruct (Dict.get uid (user_map (mgr w))) as [u'|] eqn:Hu; [|discriminate].
  intros [= <- <-]. eauto.
Qed.

Lemma alloc_registered (o : SplitObj) (uid : string) (w w1 : World) (a : addr) :
  Dict.get uid (user_map (mgr w)) = Some (user o) ->
  on_heap (alloc o) w = (w1, Ret a) ->
  exists o' uid', heap w1 !! a = Some o' /\
                  Dict.get uid' (user_map (mgr w1)) = Some (user o').
Proof.
  intros Hu [= <- <-]. exists o, uid. split; [|exact Hu].
  cbn [heap]. apply list_lookup_middle. reflexivity.
Qed.

Lemma comprehension_ok (f : Z -> M World addr) (indices : list Z) :
  (forall i, keeps only_objects (f i)) ->
  (forall i w w1 a, f i w = (w1, Ret a) ->
     exists o uid, heap w1 !! a = Some o /\ Dict.get uid (user_map (mgr w1)) = Some (user o)) ->
  forall w w1 l, comprehension f indices w = (w1, Ret l) -> registered_splits w1 l.
Proof.
  intros Hkeeps Hok. induction indices as [|i rest IH]; intros w w1 l; cbn [comprehension].
  - intros [= <- <-] a [].
  - intros H. apply bind_ret_inv in H as (x & w2 & Hx & H).
    apply bind_ret_inv in H as (xs & w3 & Hxs & H). injection H as <- <-.
    pose proof (objects_comprehension f rest Hkeeps w2) as (Hm & _ & Hh).
    rewrite Hxs in Hm, Hh. cbn [fst] in Hm, Hh.
    intros a [<-|Ha].
    + destruct (Hok _ _ _ _ Hx) as (o & uid & Ho & Hu).
      exists o, uid. split; [apply Hh, Ho|rewrite Hm; exact Hu].
    + apply (IH _ _ _ Hxs a Ha).
Qed.

Section splits.
Context (Decimal_of_str : string -> outcome Decimal).

Lemma objects_new_splits (command : list string) (n : Z) (ty : string) :
  keeps only_objects (new_splits Decimal_of_str command n ty).
Proof.
  unfold new_splits.
  destruct (String.eqb ty "EQUAL").
  { apply objects_comprehension. intros i. unfold new_EqualSplit.
    apply objects_bind; [apply objects_user_at|intros u]. apply objects_alloc. }
  destruct (String.eqb ty "EXACT").
  { apply objects_comprehension. intros i. unfold new_ExactSplit.
    apply objects_bind; [apply objects_user_at|intros u].
    apply objects_bind; [apply objects_lift|intros word].
    apply objects_bind; [apply objects_lift|intros x]. apply objects_alloc. }
  destruct (String.eqb ty "PERCENT").
  { apply objects_comprehension. intros i. unfold new_PercentSplit.
    apply objects_bind; [apply objects_user_at|intros u].
    apply objects_bind; [apply objects_lift|intros word].
    apply objects_bind; [apply objects_lift|intros x]. apply objects_alloc. }
  intros w. apply only_objects_refl.
Qed.

Lemma new_splits_ok (command : list string) (n : Z) (ty : string) (w w1 : World)
    (l : list addr) :
  new_splits Decimal_of_str command n ty w = (w1, Ret l) -> registered_splits w1 l.
Proof.
  unfold new_splits.
  destruct (String.eqb ty "EQUAL").
  { apply comprehension_ok.
    - intros i. unfold new_EqualSplit.
      apply objects_bind; [apply objects_user_at|intros u]. apply objects_alloc.
    - intros i w0 w2 a H. unfold new_EqualSplit in H.
      apply bind_ret_inv in H as (u & w3 & Hu & H).
      apply user_at_ok in Hu as (-> & uid & Hu).
      eapply alloc_registered; [|exact H]; exact Hu. }
  destruct (String.eqb ty "EXACT").
  { apply comprehension_ok.
    - intros i. unfold new_ExactSplit.
      apply objects_bind; [apply objects_user_at|intros u].
      apply objects_bind; [apply objects_lift|intros word].
      apply objects_bind; [apply objects_lift|intros x]. apply objects_alloc.
    - intros i w0 w2 a H. unfold new_ExactSplit in H.
      apply bind_ret_inv in H as (u & w3 & Hu & H).
      apply user_at_ok in Hu as (-> & uid & Hu).
      apply bind_ret_inv in H as (word & w4 & Hword & H).
      apply bind_ret_inv in H as (x & w5 & Hx & H).
      unfold lift in Hword, Hx. injection Hword as <- _. injection Hx as <- _.
      eapply alloc_registered; [|exact H]; exact Hu. }
  destruct (String.eqb ty "PERCENT").
  { apply comprehension_ok.
    - intros i. unfold new_PercentSplit.
      apply objects_bind; [apply objects_user_at|intros u].
      apply objects_bind; [apply objects_lift|intros word].
      apply objects_bind; [apply objects_lift|intros x]. apply objects_alloc.
    - intros i w0 w2 a H. unfold new_PercentSplit in H.
      apply bind_ret_inv in H as (u & w3 & Hu & H).
      apply user_at_ok in Hu as (-> & uid & Hu).
      apply bind_ret_inv in H as (word & w4 & Hword & H).
      apply bind_ret_inv in H as (x & w5 & Hx & H).
      unfold lift in Hword, Hx. injection Hword as <- _. injection Hx as <- _.
      eapply alloc_registered; [|exact H]; exact Hu. }
  intros [= <- <-] a [].
Qed.
End splits.

(** *** The exceptions of the balance updates *)

Lemma ensure_entry_ready (a b : string) (w : World) :
  Dict.get a (balance_sheet (mgr w)) <> None ->
  exists w1, ensure_entry a b w = (w1, Ret tt) /\ same_rows w w1 /\
             entry (mgr w1) a b <> None.
Proof.
  intros Hrow. rewrite ensure_entry_spec.
  destruct (Dict.get a (balance_sheet (mgr w))) as [r|] eqn:Hr; [|contradiction].
  destruct (Dict.contains b r) eqn:Hb.
  - exists w. split; [reflexivity|]. split; [apply same_rows_refl|].
    unfold entry. rewrite Hr. unfold Dict.contains in Hb.
    destruct (Dict.get b r); [discriminate|discriminate].
  - eexists. split; [reflexivity|]. split; [apply same_rows_assign|].
    unfold with_sheet. cbn [mgr].
    rewrite (entry_assign (mgr w) a b a b (Dec.of_int 0) _ eq_refl) by (rewrite Hr; discriminate).
    rewrite !String.eqb_refl. discriminate.
Qed.

Lemma update_entry_outcome (op : Decimal -> Decimal -> outcome Decimal) (a b : string)
    (x : Decimal) (w w' : World) (r : outcome unit) :
  entry (mgr w) a b <> None ->
  update_entry op a b x w = (w', r) ->
  same_rows w w' /\ forall e, r = Raise e -> exists v, op v x = Raise e.
Proof.
  intros Hentry H. split.
  - pose proof (rows_update_entry op a b x w) as Hk. rewrite H in Hk. exact Hk.
  - rewrite update_entry_spec in H. unfold entry in Hentry.
    destruct (Dict.get a (balance_sheet (mgr w))) as [row|]; [|contradiction].
    destruct (Dict.get b row) as [v|]; [|contradiction].
    destruct (op v x) as [v'|e'] eqn:Hop; injection H as <- <-; intros e [= <-].
    exists v. exact Hop.
Qed.

Lemma bump_outcome (op : Decimal -> Decimal -> outcome Decimal) (a b : string)
    (x : Decimal) (w w' : World) (e : exn) :
  Dict.get a (balance_sheet (mgr w)) <> None ->
  (forall v e', op v x = Raise e' -> arithmetic e') ->
  forall (k : M World unit),
    (forall w1, same_rows w w1 -> k w1 = (w', Raise e) -> arithmetic e) ->
    (do _ <- ensure_entry a b; do _ <- update_entry op a b x; k) w = (w', Raise e) ->
    arithmetic e.
Proof.
  intros Hrow Hop k Hk H.
  destruct (ensure_entry_ready a b w Hrow) as (w1 & Hens & Hs1 & Hentry).
  rewrite (bind_ret_eq _ _ _ _ _ Hens) in H.
  apply bind_raise_inv in H as [H|([] & w2 & Hupd & H)].
  - destruct (update_entry_outcome op a b x w1 w' _ Hentry H) as [_ Hraise].
    destruct (Hraise e eq_refl) as (v & Hv). apply (Hop _ _ Hv).
  - destruct (update_entry_outcome op a b x w1 w2 _ Hentry Hupd) as [Hs2 _].
    apply (Hk w2); [eapply same_rows_trans; eassumption|exact H].
Qed.

Lemma apply_split_raises (p : string) (a : addr) (o : SplitObj) (w w' : World) (e : exn) :
  heap w !! a = Some o ->
  Dict.get p (balance_sheet (mgr w)) <> None ->
  Dict.get (user_id (user o)) (balance_sheet (mgr w)) <> None ->
  apply_split p a w = (w', Raise e) -> arithmetic e.
Proof.
  intros Ho Hp Hq H. unfold apply_split in H.
  assert (Hread : on_heap (read a) w = (w, Ret o)) by (rewrite on_heap_read, Ho; reflexivity).
  rewrite (bind_ret_eq _ _ _ _ _ Hread) in H.
  revert H. apply bump_outcome; [exact Hp|intros v e'; apply DecFacts.add_raises|].
  intros w1 [_ Hrows] H.
  assert (Hq1 : Dict.get (user_id (user o)) (balance_sheet (mgr w1)) <> None)
    by (rewrite Hrows; exact Hq).
  destruct (ensure_entry_ready (user_id (user o)) p w1 Hq1) as (w2 & Hens & _ & Hentry).
  rewrite (bind_ret_eq _ _ _ _ _ Hens) in H.
  destruct (update_entry_outcome _ _ _ _ _ _ _ Hentry H) as [_ Hraise].
  destruct (Hraise e eq_refl) as (v & Hv). apply (DecFacts.sub_raises _ _ _ Hv).
Qed.

Lemma for_each_apply_split_raises (p : string) (l : list addr) :
  forall (w w' : World) (e : exn),
    Dict.get p (balance_sheet (mgr w)) <> None ->
    (forall a, In a l -> exists o, heap w !! a = Some o /\
       Dict.get (user_id (user o)) (balance_sheet (mgr w)) <> None) ->
    for_each l (apply_split p) w = (w', Raise e) -> arithmetic e.
Proof.
  induction l as [|a l IH]; intros w w' e Hp Hl H; cbn [for_each] in H; [discriminate|].
  destruct (Hl a (or_introl eq_refl)) as (o & Ho & Hq).
  apply bind_raise_inv in H as [H|([] & w1 & Hone & H)].
  - apply (apply_split_raises p a o w w' e Ho Hp Hq H).
  - pose proof (rows_apply_split p a w) as [(Hh & _) Hrows]. rewrite Hone in Hh, Hrows.
    cbn [fst] in Hh, Hrows.
    apply (IH w1 w' e); [rewrite Hrows; exact Hp| |exact H].
    intros a1 Ha1. destruct (Hl a1 (or_intror Ha1)) as (o1 & Ho1 & Hq1).
    exists o1. rewrite Hh, Hrows. auto.
Qed.

(** *** A failing command *)

Section failing.
Context (Decimal_of_str : string -> outcome Decimal) (int_of_str : string -> outcome Z).

Lemma add_expense_fails t amt payer (l : list addr) md (w w' : World) (e : exn) :
  registry_consistent (mgr w) -> registered_splits w l ->
  add_expense t amt payer l md w = (w', Raise e) ->
  mgr w' = mgr w \/ failed_in_update w w' e.
Proof.
  intros (Hid & Hrows & _) Hl H. rewrite add_expense_unfold in H.
  destruct (Dict.get payer (user_map (mgr w))) as [u|] eqn:Hu;
    [|injection H as <- _; left; reflexivity].
  pose proof (touch_create_expense l t amt u md (heap w)) as [_ Htouch].
  destruct (create_expense t amt u l md (heap w)) as [h1 [[ex|]|e1]] eqn:Hcreate;
    cbn [fst] in Htouch.
  - right. split.
    + destruct (create_expense_splits _ _ _ _ _ _ _ _ Hcreate) as (Hsplits & _).
      rewrite Hsplits in H. revert H. apply for_each_apply_split_raises.
      * cbn [mgr balance_sheet]. rewrite Hrows, Hu. discriminate.
      * intros a Ha. destruct (Hl a Ha) as (o & uid & Ho & Huid).
        destruct (Htouch a o Ho) as (o' & Ho' & _ & Husr & _).
        exists o'. split; [exact Ho'|]. cbn [mgr balance_sheet].
        rewrite Husr, (Hid _ _ Huid), Hrows, Huid. discriminate.
    + exists ex.
      pose proof (rows_for_each_apply_split payer (splits ex)
                    (mkWorld h1 (mkManager (expenses (mgr w) ++ [ex]) (user_map (mgr w))
                                   (balance_sheet (mgr w))) (stdout w)))
        as [(_ & _ & Hexp & _) _].
      rewrite H in Hexp. exact Hexp.
  - discriminate.
  - injection H as <- _. left. reflexivity.
Qed.

Lemma expense_command_fails (command : list string) (w w' : World) (e : exn) :
  registry_consistent (mgr w) ->
  expense_command Decimal_of_str int_of_str command w = (w', Raise e) ->
  mgr w' = mgr w \/ failed_in_update w w' e.
Proof.
  intros Hreg H. unfold expense_command in H.
  repeat (apply bind_raise_inv in H as [H|(? & ? & Hx & H)];
          [unfold lift in H; injection H as <- _; left; reflexivity
          |unfold lift in Hx; injection Hx as <- _]).
  apply bind_raise_inv in H as [H|(l & w1 & Hl & H)].
  { pose proof (objects_new_splits Decimal_of_str command x3 x4 w) as (Hm & _).
    rewrite H in Hm. left. exact Hm. }
  pose proof (objects_new_splits Decimal_of_str command x3 x4 w) as (Hm & _).
  rewrite Hl in Hm. cbn [fst] in Hm.
  apply new_splits_ok in Hl.
  apply bind_raise_inv in H as [H|(t & w2 & Ht & H)].
  { unfold lift in H. injection H as <- _. left. exact Hm. }
  unfold lift in Ht. injection Ht as <- _.
  unfold failed_in_update. rewrite <- Hm.
  apply (add_expense_fails _ _ _ _ _ _ _ _ ltac:(rewrite Hm; exact Hreg) Hl H).
Qed.

Lemma try_body_result (command : list string) (w w' : World) (line : option MainLine) :
  try_body Decimal_of_str int_of_str command w = (w', Ret line) ->
  line = None \/ line = Some InvalidCommand /\ w' = w.
Proof.
  unfold try_body. destruct command as [|word rest]; [intros [= <- <-]; auto|].
  destruct (String.eqb word "SHOW").
  { intros H. apply bind_ret_inv in H as (? & ? & _ & [= <- <-]). auto. }
  destruct (String.eqb word "EXPENSE").
  { intros H. apply bind_ret_inv in H as (? & ? & _ & [= <- <-]). auto. }
  intros [= <- <-]. auto.
Qed.

Lemma iteration_fails (command : list string) (w w' : World) (e : exn) :
  registry_consistent (mgr w) ->
  iteration Decimal_of_str int_of_str command w = (w', Some (Error e)) ->
  mgr w' = mgr w \/ failed_in_update w w' e.
Proof.
  intros Hreg H. unfold iteration in H.
  destruct (try_body Decimal_of_str int_of_str command w) as [w1 [line|e1]] eqn:Hbody.
  - apply try_body_result in Hbody as [->|[-> _]]; discriminate.
  - injection H as <- <-. unfold try_body in Hbody.
    destruct command as [|word rest]; [discriminate|].
    destruct (String.eqb word "SHOW").
    { left.
      apply bind_raise_inv in Hbody as [Hbody|(? & ? & _ & Hbody)]; [|discriminate].
      unfold show_command in Hbody. destruct (Nat.eqb _ 1).
      - pose proof (show_balance_frame None w) as [Hm _]. rewrite Hbody in Hm. exact Hm.
      - apply bind_raise_inv in Hbody as [Hbody|(uid & w2 & Huid & Hbody)].
        + unfold lift in Hbody. injection Hbody as <- _. reflexivity.
        + unfold lift in Huid. injection Huid as <- _.
          pose proof (show_balance_frame (Some uid) w) as [Hm _].
          rewrite Hbody in Hm. exact Hm. }
    destruct (String.eqb word "EXPENSE"); [|discriminate].
    apply bind_raise_inv in Hbody as [Hbody|(? & ? & _ & Hbody)]; [|discriminate].
    apply (expense_command_fails _ _ _ _ Hreg Hbody).
Qed.

(** The failures that are known before a command gets to [add_expense]. *)
Lemma unreadable_amount (payer word2 : string) (rest : list string) (w : World) (e : exn) :
  Decimal_of_str word2 = Raise e ->
  iteration Decimal_of_str int_of_str ("EXPENSE"%string :: payer :: word2 :: rest) w =
  (w, Some (Error e)).
Proof.
  intros H. unfold iteration, try_body, expense_command, bind, lift. cbn.
  change (Z.to_nat 1) with 1%nat. change (Z.to_nat 2) with 2%nat. cbn [nth_error].
  rewrite H. reflexivity.
Qed.

Lemma unreadable_count (payer word2 word3 : string) (rest : list string) (w : World)
    (amt : Decimal) (e : exn) :
  Decimal_of_str word2 = Ret amt -> int_of_str word3 = Raise e ->
  iteration Decimal_of_str int_of_str ("EXPENSE"%string :: payer :: word2 :: word3 :: rest) w =
  (w, Some (Error e)).
Proof.
  intros H2 H3. unfold iteration, try_body, expense_command, bind, lift. cbn.
  change (Z.to_nat 1) with 1%nat. change (Z.to_nat 2) with 2%nat.
  change (Z.to_nat 3) with 3%nat. cbn [nth_error].
  rewrite H2, H3. reflexivity.
Qed.

Lemma zero_users_equal (payer word2 word3 : string) (w : World) (amt : Decimal) :
  Decimal_of_str word2 = Ret amt -> int_of_str word3 = Ret 0%Z ->
  exists e,
    iteration Decimal_of_str int_of_str
      ["EXPENSE"%string; payer; word2; word3; "EQUAL"%string] w = (w, Some (Error e)).
Proof.
  intros H2 H3.
  assert (Hrun : exists e,
            add_expense (Member EQUAL) amt payer [] None w = (w, Raise e)).
  { rewrite add_expense_unfold.
    destruct (Dict.get payer (user_map (mgr w))) as [u|]; [|eauto].
    destruct (FactoryFacts.equal_share_zero_cases amt) as (e & He & _).
    exists e. unfold create_expense. cbn [build_expense].
    change (Z.of_nat (length [])) with 0%Z. unfold bind, lift. rewrite He.
    destruct w; reflexivity. }
  destruct Hrun as (e & Hrun). exists e.
  assert (Hcmd : expense_command Decimal_of_str int_of_str
                   ["EXPENSE"%string; payer; word2; word3; "EQUAL"%string] w =
                 (w, Raise e)).
  { unfold expense_command.
    rewrite (bind_ret_eq _ _ w w payer) by reflexivity.
    rewrite (bind_ret_eq _ _ w w word2) by reflexivity.
    rewrite (bind_ret_eq _ _ w w amt) by (unfold lift; rewrite H2; reflexivity).
    rewrite (bind_ret_eq _ _ w w word3) by reflexivity.
    rewrite (bind_ret_eq _ _ w w 0%Z) by (unfold lift; rewrite H3; reflexivity).
    rewrite (bind_ret_eq _ _ w w "EQUAL"%string) by reflexivity.
    rewrite (bind_ret_eq _ _ w w []) by reflexivity.
    rewrite (bind_ret_eq _ _ w w EQUAL) by reflexivity.
    exact Hrun. }
  unfold iteration, try_body.
  change (String.eqb "EXPENSE" "SHOW") with false.
  change (String.eqb "EXPENSE" "EXPENSE") with true. cbv iota.
  rewrite (bind_raise_eq _ _ _ _ _ Hcmd). reflexivity.
Qed.
End failing.

End MainFacts.

(** ** Amounts with two decimal places *)

Module MoneyFacts.
Import MonadFacts DecFacts.
Local Open Scope Z_scope.

Lemma cents_small (c e : Z) : -2 <= e <= 0 -> Z.abs c <= Z.abs (c * 10 ^ (e + 2)).
Proof.
  intros He. pose proof (pow10_pos (e + 2) ltac:(lia)) as Hp.
  rewrite Z.abs_mul, (Z.abs_eq (10 ^ (e + 2))) by lia. nia.
Qed.

Lemma cents_bound_nonneg (xs : list Decimal) : 0 <= cents_bound xs.
Proof.
  induction xs as [|x xs IH]; cbn [cents_bound fold_right]; [lia|].
  fold (cents_bound xs). lia.
Qed.

Lemma add_two_decimals (x y : Decimal) :
  two_decimals x -> two_decimals y -> Z.abs (cents x) + Z.abs (cents y) < 10 ^ 28 ->
  exists t, Dec.add x y = Ret t /\ two_decimals t /\ cents t = cents x + cents y.
Proof.
  destruct x as [c1 e1| |]; try contradiction. destruct y as [c2 e2| |]; try contradiction.
  cbn [two_decimals cents]. intros H1 H2 Hb.
  set (m := Z.min e1 e2).
  assert (Hm : -2 <= m <= 0) by (unfold m; lia).
  assert (Hc : (c1 * 10 ^ (e1 - m) + c2 * 10 ^ (e2 - m)) * 10 ^ (m + 2) =
               c1 * 10 ^ (e1 + 2) + c2 * 10 ^ (e2 + 2)).
  { rewrite Z.mul_add_distr_r, <- !Z.mul_assoc, <- !Z.pow_add_r by (unfold m; lia).
    replace (e1 - m + (m + 2)) with (e1 + 2) by lia.
    replace (e2 - m + (m + 2)) with (e2 + 2) by lia. reflexivity. }
  exists (Dec.Fin (c1 * 10 ^ (e1 - m) + c2 * 10 ^ (e2 - m)) m).
  split; [|split; [exact Hm|exact Hc]].
  apply add_exact; fold m.
  - pose proof (cents_small (c1 * 10 ^ (e1 - m) + c2 * 10 ^ (e2 - m)) m Hm) as Hs.
    rewrite Hc in Hs. unfold Dec.prec. lia.
  - unfold Dec.Etiny, Dec.Etop, Dec.Emin, Dec.Emax, Dec.prec. lia.
Qed.

Lemma sum_two_decimals (f : SplitObj -> outcome Decimal) (g : SplitObj -> Decimal) :
  forall (objs : list SplitObj) (acc : Decimal),
    two_decimals acc ->
    Forall (fun o => f o = Ret (g o) /\ two_decimals (g o)) objs ->
    Z.abs (cents acc) + cents_bound (map g objs) < 10 ^ 28 ->
    exists t, sum_of acc f objs = Ret t /\ two_decimals t /\
              cents t = cents acc + total_cents (map g objs).
Proof.
  induction objs as [|o objs IH]; intros acc Hacc Hall Hb; cbn [sum_of map total_cents fold_right].
  - exists acc. split; [reflexivity|]. split; [exact Hacc|lia].
  - apply Forall_cons_iff in Hall as [[Hf Hg] Hall].
    cbn [map cents_bound fold_right] in Hb. fold (cents_bound (map g objs)) in Hb.
    fold (total_cents (map g objs)).
    assert (Hpos : 0 <= cents_bound (map g objs)).
    { apply cents_bound_nonneg. }
    destruct (add_two_decimals acc (g o) Hacc Hg ltac:(lia)) as (t & Ht & Ht2 & Htc).
    rewrite Hf. cbn [obind]. rewrite Ht. cbn [obind].
    destruct (IH t Ht2 Hall ltac:(lia)) as (t' & Hsum & Ht'2 & Ht'c).
    exists t'. split; [exact Hsum|]. split; [exact Ht'2|lia].
Qed.

(** For amounts in hundredths the tolerance of 0.01 admits no
    difference at all. *)
Lemma within_tolerance_two_decimals (x y : Decimal) :
  two_decimals x -> two_decimals y -> Z.abs (cents x) + Z.abs (cents y) < 10 ^ 28 ->
  within_tolerance x y = Ret (cents x =? cents y).
Proof.
  intros Hx Hy Hb. unfold within_tolerance.
  assert (Hsub : Dec.sub x y = Dec.add x (Dec.neg y)).
  { destruct x as [? ?| |]; try contradiction. destruct y as [? ?| |]; try contradiction.
    reflexivity. }
  assert (Hny : two_decimals (Dec.neg y) /\ cents (Dec.neg y) = - cents y).
  { destruct y as [c e| |]; try contradiction. cbn. split; [exact Hy|ring]. }
  destruct Hny as [Hny Hnc].
  destruct (add_two_decimals x (Dec.neg y) Hx Hny ltac:(lia)) as (t & Ht & Ht2 & Htc).
  rewrite Hsub, Ht. cbn [obind].
  destruct t as [d m| |]; try contradiction. cbn [two_decimals cents] in Ht2, Htc.
  pose proof (cents_small d m Ht2) as Hsmall.
  pose proof (pow10_pos (m + 2) ltac:(lia)) as Hp.
  unfold Dec.abs.
  rewrite fix_fin_small
    by (rewrite ?Z.abs_idemp;
        unfold Dec.Etiny, Dec.Etop, Dec.Emin, Dec.Emax, Dec.prec; lia).
  cbn [obind]. unfold Dec.lt, tolerance. cbn [Dec.is_nan orb]. f_equal.
  unfold Dec.cmp. replace (Z.min m (-2)) with (-2) by lia.
  replace (m - -2) with (m + 2) by lia. replace (-2 - -2) with 0 by lia.
  change (1 * 10 ^ 0) with 1.
  destruct (Z.compare_spec (Z.abs d * 10 ^ (m + 2)) 1) as [H|H|H];
    destruct (Z.eqb_spec (cents x) (cents y)) as [E|E]; try reflexivity; nia.
Qed.

Lemma total_cents_bound (xs : list Decimal) : Z.abs (total_cents xs) <= cents_bound xs.
Proof.
  induction xs as [|x xs IH]; cbn [total_cents cents_bound fold_right]; [lia|].
  fold (total_cents xs). fold (cents_bound xs). lia.
Qed.

(** The sum Python computes for [sum(... for split in splits)], starting
    from the integer 0. *)
Lemma sum_of_two_decimals (f : SplitObj -> outcome Decimal) (g : SplitObj -> Decimal)
    (objs : list SplitObj) :
  Forall (fun o => f o = Ret (g o) /\ two_decimals (g o)) objs ->
  cents_bound (map g objs) < 10 ^ 28 ->
  exists t, sum_of (Dec.of_int 0) f objs = Ret t /\ two_decimals t /\
            cents t = total_cents (map g objs).
Proof.
  intros Hall Hb.
  destruct (sum_two_decimals f g objs (Dec.of_int 0)) as (t & Ht & Ht2 & Htc).
  - cbn. lia.
  - exact Hall.
  - cbn [Dec.of_int cents]. rewrite Z.mul_0_l. cbn [Z.abs]. lia.
  - exists t. split; [exact Ht|]. split; [exact Ht2|].
    rewrite Htc. cbn [Dec.of_int cents]. lia.
Qed.

(** *** The numbers behind the hundredths *)

Lemma value_cents (x : Decimal) :
  two_decimals x -> (Dec.value x == inject_Z (cents x) * (10 # 1) ^ (-2))%Q.
Proof.
  destruct x as [c e| |]; try contradiction. cbn [two_decimals cents]. intros He.
  rewrite (value_scaled c e (-2)) by lia.
  replace (e - -2) with (e + 2) by lia. reflexivity.
Qed.

Lemma total_value_cents (objs : list SplitObj) :
  Forall (fun o => two_decimals (amount o)) objs ->
  (total_value objs == inject_Z (total_cents (map amount objs)) * (10 # 1) ^ (-2))%Q.
Proof.
  induction 1 as [|o objs Ho _ IH]; cbn [total_value total_cents fold_right map].
  - reflexivity.
  - fold (total_value objs). fold (total_cents (map amount objs)).
    rewrite IH, (value_cents _ Ho), inject_Z_plus. ring.
Qed.

Lemma total_percent_cents (objs : list SplitObj) :
  Forall (fun o => get_percent o = Ret (percent_of o) /\ two_decimals (percent_of o)) objs ->
  (total_percent objs == inject_Z (total_cents (map percent_of objs)) * (10 # 1) ^ (-2))%Q.
Proof.
  induction 1 as [|o objs [Hp Ho] _ IH]; cbn [total_percent total_cents fold_right map].
  - reflexivity.
  - fold (total_percent objs). fold (total_cents (map percent_of objs)).
    rewrite IH, inject_Z_plus.
    assert (Hv : (percent_value o == Dec.value (percent_of o))%Q).
    { unfold percent_value, percent_of, get_percent in *.
      destruct (cls o); try discriminate. reflexivity. }
    rewrite Hv, (value_cents _ Ho). ring.
Qed.

Lemma cents_equal (a b : Z) :
  a = b <-> (inject_Z a * (10 # 1) ^ (-2) == inject_Z b * (10 # 1) ^ (-2))%Q.
Proof.
  split; [intros ->; reflexivity|].
  intros H. apply Qmult_inj_r in H; [|discriminate].
  unfold Qeq in H. cbn in H. lia.
Qed.

End MoneyFacts.

(** * The claims *)

Section Claims.
Import Scenario.
Local Open Scope string_scope.

(** ** C1: failures on unknown users *)

(** C1, as stated, fails: when a split names a user without a balance
    row, the [KeyError] surfaces after the expense has been appended to
    the log and the payer's row has been written. *)
Lemma unknown_participant_partial_write :
  let run := add_expense (Member EXACT) (Dec.Fin 10 0) "u1" [0%nat] None unknown_participant in
  snd run = Raise (KeyError "u9") /\
  expenses (mgr unknown_participant) = [] /\
  length (expenses (mgr (fst run))) = 1%nat /\
  entry (mgr unknown_participant) "u1" "u9" = None /\
  entry (mgr (fst run)) "u1" "u9" = Some (Dec.Fin 10 0).
Proof. vm_compute. repeat split. Qed.

(** C1 (amended): a call to [add_expense] whose payer id is unknown
    raises [KeyError] before anything is written: the expense log, the
    balance table, the split objects and the output are all unchanged. *)
Theorem add_expense_unknown_payer t amt payer l md (w : World) :
  Dict.get payer (user_map (mgr w)) = None ->
  add_expense t amt payer l md w = (w, Raise (KeyError payer)).
Proof.
  intros H. unfold add_expense, bind, get_mgr, lift, Dict.subscript. rewrite H. reflexivity.
Qed.

Lemma add_expense_unknown_payer_witness :
  add_expense (Member EXACT) (Dec.Fin 10 0) "u7" [0%nat] None unknown_participant
  = (unknown_participant, Raise (KeyError "u7")).
Proof. apply add_expense_unknown_payer. reflexivity. Defined.

(** ** C2: registering a user id again *)

(** C2: [add_user] on a registered id overwrites the identity record,
    and it also replaces the user's balance row by an empty one, so every
    balance entry of that user is lost (the mirror entries in the other
    rows stay). *)
Theorem add_user_again_clears_row (u : User) (w : World) :
  let w' := fst (add_user u w) in
  snd (add_user u w) = Ret tt /\
  Dict.get (user_id u) (user_map (mgr w')) = Some u /\
  Dict.get (user_id u) (balance_sheet (mgr w')) = Some [] /\
  forall b, entry (mgr w') (user_id u) b = None.
Proof.
  cbn. split; [reflexivity|]. split; [apply DictFacts.get_set_eq|].
  split; [apply DictFacts.get_set_eq|].
  intros b. unfold entry. cbn. rewrite DictFacts.get_set_eq. reflexivity.
Qed.

(** The failing input of C2, evaluated. *)
Example reregistration_loses_balance :
  entry (mgr reregistration_1) "u1" "u2" = Some (Dec.Fin 10 0) /\
  entry (mgr reregistration_1) "u2" "u1" = Some (Dec.Fin (-10) 0) /\
  entry (mgr reregistration_2) "u1" "u2" = None /\
  entry (mgr reregistration_2) "u2" "u1" = Some (Dec.Fin (-10) 0).
Proof. vm_compute. repeat split. Qed.

(** ** C3: ledger antisymmetry *)

(** C3, as stated, fails: after u1 pays 10 for u2, registers again and
    pays 5 for u2, all calls having returned normally, the table holds
    [balance[u1][u2] = 5] and [balance[u2][u1] = -15]. *)
Lemma reregistration_breaks_antisymmetry :
  reachable reregistration_3 /\
  entry (mgr reregistration_3) "u1" "u2" = Some (Dec.Fin 5 0) /\
  entry (mgr reregistration_3) "u2" "u1" = Some (Dec.Fin (-15) 0) /\
  ~ antisymmetric (mgr reregistration_3).
Proof.
  split.
  { unfold reregistration_3. eapply reachable_step; [|apply step_add_expense].
    unfold reregistration_2. eapply reachable_step; [|apply step_add_user].
    unfold reregistration_1. eapply reachable_step; [|apply step_add_expense].
    apply LedgerFacts.reachable_for_each_add_user. constructor. }
  split; [vm_compute; reflexivity|]. split; [vm_compute; reflexivity|].
  intros H. destruct (H "u1" "u2" (Dec.Fin 5 0) ltac:(vm_compute; reflexivity)) as (y & Hy & Heq).
  vm_compute in Hy. inversion Hy; subst y. vm_compute in Heq. discriminate.
Qed.

(** C3 (amended): in every state reached by registering each user once
    and by [add_expense] calls that return normally with share amounts
    that are finite and fit the 28-digit context, every entry of the
    balance table has a mirror entry that is its negation, so
    [balance[a][b] == -balance[b][a]] holds; and each split applied
    without an exception keeps this, updating the two entries as a pair. *)
Theorem orderly_ledger_antisymmetric (w : World) :
  orderly w ->
  antisymmetric (mgr w) /\
  (forall a b x, entry (mgr w) a b = Some x -> entry (mgr w) b a = Some (Dec.neg x)) /\
  (forall p a w',
     (forall o, heap w !! a = Some o -> Dec.representable (amount o)) ->
     apply_split p a w = (w', Ret tt) ->
     antisymmetric (mgr w') /\
     forall a b x, entry (mgr w') a b = Some x -> entry (mgr w') b a = Some (Dec.neg x)).
Proof.
  intros Ho. pose proof (LedgerFacts.orderly_mirror w Ho) as Hm.
  split; [apply LedgerFacts.mirror_antisymmetric, Hm|].
  split; [intros a b x Hx; apply (Hm a b x Hx)|].
  intros p a w' Hrep Hrun.
  pose proof (LedgerFacts.apply_split_mirror p a w w' Hm Hrep Hrun) as Hm'.
  split; [apply LedgerFacts.mirror_antisymmetric, Hm'|].
  intros a0 b x Hx. apply (Hm' a0 b x Hx).
Qed.

Lemma orderly_ledger_antisymmetric_witness :
  orderly reregistration_1 /\ antisymmetric (mgr reregistration_1).
Proof.
  pose proof LedgerFacts.orderly_reregistration_1 as H.
  split; [exact H|]. exact (proj1 (orderly_ledger_antisymmetric _ H)).
Defined.

(** ** C5: EXACT expenses *)

(** C5, as stated, fails at the boundary: a total of 50.00 with shares
    20.00 and 29.99 differs from the sum by exactly 0.01, and the factory
    rejects it. *)
Lemma exact_boundary_rejected :
  sum_of (Dec.of_int 0) get_amount off_by_a_cent = Ret (Dec.Fin 4999 (-2)) /\
  obind (Dec.sub (Dec.Fin 4999 (-2)) (Dec.Fin 5000 (-2))) Dec.abs = Ret tolerance /\
  create_expense (Member EXACT) (Dec.Fin 5000 (-2)) u1 [0%nat; 1%nat] None off_by_a_cent
  = (off_by_a_cent, Ret None).
Proof. vm_compute. repeat split. Qed.

(** C5 (amended): the factory accepts an EXACT expense exactly when every
    split is an [ExactSplit] and [abs(sum(amounts) - total) < 0.01]
    evaluates to true, the comparison being strict; it never modifies a
    split object; and whenever it does not accept, [add_expense] leaves
    the expense log, the users, the balance table and the split objects
    unchanged. *)
Theorem exact_expense_acceptance (w : World) amt payer (l : list addr) md (objs : list SplitObj) :
  objects_at (heap w) l objs ->
  (forall u, exists r,
     create_expense (Member EXACT) amt u l md (heap w) = (heap w, r) /\
     (r = Ret (Some (mkExpense ExactExpense amt u l md None)) <-> exact_accepted amt objs) /\
     (forall e, r = Ret (Some e) -> e = mkExpense ExactExpense amt u l md None)) /\
  (~ exact_accepted amt objs ->
   mgr (fst (add_expense (Member EXACT) amt payer l md w)) = mgr w /\
   heap (fst (add_expense (Member EXACT) amt payer l md w)) = heap w).
Proof.
  intros Hobjs.
  assert (Hspec : forall u, exists r,
     create_expense (Member EXACT) amt u l md (heap w) = (heap w, r) /\
     (r = Ret (Some (mkExpense ExactExpense amt u l md None)) <-> exact_accepted amt objs) /\
     (forall e, r = Ret (Some e) -> e = mkExpense ExactExpense amt u l md None)).
  { intros u. eexists. split; [apply FactoryFacts.create_exact_spec, Hobjs|].
    unfold exact_accepted. rewrite <- FactoryFacts.forallb_exact.
    destruct (forallb isinstance_ExactSplit objs).
    2:{ split; [split; [discriminate|intros []; discriminate]|discriminate]. }
    destruct (sum_of (Dec.of_int 0) get_amount objs) as [total|err]; cbn [obind].
    2:{ split; [split; [discriminate|intros (_ & t & Ht & _); discriminate]|discriminate]. }
    destruct (within_tolerance total amt) as [[|]|err] eqn:Htol; cbn [obind].
    - split; [split; [intros _; split; [reflexivity|eauto]|reflexivity]|].
      intros e He. inversion He. reflexivity.
    - split; [split; [discriminate|]|discriminate].
      intros (_ & t & Ht & Hw). inversion Ht; subst t. congruence.
    - split; [split; [discriminate|]|discriminate].
      intros (_ & t & Ht & Hw). inversion Ht; subst t. congruence. }
  split; [exact Hspec|].
  intros Hrej.
  assert (Hno : forall u e,
    snd (create_expense (Member EXACT) amt u l md (heap w)) <> Ret (Some e)).
  { intros u e He. destruct (Hspec u) as (r & Hr & Hiff & Hsame).
    rewrite Hr in He. cbn in He. apply Hrej, Hiff. rewrite He. f_equal. f_equal.
    apply Hsame, He. }
  destruct (LedgerFacts.add_expense_not_accepted _ _ payer _ _ _ Hno) as (Hm & Hh1 & Hh2).
  split; [exact Hm|].
  destruct (Dict.get payer (user_map (mgr w))) as [u|] eqn:Hu.
  - rewrite (Hh1 u eq_refl). destruct (Hspec u) as (r & Hr & _). rewrite Hr. reflexivity.
  - apply Hh2. reflexivity.
Qed.

Lemma exact_expense_acceptance_witness :
  let w := registered [u1; u2] off_by_a_cent in
  mgr (fst (add_expense (Member EXACT) (Dec.Fin 5000 (-2)) "u1" [0%nat; 1%nat] None w)) = mgr w /\
  heap (fst (add_expense (Member EXACT) (Dec.Fin 5000 (-2)) "u1" [0%nat; 1%nat] None w)) = heap w.
Proof.
  intros w.
  refine (proj2 (exact_expense_acceptance w (Dec.Fin 5000 (-2)) "u1" [0%nat; 1%nat] None
                   off_by_a_cent _) _).
  - repeat constructor.
  - intros (_ & total & Hsum & Htol). vm_compute in Hsum. inversion Hsum; subst total.
    vm_compute in Htol. discriminate.
Defined.

(** ** C7: signs and unknown strategy kinds *)

(** C7, as stated, fails: the factory accepts an EXACT expense with a
    negative total and a negative share. *)
Lemma negative_exact_accepted :
  create_expense (Member EXACT) (Dec.Fin (-10) 0) u1 [0%nat] None negative_share
  = (negative_share, Ret (Some (mkExpense ExactExpense (Dec.Fin (-10) 0) u1 [0%nat] None None))).
Proof. vm_compute. reflexivity. Qed.

(** C7 (amended): a strategy kind outside the enumeration is rejected at
    once, no share being computed and no split object touched; the sign
    of the amounts is not tested: an EXACT expense whose single share
    equals its total is accepted whatever the sign of the total. *)
Theorem factory_checks_kind_not_sign :
  (forall amt u l md h, create_expense NotMember amt u l md h = (h, Ret None)) /\
  (forall c e u md (h : Heap) (a : addr) (o : SplitObj),
     h !! a = Some o -> cls o = ExactSplit -> amount o = Dec.Fin c e ->
     Dec.representable (Dec.Fin c e) ->
     create_expense (Member EXACT) (Dec.Fin c e) u [a] md h
     = (h, Ret (Some (mkExpense ExactExpense (Dec.Fin c e) u [a] md None)))).
Proof.
  split; [reflexivity|].
  intros c e u md h a o Ha Hcls Hamt Hrep.
  rewrite (FactoryFacts.create_exact_spec _ _ _ _ _ [o]) by (repeat constructor; exact Ha).
  cbn [forallb]. unfold isinstance_ExactSplit. rewrite Hcls. cbn [andb].
  cbn [sum_of]. unfold get_amount. rewrite Hamt. cbn [obind].
  destruct (DecFacts.add_zero_l 0 c e Hrep) as (e' & He' & Hadd).
  change (Dec.of_int 0) with (Dec.Fin 0 0). rewrite Hadd. cbn [obind].
  unfold within_tolerance.
  destruct (DecFacts.sub_same_value c e e' He') as [e'' Hsub]. rewrite Hsub. cbn [obind].
  pose proof (DecFacts.zero_lt_tolerance e'') as Hz. unfold tolerance. rewrite Hz. reflexivity.
Qed.

Lemma factory_checks_kind_not_sign_witness :
  create_expense (Member EXACT) (Dec.Fin (-10) 0) u1 [0%nat] None negative_share
  = (negative_share, Ret (Some (mkExpense ExactExpense (Dec.Fin (-10) 0) u1 [0%nat] None None))).
Proof.
  apply (proj2 factory_checks_kind_not_sign (-10)%Z 0%Z u1 None negative_share 0%nat
           (exact u2 (-10) 0)); reflexivity.
Defined.

(** ** C6: PERCENT expenses *)

(** C6, as stated, fails at the boundary: percents 50 and 50.01 sum to
    100.01, which is within 0.01 of 100, and the factory rejects the
    expense (after assigning the derived shares 50 and 50.01). *)
Lemma percent_boundary_rejected :
  sum_of (Dec.of_int 0) get_percent percent_off_by_a_cent = Ret (Dec.Fin 10001 (-2)) /\
  obind (Dec.sub (Dec.Fin 10001 (-2)) hundred) Dec.abs = Ret tolerance /\
  create_expense (Member PERCENT) (Dec.Fin 100 0) u1 [0%nat; 1%nat] None percent_off_by_a_cent
  = ([mkSplit (PercentSplit (Dec.Fin 50 0)) u1 (Dec.Fin 50 0);
      mkSplit (PercentSplit (Dec.Fin 5001 (-2))) u2 (Dec.Fin 5001 (-2))], Ret None).
Proof. vm_compute. repeat split. Qed.

(** C6 (amended): the factory accepts a PERCENT expense exactly when the
    derived shares can be computed, every split is a [PercentSplit] and
    [abs(sum(percents) - 100) < 0.01] evaluates to true, the comparison
    being strict; the test reads the percents the caller supplied, not
    the derived amounts; and whenever the factory returns, every percent
    split of the list holds the share [(amount * percent) / 100], all
    other amounts being unchanged. *)
Theorem percent_expense_acceptance amt u (l : list addr) md (h : Heap) (objs : list SplitObj) :
  objects_at h l objs ->
  exists h' r,
    create_expense (Member PERCENT) amt u l md h = (h', r) /\
    (r = Ret (Some (mkExpense PercentExpense amt u l md None)) <-> percent_accepted amt objs) /\
    (forall e, r = Ret (Some e) -> e = mkExpense PercentExpense amt u l md None) /\
    (forall v, r = Ret v -> forall a o, h !! a = Some o ->
       exists o', h' !! a = Some o' /\ cls o' = cls o /\ user o' = user o /\
         (In a l -> forall p, cls o = PercentSplit p -> percent_share amt p = Ret (amount o')) /\
         (~ In a l -> amount o' = amount o) /\
         ((forall p, cls o <> PercentSplit p) -> amount o' = amount o)).
Proof.
  intros Hobjs.
  destruct (FactoryFacts.percent_loop amt l h objs Hobjs) as (h' & r0 & Hloop & Hid & Hiff & Hamounts).
  exists h'. eexists. split; [apply (FactoryFacts.create_percent_spec _ _ _ _ _ _ _ _ Hobjs Hloop Hid)|].
  unfold percent_accepted. rewrite <- FactoryFacts.forallb_percent, <- Hiff.
  destruct r0 as [[]|e0].
  2:{ split; [split; [discriminate|intros [? _]; discriminate]|].
      split; discriminate. }
  assert (Hlast : forall a o, h !! a = Some o ->
       exists o', h' !! a = Some o' /\ cls o' = cls o /\ user o' = user o /\
         (In a l -> forall p, cls o = PercentSplit p -> percent_share amt p = Ret (amount o')) /\
         (~ In a l -> amount o' = amount o) /\
         ((forall p, cls o <> PercentSplit p) -> amount o' = amount o)).
  { intros a o Ha. destruct (Hamounts eq_refl a o Ha) as (o' & Ho' & H1 & H2 & H3).
    destruct (Hid a o Ha) as (o'' & Ho'' & Hc & Hu).
    assert (o'' = o') by congruence. subst o''.
    exists o'. repeat split; assumption. }
  destruct (forallb isinstance_PercentSplit objs).
  2:{ split; [split; [discriminate|intros (_ & ? & _); discriminate]|].
      split; [discriminate|intros _ _; exact Hlast]. }
  destruct (sum_of (Dec.of_int 0) get_percent objs) as [total|err]; cbn [obind].
  2:{ split; [split; [discriminate|intros (_ & _ & t & Ht & _); discriminate]|].
      split; discriminate. }
  destruct (within_tolerance total hundred) as [[|]|err] eqn:Htol; cbn [obind].
  - split; [split; [intros _; repeat split; eauto|reflexivity]|].
    split; [intros e He; inversion He; reflexivity|intros _ _; exact Hlast].
  - split; [split; [discriminate|]|].
    + intros (_ & _ & t & Ht & Hw). inversion Ht; subst t. congruence.
    + split; [discriminate|intros _ _; exact Hlast].
  - split; [split; [discriminate|]|].
    + intros (_ & _ & t & Ht & Hw). inversion Ht; subst t. congruence.
    + split; discriminate.
Qed.

Lemma percent_expense_acceptance_witness :
  exists h' r,
    create_expense (Member PERCENT) (Dec.Fin 100 0) u1 [0%nat; 1%nat] None percent_off_by_a_cent
    = (h', r) /\
    (r = Ret (Some (mkExpense PercentExpense (Dec.Fin 100 0) u1 [0%nat; 1%nat] None None))
     <-> percent_accepted (Dec.Fin 100 0) percent_off_by_a_cent).
Proof.
  destruct (percent_expense_acceptance (Dec.Fin 100 0) u1 [0%nat; 1%nat] None
              percent_off_by_a_cent percent_off_by_a_cent)
    as (h' & r & Hrun & Hiff & _).
  - repeat constructor.
  - exists h', r. split; assumption.
Defined.

(** ** C8: the payer as a participant *)

(** C8, as stated, fails: an EXACT expense of
    1.00000000000000000000000000001 that u1 pays for themselves is
    accepted, and leaves [balance[u1][u1] = -1E-29]: the sum
    [0 + share] is rounded to 28 digits before the share is subtracted. *)
Lemma long_self_share_leaves_residue :
  let run := add_expense (Member EXACT) long_amount "u1" [0%nat] None long_share in
  snd run = Ret tt /\
  length (expenses (mgr (fst run))) = 1%nat /\
  entry (mgr long_share) "u1" "u1" = None /\
  entry (mgr (fst run)) "u1" "u1" = Some (Dec.Fin (-1) (-29)) /\
  Dec.eq (Dec.Fin (-1) (-29)) (Dec.of_int 0) = Ret false.
Proof. vm_compute. repeat split. Qed.

(** C8 (amended): the factory's verdict does not depend on the payer, so
    a split of the payer with themselves is neither rejected nor treated
    apart; when the splits of an expense are applied without an
    exception, every balance entry other than payer-to-self ends as it
    would with the payer's own splits left out; and in an orderly ledger,
    with share amounts that are finite and fit the 28-digit context, the
    payer-to-self entry is zero before and after the expense. *)
Theorem self_split_neutral :
  (forall t amt u u' (l : list addr) md (h : Heap),
     create_expense t amt u' l md h =
     (fst (create_expense t amt u l md h),
      match snd (create_expense t amt u l md h) with
      | Ret (Some e) => Ret (Some (with_payer u' e))
      | r => r
      end)) /\
  (forall p (l : list addr) (w w' : World),
     for_each l (apply_split p) w = (w', Ret tt) ->
     exists w'', for_each (others p (heap w) l) (apply_split p) w = (w'', Ret tt) /\
       forall a b, (a <> p \/ b <> p) -> entry (mgr w') a b = entry (mgr w'') a b) /\
  (forall t amt p (l : list addr) md (w w' : World),
     orderly w -> add_expense t amt p l md w = (w', Ret tt) ->
     shares_representable (heap w') l ->
     Dec.eq (current (mgr w) p p) (Dec.of_int 0) = Ret true /\
     Dec.eq (current (mgr w') p p) (Dec.of_int 0) = Ret true).
Proof.
  split; [apply FactoryFacts.create_expense_any_payer|]. split.
  - intros p l w w' Hrun.
    destruct (LedgerFacts.others_run p l w w' w (LedgerFacts.agree_but_self_refl p w) Hrun)
      as (w'' & Hrun' & _ & _ & Hent).
    exists w''. split; assumption.
  - intros t amt p l md w w' Ho Hrun Hrep.
    assert (Ho' : orderly w') by (eapply orderly_add_expense; eassumption).
    destruct (LedgerFacts.mirror_self_zero _ p (LedgerFacts.orderly_mirror _ Ho)) as [e0 ->].
    destruct (LedgerFacts.mirror_self_zero _ p (LedgerFacts.orderly_mirror _ Ho')) as [e1 ->].
    split; apply LedgerFacts.eq_zero.
Qed.

Lemma self_split_neutral_witness :
  let w := registered [u1; u2] [exact u1 2000 (-2); exact u2 3000 (-2)] in
  let w' := fst (add_expense (Member EXACT) (Dec.Fin 5000 (-2)) "u1" [0%nat; 1%nat] None w) in
  Dec.eq (current (mgr w) "u1" "u1") (Dec.of_int 0) = Ret true /\
  Dec.eq (current (mgr w') "u1" "u1") (Dec.of_int 0) = Ret true.
Proof.
  intros w w'.
  apply (proj2 (proj2 self_split_neutral) (Member EXACT) (Dec.Fin 5000 (-2)) "u1"
           [0%nat; 1%nat] None w w').
  - apply (orderly_add_user u2 (fst (add_user u1
             (mkWorld [exact u1 2000 (-2); exact u2 3000 (-2)] init [])))).
    + apply (orderly_add_user u1). constructor. reflexivity.
    + reflexivity.
  - reflexivity.
  - intros a [<-|[<-|[]]]; eexists; split; reflexivity.
Defined.

(** ** C10: the EQUAL branch and an empty list of splits *)

(** C10, as stated, fails: with EQUAL and no split the exception need
    not be a division by zero or an index error.  A NaN total gets as far
    as [round], which raises ValueError; an infinite total makes [round]
    raise OverflowError; and for the total 1E+999999 the product
    [amount * 100] overflows. *)
Lemma empty_equal_split_other_errors :
  create_expense (Member EQUAL) (Dec.NaN false) u1 [] None [] = ([], Raise ValueError) /\
  create_expense (Member EQUAL) (Dec.Inf false) u1 [] None [] = ([], Raise OverflowError) /\
  create_expense (Member EQUAL) (Dec.Fin 1 999999) u1 [] None [] = ([], Raise Overflow).
Proof. repeat split; vm_compute; reflexivity. Qed.

(** C10: with EQUAL and no split the factory never returns, neither an
    expense nor the rejection value: for every total it raises while it
    computes the base share, leaving the store as it is, and the index
    [splits[0]] is never reached.  The exception follows from the product
    [amount * 100]: when it is a finite number, it is that of the division
    by the count 0, DivisionByZero for a nonzero dividend and
    InvalidOperation (0 / 0) for a zero one; when it is an infinity,
    OverflowError; when it is a NaN, ValueError; and when the product
    itself raises (Overflow, or InvalidOperation for a signaling NaN),
    that exception.  With at least one split, the factory raises neither
    a division by zero nor an index error, whatever the total and the
    objects. *)
Theorem equal_split_needs_a_participant :
  (forall amt u md (h : Heap), exists e,
     create_expense (Member EQUAL) amt u [] md h = (h, Raise e) /\
     e <> IndexError /\
     (forall ct et, Dec.mul amt hundred = Ret (Dec.Fin ct et) ->
        e = if (ct =? 0)%Z then InvalidOperation else DivisionByZero) /\
     (forall s, Dec.mul amt hundred = Ret (Dec.Inf s) -> e = OverflowError) /\
     (forall s, Dec.mul amt hundred = Ret (Dec.NaN s) -> e = ValueError) /\
     (forall e', Dec.mul amt hundred = Raise e' ->
        e = e' /\ (e' = Overflow \/ e' = InvalidOperation))) /\
  (forall amt u (a0 : addr) (l : list addr) md (h h' : Heap) e,
     create_expense (Member EQUAL) amt u (a0 :: l) md h = (h', Raise e) ->
     e <> DivisionByZero /\ e <> IndexError).
Proof.
  split.
  - intros amt u md h.
    destruct (FactoryFacts.equal_share_zero_cases amt) as (e & He & Hkind).
    exists e. split; [|exact Hkind].
    unfold create_expense. cbn [build_expense]. change (Z.of_nat (length [])) with 0%Z.
    unfold bind, lift. rewrite He. reflexivity.
  - intros amt u a0 l md h h' e H.
    exact (FactoryFacts.create_equal_raises amt u a0 l md h h' e H).
Qed.

(** A total of 100 among nobody: the division by the count raises.  An
    infinite total for one participant: the division returns, [round]
    raises. *)
Lemma equal_split_needs_a_participant_witness :
  create_expense (Member EQUAL) (Dec.Fin 100 0) u1 [] None [] = ([], Raise DivisionByZero) /\
  OverflowError <> DivisionByZero /\ OverflowError <> IndexError.
Proof.
  split.
  - destruct (proj1 equal_split_needs_a_participant (Dec.Fin 100 0) u1 None [])
      as (e & Hrun & _ & Hfin & _).
    rewrite (Hfin 10000%Z 0%Z eq_refl) in Hrun. exact Hrun.
  - apply (proj2 equal_split_needs_a_participant (Dec.Inf false) u1 0%nat [] None
             [equal u1] [equal u1] OverflowError).
    reflexivity.
Defined.

(** ** C9: the global balance query *)

(** C9: in a reachable ledger in which antisymmetry holds, the query
    without a user id returns normally and prints one "owes" line for
    every strictly positive entry of the balance table, in iteration
    order, or "No balances" when no entry is positive; the positive
    entries are exactly the entries [balance[a][b] > 0], no pair of users
    occurs twice among them, and of the two entries of a pair with a
    nonzero balance exactly one is positive. *)
Theorem global_query_reports_positive_side (w : World) :
  reachable w -> antisymmetric (mgr w) ->
  show_balance None w =
    (emit w (match positive_entries (mgr w) with
             | [] => [NoBalances]
             | es => map (owes_line (mgr w)) es
             end), Ret tt) /\
  (forall a b x, In (a, b, x) (positive_entries (mgr w)) <->
                 entry (mgr w) a b = Some x /\ Dec.gt x (Dec.of_int 0) = Ret true) /\
  List.NoDup (map pair_of (positive_entries (mgr w))) /\
  (forall a b x y,
     entry (mgr w) a b = Some x -> entry (mgr w) b a = Some y ->
     Dec.ne x (Dec.of_int 0) = Ret true ->
     (In (a, b, x) (positive_entries (mgr w)) /\ ~ In (b, a, y) (positive_entries (mgr w))) \/
     (~ In (a, b, x) (positive_entries (mgr w)) /\ In (b, a, y) (positive_entries (mgr w)))).
Proof.
  intros Hreach Hanti.
  pose proof (LedgerFacts.reachable_shape w Hreach) as Hshape.
  pose proof (LedgerFacts.all_entries_printable _ Hshape Hanti) as Hprint.
  assert (Hmem : forall a b x, In (a, b, x) (positive_entries (mgr w)) <->
                 entry (mgr w) a b = Some x /\ Dec.gt x (Dec.of_int 0) = Ret true).
  { intros a b x. unfold positive_entries. rewrite filter_In.
    rewrite (LedgerFacts.all_entries_entry _ a b x Hshape). cbn [is_positive_entry].
    split; intros [Hx Hp]; (split; [exact Hx|]).
    - destruct (Hanti a b x Hx) as (y & _ & Heq).
      rewrite (LedgerFacts.positive_gt x (DecFacts.eq_not_nan _ _ Heq)), Hp. reflexivity.
    - unfold positive. rewrite Hp. reflexivity. }
  split; [|split; [exact Hmem|split]].
  - unfold show_balance. rewrite (MonadFacts.bind_ret_eq _ _ w w (mgr w) eq_refl).
    rewrite (MonadFacts.bind_ret_eq _ _ _ _ _
               (LedgerFacts.show_rows_global (balance_sheet (mgr w)) true w Hprint)).
    fold (all_entries (mgr w)). fold (positive_entries (mgr w)). cbn [andb].
    destruct (positive_entries (mgr w)) as [|t ts]; cbn [is_nil].
    + unfold print, emit. cbn. rewrite app_nil_r. reflexivity.
    + reflexivity.
  - apply LedgerFacts.NoDup_map_filter, LedgerFacts.NoDup_all_entries, Hshape.
  - intros a b x y Hx Hy Hne.
    destruct (Hanti a b x Hx) as (y' & Hy' & Heq).
    assert (y' = y) by congruence. subst y'.
    rewrite !Hmem.
    destruct (DecFacts.mirrored_signs x y Heq Hne) as [[Hgx Hgy]|[Hgx Hgy]]; [left|right].
    + split; [split; assumption|]. intros [_ H]. congruence.
    + split; [|split; assumption]. intros [_ H]. congruence.
Qed.

Lemma global_query_reports_positive_side_witness :
  show_balance None reregistration_1 =
  (emit reregistration_1 [Owes "User2" "User1" (Dec.Fin 10 0)], Ret tt).
Proof.
  refine (proj1 (global_query_reports_positive_side reregistration_1 _ _)).
  - apply LedgerFacts.orderly_reachable, LedgerFacts.orderly_reregistration_1.
  - apply LedgerFacts.mirror_antisymmetric, LedgerFacts.orderly_mirror,
      LedgerFacts.orderly_reregistration_1.
Defined.

(** ** C4: the equal split *)

(** C4, as stated, fails: not every non-negative total is split without
    loss.  A total of 30 digits, 1234567890123456789012345678.99, split
    among two is accepted, both shares are 617283945061728394506172839.5
    (the remainder, computed in 28 digits, is lost when it is added to the
    first share), and the shares add up to a cent more than the total. *)
Example long_total_shares_do_not_add_up :
  let amt := Dec.Fin 123456789012345678901234567899 (-2) in
  let share := Dec.Fin 6172839450617283945061728395 (-1) in
  create_expense (Member EQUAL) amt u1 [0%nat; 1%nat] None [equal u1; equal u2] =
    ([mkSplit EqualSplit u1 share; mkSplit EqualSplit u2 share],
     Ret (Some (mkExpense EqualExpense amt u1 [0%nat; 1%nat] None None))) /\
  ~ (total_value [mkSplit EqualSplit u1 share; mkSplit EqualSplit u2 share]
     == Dec.value amt)%Q.
Proof.
  cbv zeta. split; [vm_compute; reflexivity|].
  unfold Qeq. vm_compute. discriminate.
Qed.

(** C4: for a non-negative total with at most two decimal places and at
    most 24 digits, split among fewer than 10^25 distinct split objects,
    the equal split raises nothing; every participant but the first is
    assigned the base share [round(amount * 100 / n) / 100], the first is
    assigned the base share plus the remainder [amount - share * n], and
    the shares add up to the total exactly: what the first participant
    gets beyond the base share is the whole difference between the total
    and n base shares. *)
Theorem equal_split_conserves_total (c e : Z) u (a0 : addr) (rest : list addr) md
    (h : Heap) (objs : list SplitObj) :
  let l := a0 :: rest in
  let n := Z.of_nat (length l) in
  let amt := Dec.Fin c e in
  (0 <= c < 10 ^ 24)%Z -> (-2 <= e <= 0)%Z -> (n < 10 ^ 25)%Z ->
  List.NoDup l -> objects_at h l objs ->
  exists s f h' r,
    equal_share amt n = Ret s /\
    first_share amt s n = Ret f /\
    create_expense (Member EQUAL) amt u l md h = (h', Ret r) /\
    (forall o, h !! a0 = Some o -> h' !! a0 = Some (mkSplit (cls o) (user o) f)) /\
    (forall a o, In a rest -> h !! a = Some o ->
       h' !! a = Some (mkSplit (cls o) (user o) s)) /\
    (Dec.value f + inject_Z (Z.of_nat (length rest)) * Dec.value s == Dec.value amt)%Q /\
    (Dec.value f - Dec.value s == Dec.value amt - inject_Z n * Dec.value s)%Q.
Proof.
  intros l n amt Hc He Hn Hnd Hobjs.
  assert (Hn1 : (1 <= n < 10 ^ 25)%Z)
    by (unfold n, l in Hn |- *; cbn [length] in Hn |- *; lia).
  destruct (EqualFacts.equal_share_returns c e n Hc He Hn1)
    as (r0 & cs & es & Hs & Hr0 & Hrn & Hcs & Hes & Hval).
  destruct (EqualFacts.first_share_exact c e n r0 cs es Hc He Hn1 Hr0 Hrn Hcs Hes Hval)
    as (F & m & Hf & Hsum).
  change (first_share amt (Dec.Fin cs es) n = Ret (Dec.Fin F m)) in Hf.
  destruct (EqualFacts.equal_build _ _ _ u a0 rest md h objs Hobjs Hs Hf) as (h' & Hbuild & Hall).
  pose proof (EqualFacts.objects_reassigned _ h h' Hall l objs Hobjs) as Hobjs'.
  assert (Hrest : Z.of_nat (length rest) = (n - 1)%Z) by (unfold n, l; cbn [length]; lia).
  exists (Dec.Fin cs es), (Dec.Fin F m), h'. eexists.
  split; [exact Hs|]. split; [exact Hf|]. split; [|split; [|split; [|split]]].
  - unfold create_expense. rewrite (MonadFacts.bind_ret_eq _ _ _ _ _ Hbuild).
    unfold validate. cbn [expense_cls splits].
    rewrite (MonadFacts.bind_ret_eq _ _ _ _ _
               (FactoryFacts.all_splits_spec isinstance_EqualSplit h' l _ Hobjs')).
    reflexivity.
  - intros o Ho. rewrite (Hall _ _ Ho). unfold equal_amount. rewrite Nat.eqb_refl. reflexivity.
  - intros a o Ha Ho. rewrite (Hall _ _ Ho). unfold equal_amount.
    destruct (Nat.eqb_spec a a0) as [->|_].
    + exfalso. inversion Hnd; contradiction.
    + assert (Hex : existsb (Nat.eqb a) rest = true).
      { apply existsb_exists. exists a. split; [exact Ha|apply Nat.eqb_refl]. }
      rewrite Hex. reflexivity.
  - rewrite Hrest. exact Hsum.
  - unfold amt. rewrite <- Hsum. unfold Z.sub. rewrite inject_Z_plus, inject_Z_opp.
    change (inject_Z 1) with 1%Q.
    generalize (inject_Z n) as x, (Dec.value (Dec.Fin F m)) as vf,
      (Dec.value (Dec.Fin cs es)) as vs.
    intros. ring.
Qed.

(** 100 split among three: 33.34, 33.33 and 33.33. *)
Lemma equal_split_conserves_total_witness :
  exists h' r,
    create_expense (Member EQUAL) (Dec.Fin 100 0) u1 [0%nat; 1%nat; 2%nat] None
      [equal u1; equal u2; equal u3] = (h', Ret r) /\
    h' = [mkSplit EqualSplit u1 (Dec.Fin 3334 (-2)); mkSplit EqualSplit u2 (Dec.Fin 3333 (-2));
          mkSplit EqualSplit u3 (Dec.Fin 3333 (-2))].
Proof.
  destruct (equal_split_conserves_total 100 0 u1 0%nat [1%nat; 2%nat] None
              [equal u1; equal u2; equal u3] [equal u1; equal u2; equal u3])
    as (s & f & h' & r & _ & _ & Hrun & _).
  - lia.
  - lia.
  - cbn. lia.
  - repeat constructor; cbn; intuition discriminate.
  - repeat constructor.
  - exists h', r. split; [exact Hrun|].
    apply (f_equal fst) in Hrun. cbn [fst] in Hrun. rewrite <- Hrun.
    vm_compute. reflexivity.
Defined.

End Claims.

(** * Further properties of the code *)

Section Extras.
Import Scenario.
Local Open Scope string_scope.
Local Open Scope list_scope.

(** ** The EQUAL branch of [create_expense] *)

(** X1: for a non-negative total with at most two decimal places and
    at most 24 digits, split among distinct split objects, the EQUAL branch
    raises nothing: every split but the first gets the base share
    [round(amount * 100 / n) / 100], the first gets the base share plus
    the remainder [amount - share * n], no other object changes, the
    expense is accepted exactly when every split is an [EqualSplit], and
    the shares add up to the total with no rounding error. *)
Theorem equal_split_shares_add_up (c e : Z) u (a0 : addr) (rest : list addr) md
    (h : Heap) (objs : list SplitObj) :
  let l := a0 :: rest in
  let n := Z.of_nat (length l) in
  (0 <= c < 10 ^ 24)%Z -> (-2 <= e <= 0)%Z -> (n < 10 ^ 25)%Z ->
  List.NoDup l -> objects_at h l objs ->
  exists s f h' objs',
    equal_share (Dec.Fin c e) n = Ret s /\
    first_share (Dec.Fin c e) s n = Ret f /\
    create_expense (Member EQUAL) (Dec.Fin c e) u l md h =
      (h', Ret (if forallb isinstance_EqualSplit objs
                then Some (mkExpense EqualExpense (Dec.Fin c e) u l md None)
                else None)) /\
    objects_at h' l objs' /\
    map amount objs' = f :: repeat s (length rest) /\
    map cls objs' = map cls objs /\ map user objs' = map user objs /\
    (forall a o, h !! a = Some o -> ~ In a l -> h' !! a = Some o) /\
    (total_value objs' == Dec.value (Dec.Fin c e))%Q.
Proof.
  intros l n Hc He Hn Hnd Hobjs.
  assert (Hn1 : (1 <= n < 10 ^ 25)%Z)
    by (unfold n, l in Hn |- *; cbn [length] in Hn |- *; lia).
  destruct (EqualFacts.equal_share_returns c e n Hc He Hn1)
    as (r & cs & es & Hs & Hr0 & Hrn & Hcs & Hes & Hval).
  destruct (EqualFacts.first_share_exact c e n r cs es Hc He Hn1 Hr0 Hrn Hcs Hes Hval)
    as (F & m & Hf & Hsum).
  change (first_share (Dec.Fin c e) (Dec.Fin cs es) n = Ret (Dec.Fin F m)) in Hf.
  destruct (EqualFacts.equal_build _ _ _ u a0 rest md h objs Hobjs Hs Hf) as (h' & Hbuild & Hall).
  pose proof (EqualFacts.objects_reassigned _ h h' Hall l objs Hobjs) as Hobjs'.
  pose proof (Forall2_length _ _ _ Hobjs) as Hlen.
  destruct (EqualFacts.zip_identities (equal_amount a0 rest (Dec.Fin F m) (Dec.Fin cs es))
              l objs Hlen) as (Hcls & Husr & Hlen').
  set (objs' := zip_with (fun a o => mkSplit (cls o) (user o)
                  (equal_amount a0 rest (Dec.Fin F m) (Dec.Fin cs es) a o)) l objs) in *.
  exists (Dec.Fin cs es), (Dec.Fin F m), h', objs'.
  split; [exact Hs|]. split; [exact Hf|].
  assert (Hrest : exists o0 orest, objs = o0 :: orest /\ length orest = length rest /\
            objs' = mkSplit (cls o0) (user o0) (Dec.Fin F m) ::
                    zip_with (fun a o => mkSplit (cls o) (user o)
                      (equal_amount a0 rest (Dec.Fin F m) (Dec.Fin cs es) a o)) rest orest).
  { destruct objs as [|o0 orest]; [discriminate|]. exists o0, orest.
    split; [reflexivity|]. split; [cbn in Hlen; lia|].
    unfold objs', l. cbn [zip_with]. unfold equal_amount at 1. rewrite Nat.eqb_refl. reflexivity. }
  destruct Hrest as (o0 & orest & -> & Hlr & Hobjs'eq).
  assert (Hsame : Forall (fun o => amount o = Dec.Fin cs es)
            (zip_with (fun a o => mkSplit (cls o) (user o)
               (equal_amount a0 rest (Dec.Fin F m) (Dec.Fin cs es) a o)) rest orest)).
  { apply EqualFacts.total_value_rest.
    - inversion Hnd; assumption.
    - intros b Hb; exact Hb.
    - exact Hlr. }
  assert (Hlz : length (zip_with (fun a o => mkSplit (cls o) (user o)
               (equal_amount a0 rest (Dec.Fin F m) (Dec.Fin cs es) a o)) rest orest)
                = length rest).
  { destruct (EqualFacts.zip_identities (equal_amount a0 rest (Dec.Fin F m) (Dec.Fin cs es))
                rest orest (eq_sym Hlr)) as (_ & _ & Hl). rewrite Hl. exact Hlr. }
  repeat split.
  - unfold create_expense. rewrite (MonadFacts.bind_ret_eq _ _ _ _ _ Hbuild).
    unfold validate. cbn [expense_cls splits].
    rewrite (MonadFacts.bind_ret_eq _ _ _ _ _
               (FactoryFacts.all_splits_spec isinstance_EqualSplit h' l objs' Hobjs')).
    rewrite (EqualFacts.forallb_equal_cls _ _ Hcls). reflexivity.
  - exact Hobjs'.
  - rewrite Hobjs'eq. cbn [map amount]. f_equal.
    rewrite (EqualFacts.map_amount_same _ _ Hsame), Hlz. reflexivity.
  - exact Hcls.
  - exact Husr.
  - intros a o Ha Hni. rewrite (Hall _ _ Ha). f_equal.
    apply EqualFacts.untouched. exact Hni.
  - rewrite Hobjs'eq. cbn [total_value fold_right amount].
    fold (total_value (zip_with (fun a o => mkSplit (cls o) (user o)
               (equal_amount a0 rest (Dec.Fin F m) (Dec.Fin cs es) a o)) rest orest)).
    rewrite (EqualFacts.total_value_same _ _ Hsame), Hlz.
    rewrite <- Hsum. unfold n, l. cbn [length].
    replace (Z.of_nat (S (length rest)) - 1)%Z with (Z.of_nat (length rest)) by lia.
    reflexivity.
Qed.

(** 100 split among three: 33.34, 33.33 and 33.33. *)
Lemma equal_split_shares_add_up_witness :
  exists s f h' objs',
    equal_share (Dec.Fin 100 0) 3 = Ret s /\
    first_share (Dec.Fin 100 0) s 3 = Ret f /\
    create_expense (Member EQUAL) (Dec.Fin 100 0) u1 [0%nat; 1%nat; 2%nat] None
      [equal u1; equal u2; equal u3] =
      (h', Ret (Some (mkExpense EqualExpense (Dec.Fin 100 0) u1 [0%nat; 1%nat; 2%nat] None None))) /\
    objects_at h' [0%nat; 1%nat; 2%nat] objs' /\
    map amount objs' = [f; s; s] /\
    (total_value objs' == Dec.value (Dec.Fin 100 0))%Q.
Proof.
  destruct (equal_split_shares_add_up 100 0 u1 0%nat [1%nat; 2%nat] None
              [equal u1; equal u2; equal u3] [equal u1; equal u2; equal u3])
    as (s & f & h' & objs' & Hs & Hf & Hrun & Hobjs & Hamt & _ & _ & _ & Hsum).
  - lia.
  - lia.
  - cbn. lia.
  - repeat constructor; cbn; intuition discriminate.
  - repeat constructor.
  - exists s, f, h', objs'. repeat split; assumption.
Defined.

(** ** The PERCENT branch of [create_expense] *)

(** X2: for a finite total and a list of percent splits with finite
    percents, all with exponents between -500 and 500, such that the
    product of the coefficient of the total and the coefficient of each
    percent has 28 digits at most, the PERCENT branch derives every share
    without rounding: after the call the amount of each split of the list
    is a finite number, exactly total * percent / 100, so the shares add
    up to total * (sum of percents) / 100, and to the total when the
    percents add up to 100.  This holds whatever the verdict on the
    expense. *)
Theorem percent_shares_exact (c e : Z) u (l : list addr) md (h : Heap)
    (objs : list SplitObj) :
  (-500 <= e <= 500)%Z -> objects_at h l objs -> Forall (short_percent c) objs ->
  exists objs',
    objects_at (fst (create_expense (Member PERCENT) (Dec.Fin c e) u l md h)) l objs' /\
    Forall2 (exact_percent_share (Dec.Fin c e)) objs objs' /\
    (total_value objs' * (100 # 1) == Dec.value (Dec.Fin c e) * total_percent objs)%Q /\
    ((total_percent objs == 100 # 1)%Q ->
     (total_value objs' == Dec.value (Dec.Fin c e))%Q).
Proof.
  intros He Hobjs Hshort.
  destruct (PercentFacts.percent_loop_exact c e l h objs He Hobjs Hshort)
    as (h' & objs' & Hrun & Hid & Hobjs' & Hrel).
  rewrite (FactoryFacts.create_percent_spec _ u l md h h' objs (Ret tt) Hobjs Hrun Hid).
  cbn [fst]. exists objs'. split; [exact Hobjs'|]. split; [exact Hrel|].
  pose proof (PercentFacts.totals_related _ _ _ Hrel) as Htot.
  split; [exact Htot|].
  intros H100. rewrite H100 in Htot.
  apply (Qmult_inj_r _ _ (100 # 1)); [discriminate|].
  rewrite Htot. reflexivity.
Qed.

(** A total of 100 split as 50 percent and 50.01 percent. *)
Lemma percent_shares_exact_witness :
  exists objs',
    objects_at (fst (create_expense (Member PERCENT) (Dec.Fin 100 0) u1 [0%nat; 1%nat] None
                       percent_off_by_a_cent)) [0%nat; 1%nat] objs' /\
    (total_value objs' * (100 # 1) ==
     Dec.value (Dec.Fin 100 0) * total_percent percent_off_by_a_cent)%Q.
Proof.
  destruct (percent_shares_exact 100 0 u1 [0%nat; 1%nat] None percent_off_by_a_cent
              percent_off_by_a_cent) as (objs' & Hobjs & _ & Htot & _).
  - lia.
  - repeat constructor.
  - repeat constructor.
    + exists 50%Z, 0%Z. repeat split; lia.
    + exists 5001%Z, (-2)%Z. repeat split; lia.
  - exists objs'. split; assumption.
Defined.

(** ** What the factory and the manager leave alone *)

(** X3: [create_expense] changes nothing but the amounts of the split
    objects it was given, whatever its outcome: every object keeps its
    class and its user, no object is added or removed, objects outside
    the list are untouched; for the EXACT kind and for an unknown kind
    no object changes at all, and [validate] only reads. *)
Theorem factory_assigns_amounts_only t amt u (l : list addr) md (h : Heap) :
  touches_only l h (fst (create_expense t amt u l md h)) /\
  fst (create_expense (Member EXACT) amt u l md h) = h /\
  fst (create_expense NotMember amt u l md h) = h /\
  forall e, fst (validate e h) = h.
Proof.
  split; [apply FootprintFacts.touch_create_expense|].
  split; [symmetry; apply FootprintFacts.same_create_exact|].
  split; [reflexivity|].
  intros e. symmetry. apply FootprintFacts.same_validate.
Qed.

(** X4: whatever its outcome, [add_expense] changes the amounts of
    the given split objects at most, leaves the user registry alone and
    neither adds nor removes a balance row.  Either nothing is logged and
    the manager is unchanged, with "Invalid expense" as the only line it
    may print, and then it returns normally; or exactly the accepted
    expense is appended to the log and nothing is printed. *)
Theorem add_expense_footprint t amt payer (l : list addr) md (w : World) :
  let w' := fst (add_expense t amt payer l md w) in
  touches_only l (heap w) (heap w') /\
  user_map (mgr w') = user_map (mgr w) /\
  (forall k, Dict.get k (balance_sheet (mgr w')) = None <->
             Dict.get k (balance_sheet (mgr w)) = None) /\
  ((mgr w' = mgr w /\
    (stdout w' = stdout w \/
     stdout w' = stdout w ++ [InvalidExpense] /\
     snd (add_expense t amt payer l md w) = Ret tt)) \/
   (exists e u,
      Dict.get payer (user_map (mgr w)) = Some u /\
      splits e = l /\ expense_amount e = amt /\ paid_by e = u /\
      expenses (mgr w') = expenses (mgr w) ++ [e] /\ stdout w' = stdout w)).
Proof. apply FootprintFacts.add_expense_effect. Qed.

(** X5: in every state the ledger can reach, every registered user is
    filed under their own id, a balance row exists for the registered ids
    and for no other, and every logged expense was paid by a user whose id
    is registered. *)
Theorem registry_and_rows_agree (w : World) :
  reachable w -> registry_consistent (mgr w).
Proof. apply FootprintFacts.reachable_registry. Qed.

Lemma registry_and_rows_agree_witness : registry_consistent (mgr reregistration_1).
Proof.
  apply registry_and_rows_agree.
  apply LedgerFacts.orderly_reachable, LedgerFacts.orderly_reregistration_1.
Defined.

(** X6: along any sequence of calls the expense log, the set of
    registered ids and the output only grow: logged expenses stay in the
    log in their order, a registered id stays registered, and printed
    lines are never taken back. *)
Theorem ledger_only_grows (w w' : World) :
  rtc step w w' ->
  (exists es, expenses (mgr w') = expenses (mgr w) ++ es) /\
  (forall k, Dict.get k (user_map (mgr w)) <> None ->
             Dict.get k (user_map (mgr w')) <> None) /\
  (exists lines, stdout w' = stdout w ++ lines).
Proof.
  induction 1 as [w|w w1 w' Hstep _ IH].
  - split; [exists []; rewrite app_nil_r; reflexivity|].
    split; [auto|exists []; rewrite app_nil_r; reflexivity].
  - destruct IH as ((es & Hes) & Hreg & (lines & Hlines)).
    assert (Hone : (exists es1, expenses (mgr w1) = expenses (mgr w) ++ es1) /\
                   (forall k, Dict.get k (user_map (mgr w)) <> None ->
                              Dict.get k (user_map (mgr w1)) <> None) /\
                   (exists lines1, stdout w1 = stdout w ++ lines1)).
    { destruct Hstep.
      - split; [exists []; rewrite app_nil_r; reflexivity|].
        split; [|exists []; rewrite app_nil_r; reflexivity].
        intros k Hk. cbn. rewrite DictFacts.get_set.
        destruct (String.eqb (user_id u) k); [discriminate|exact Hk].
      - destruct (FootprintFacts.add_expense_effect t amt payer l md w)
          as (_ & Hum & _ & Hcases).
        split; [|split].
        + destruct Hcases as [[-> _]|(e & ? & _ & _ & _ & _ & -> & _)];
            [exists []; rewrite app_nil_r; reflexivity|eauto].
        + intros k. rewrite Hum. auto.
        + destruct Hcases as [[_ [->|[-> _]]]|(e & ? & _ & _ & _ & _ & _ & ->)];
            [exists []; rewrite app_nil_r; reflexivity|eauto|
             exists []; rewrite app_nil_r; reflexivity].
      - destruct (LedgerFacts.show_balance_frame uid w) as [-> _].
        split; [exists []; rewrite app_nil_r; reflexivity|].
        split; [auto|apply QueryFacts.show_balance_appends].
      - split; [exists []; rewrite app_nil_r; reflexivity|].
        split; [auto|exists []; rewrite app_nil_r; reflexivity]. }
    destruct Hone as ((es1 & Hes1) & Hreg1 & (lines1 & Hlines1)).
    split; [exists (es1 ++ es); rewrite Hes, Hes1, app_assoc; reflexivity|].
    split; [auto|exists (lines1 ++ lines); rewrite Hlines, Hlines1, app_assoc; reflexivity].
Qed.

Lemma ledger_only_grows_witness :
  exists es, expenses (mgr reregistration_1) = expenses (mgr reregistration_0) ++ es.
Proof.
  refine (proj1 (ledger_only_grows reregistration_0 reregistration_1 _)).
  apply rtc_once. unfold reregistration_1. constructor.
Defined.

(** ** The balance queries *)

(** X7: [show_balance] only prints.  Whatever its argument and its
    outcome, the manager and the split objects are unchanged and the
    output is extended; when it returns normally it has printed either the
    single line "No balances" or one or more "owes" lines and nothing
    else. *)
Theorem show_balance_only_prints (uid : option string) (w : World) :
  let w' := fst (show_balance uid w) in
  mgr w' = mgr w /\ heap w' = heap w /\
  (exists lines, stdout w' = stdout w ++ lines) /\
  (snd (show_balance uid w) = Ret tt ->
   exists lines, stdout w' = stdout w ++ lines /\
     (lines = [NoBalances] \/ lines <> [] /\ forallb is_owes lines = true)).
Proof.
  cbv zeta. destruct (LedgerFacts.show_balance_frame uid w) as [Hm Hh].
  split; [exact Hm|]. split; [exact Hh|].
  split; [apply QueryFacts.show_balance_appends|].
  intros Hret. destruct (show_balance uid w) as [w' r] eqn:Hrun. cbn [fst snd] in *. subst r.
  destruct (QueryFacts.show_balance_returns uid w w' Hrun) as (lines & -> & Hlines).
  exists lines. split; [reflexivity|exact Hlines].
Qed.

Lemma show_balance_only_prints_witness :
  exists lines, stdout (fst (show_balance (Some "u2") reregistration_1)) =
                stdout reregistration_1 ++ lines /\
    (lines = [NoBalances] \/ lines <> [] /\ forallb is_owes lines = true).
Proof.
  apply (show_balance_only_prints (Some "u2") reregistration_1). reflexivity.
Defined.

(** X8: in a reachable ledger whose entries all have their negated
    mirror entry, the query for a user id (other than the empty string)
    returns normally and prints one line for every nonzero balance of that
    user's row, in the order of the row: the user owes when the balance is
    negative and is owed when it is positive.  It prints "No balances"
    when the row has no nonzero balance, and also when the id is unknown;
    and the two users of a pair are shown the same line. *)
Theorem user_query_reports_row (w : World) (uid : string) :
  reachable w -> antisymmetric (mgr w) -> uid <> "" ->
  show_balance (Some uid) w =
    (emit w (match nonzero_items (mgr w) uid with
             | [] => [NoBalances]
             | items => map (user_line (mgr w) uid) items
             end), Ret tt) /\
  (forall b x, In (b, x) (nonzero_items (mgr w) uid) <->
               entry (mgr w) uid b = Some x /\ Dec.ne x (Dec.of_int 0) = Ret true) /\
  (Dict.get uid (user_map (mgr w)) = None -> nonzero_items (mgr w) uid = []) /\
  (forall b x, In (b, x) (nonzero_items (mgr w) uid) ->
               entry (mgr w) b uid = Some (Dec.neg x) ->
               In (uid, Dec.neg x) (nonzero_items (mgr w) b) /\
               user_line (mgr w) b (uid, Dec.neg x) = user_line (mgr w) uid (b, x)).
Proof.
  intros Hreach Hanti Huid.
  pose proof (LedgerFacts.reachable_shape w Hreach) as Hshape.
  assert (Hrow : forall a b x, In (b, x) (row_of (mgr w) a) <-> entry (mgr w) a b = Some x).
  { intros a b x. unfold row_of, entry.
    destruct (Dict.get a (balance_sheet (mgr w))) as [r|] eqn:Hr;
      [|split; [contradiction|discriminate]].
    destruct Hshape as [_ Hrows].
    destruct (Hrows a r (DictFacts.get_Some_in _ _ _ Hr)) as (_ & Hnd & _).
    split; [apply DictFacts.in_get, Hnd|apply DictFacts.get_Some_in]. }
  assert (Hnan : forall a b x, entry (mgr w) a b = Some x -> Dec.is_nan x = false).
  { intros a b x Hx. destruct (Hanti a b x Hx) as (y & _ & Heq).
    exact (DecFacts.eq_not_nan _ _ Heq). }
  assert (Hmem : forall a b x, In (b, x) (nonzero_items (mgr w) a) <->
               entry (mgr w) a b = Some x /\ Dec.ne x (Dec.of_int 0) = Ret true).
  { intros a b x. unfold nonzero_items. rewrite filter_In, Hrow.
    unfold is_nonzero_item. cbn [snd].
    split; intros [Hx Hnz]; (split; [exact Hx|]).
    - rewrite (QueryFacts.ne_nonzero x (Hnan _ _ _ Hx)), Hnz. reflexivity.
    - unfold nonzero. rewrite Hnz. reflexivity. }
  split; [|split; [apply Hmem|split]].
  - unfold show_balance. rewrite (MonadFacts.bind_ret_eq _ _ w w (mgr w) eq_refl).
    assert (Htruthy : truthy (Some uid) = true).
    { unfold truthy. destruct (String.eqb_spec uid EmptyString); [contradiction|reflexivity]. }
    rewrite Htruthy. fold (row_of (mgr w) uid).
    rewrite (MonadFacts.bind_ret_eq _ _ _ _ _
               (QueryFacts.show_items_user uid (row_of (mgr w) uid) true w
                  (QueryFacts.row_printable _ uid Hshape Hanti))).
    fold (nonzero_items (mgr w) uid). cbn [andb].
    destruct (nonzero_items (mgr w) uid) as [|t ts]; cbn [is_nil].
    + unfold print, emit. cbn. rewrite app_nil_r. reflexivity.
    + reflexivity.
  - intros Hnone. unfold nonzero_items, row_of.
    destruct (Dict.get uid (balance_sheet (mgr w))) as [r|] eqn:Hr; [|reflexivity].
    destruct Hshape as [_ Hrows].
    destruct (Hrows uid r (DictFacts.get_Some_in _ _ _ Hr)) as (Hreg & _). contradiction.
  - intros b x Hin Hmirror. apply Hmem in Hin as [Hx Hne].
    pose proof (Hnan _ _ _ Hx) as Hxnan.
    assert (Hnz : nonzero x = true) by (unfold nonzero; rewrite Hne; reflexivity).
    split.
    + apply Hmem. split; [exact Hmirror|].
      destruct x as [c e|[|]|[|]]; try discriminate; try reflexivity.
      revert Hne. unfold Dec.ne, Dec.eq, Dec.neg, Dec.of_int, Dec.cmp.
      cbn [Dec.check_nans obind]. rewrite !Z.mul_0_l.
      pose proof (DecFacts.pow10_pos (e - Z.min e 0) ltac:(lia)) as Hp.
      destruct (Z.compare_spec (c * 10 ^ (e - Z.min e 0)) 0);
        destruct (Z.compare_spec (- c * 10 ^ (e - Z.min e 0)) 0);
        cbn; intros; try reflexivity; try discriminate; nia.
    + unfold user_line. cbn [fst snd].
      rewrite (QueryFacts.negative_neg x Hxnan Hnz), QueryFacts.magnitude_neg.
      destruct (negative x); reflexivity.
Qed.

Lemma user_query_reports_row_witness :
  show_balance (Some "u2") reregistration_1 =
  (emit reregistration_1 [Owes "User2" "User1" (Dec.Fin 10 0)], Ret tt).
Proof.
  refine (proj1 (user_query_reports_row reregistration_1 "u2" _ _ _)).
  - apply LedgerFacts.orderly_reachable, LedgerFacts.orderly_reregistration_1.
  - apply LedgerFacts.mirror_antisymmetric, LedgerFacts.orderly_mirror,
      LedgerFacts.orderly_reregistration_1.
  - discriminate.
Defined.

(** ** Conservation *)

(** X9: in a ledger reached by orderly calls (each user registered
    once, [add_expense] returning normally, share amounts that fit the
    context) every balance is a finite number and all balances of the
    table add up to exactly zero. *)
Theorem orderly_balances_cancel (w : World) :
  orderly w -> finite_entries (mgr w) /\ (balance_total (mgr w) == 0)%Q.
Proof.
  intros Ho. split; [apply BalanceFacts.orderly_finite, Ho|].
  apply BalanceFacts.mirror_total.
  - apply LedgerFacts.reachable_shape, LedgerFacts.orderly_reachable, Ho.
  - apply LedgerFacts.orderly_mirror, Ho.
Qed.

Lemma orderly_balances_cancel_witness :
  finite_entries (mgr reregistration_1) /\ (balance_total (mgr reregistration_1) == 0)%Q.
Proof. apply orderly_balances_cancel, LedgerFacts.orderly_reregistration_1. Defined.

(** ** The command loop of [main] *)

(** X10: whatever the commands and whatever [Decimal(word)] and
    [int(word)] return, the ledger [main] works on is one the manager's
    methods can reach, its registry is the one [main] built before the
    first command (no command registers, replaces or drops a user), the
    balance table has a row for u1, u2, u3 and u4 and for no other id, and
    every command line is answered by one iteration: no exception ends
    the loop. *)
Theorem main_keeps_its_users (Decimal_of_str : string -> outcome Decimal)
    (int_of_str : string -> outcome Z) (inputs : list (list string)) :
  let run := main Decimal_of_str int_of_str inputs in
  reachable (fst run) /\
  user_map (mgr (fst run)) = map (fun u => (user_id u, u)) users /\
  (forall k, Dict.get k (balance_sheet (mgr (fst run))) <> None <-> In k user_ids) /\
  length (snd run) = length inputs.
Proof.
  cbv zeta. unfold main.
  set (w0 := fst (for_each users add_user (mkWorld [] init []))).
  destruct (MainFacts.loop_keeps Decimal_of_str int_of_str inputs w0)
    as [[Hreach [Hum Hrows]] Hlen].
  split; [|split; [|split]].
  - apply Hreach. apply LedgerFacts.reachable_for_each_add_user. constructor.
  - rewrite Hum. reflexivity.
  - intros k. rewrite Hrows. unfold w0, user_ids. cbn.
    destruct (String.eqb_spec k "u1") as [->|H1]; [split; [auto|discriminate]|].
    destruct (String.eqb_spec k "u2") as [->|H2]; [split; [auto|discriminate]|].
    destruct (String.eqb_spec k "u3") as [->|H3]; [split; [auto|discriminate]|].
    destruct (String.eqb_spec k "u4") as [->|H4]; [split; [auto 6|discriminate]|].
    split; [congruence|]. intros [E|[E|[E|[E|[]]]]]; congruence.
  - exact Hlen.
Qed.

(** X11: in the loop of [main] a command that ends with an "Error"
    line has either left the manager as it was, or its expense had been
    accepted and appended to the log and a balance update then raised
    Overflow or InvalidOperation.  So a failing command has written
    nothing whenever its exception is not one of these two (as with the
    KeyError of an unknown payer, participant or expense type and the
    IndexError of a missing word, since [main] looks every participant up
    before it calls [add_expense]), and whenever it has logged no expense.
    A command whose amount [Decimal(word)] or whose count [int(word)]
    cannot be read, and an EQUAL expense among zero users, end with an
    "Error" line and change nothing at all. *)
Theorem failed_command_writes_nothing (Decimal_of_str : string -> outcome Decimal)
    (int_of_str : string -> outcome Z) :
  (forall (command : list string) (w w' : World) (e : exn),
     reachable w ->
     iteration Decimal_of_str int_of_str command w = (w', Some (Error e)) ->
     (mgr w' = mgr w \/ failed_in_update w w' e) /\
     (~ arithmetic e -> mgr w' = mgr w) /\
     (expenses (mgr w') = expenses (mgr w) -> mgr w' = mgr w)) /\
  (forall (payer word2 : string) (rest : list string) (w : World) (e : exn),
     Decimal_of_str word2 = Raise e ->
     iteration Decimal_of_str int_of_str ("EXPENSE" :: payer :: word2 :: rest) w =
     (w, Some (Error e))) /\
  (forall (payer word2 word3 : string) (rest : list string) (w : World)
          (amt : Decimal) (e : exn),
     Decimal_of_str word2 = Ret amt -> int_of_str word3 = Raise e ->
     iteration Decimal_of_str int_of_str ("EXPENSE" :: payer :: word2 :: word3 :: rest) w =
     (w, Some (Error e))) /\
  (forall (payer word2 word3 : string) (w : World) (amt : Decimal),
     Decimal_of_str word2 = Ret amt -> int_of_str word3 = Ret 0%Z ->
     exists e,
       iteration Decimal_of_str int_of_str ["EXPENSE"; payer; word2; word3; "EQUAL"] w =
       (w, Some (Error e))).
Proof.
  split; [|split; [|split]].
  - intros command w w' e Hreach Hrun.
    pose proof (MainFacts.iteration_fails Decimal_of_str int_of_str command w w' e
                  (FootprintFacts.reachable_registry w Hreach) Hrun) as Hcases.
    split; [exact Hcases|]. split.
    + intros Hne. destruct Hcases as [H|[Harith _]]; [exact H|contradiction].
    + intros Hlog. destruct Hcases as [H|[_ (ex & Hex)]]; [exact H|].
      exfalso. rewrite Hlog in Hex. apply (f_equal (@length Expense)) in Hex.
      rewrite length_app in Hex. cbn in Hex. lia.
  - apply MainFacts.unreadable_amount.
  - apply MainFacts.unreadable_count.
  - apply MainFacts.zero_users_equal.
Qed.

(** "EXPENSE u1 100 2 u1 u9 EQUAL": the participant u9 is unknown. *)
Lemma failed_command_writes_nothing_witness :
  let w := registered users [] in
  let run := iteration (fun _ => Ret (Dec.Fin 100 0)) (fun _ => Ret 2%Z)
               ["EXPENSE"; "u1"; "100"; "2"; "u1"; "u9"; "EQUAL"] w in
  snd run = Some (Error (KeyError "u9")) /\ mgr (fst run) = mgr w.
Proof.
  cbv zeta. split; [reflexivity|].
  refine (proj1 (proj2 (proj1 (failed_command_writes_nothing
            (fun _ => Ret (Dec.Fin 100 0)) (fun _ => Ret 2%Z))
            ["EXPENSE"; "u1"; "100"; "2"; "u1"; "u9"; "EQUAL"] _ _ (KeyError "u9") _ _)) _).
  - apply LedgerFacts.reachable_for_each_add_user. constructor.
  - reflexivity.
  - intros [H|H]; discriminate H.
Defined.

(** ** Acceptance of amounts with two decimal places *)

(** X12: for a total and shares with two decimal places at most
    (and sums below 10^26), the tolerance of 0.01 admits no difference:
    an EXACT expense is accepted exactly when every split is an
    [ExactSplit] and the shares add up to the total, to the cent; no
    object is changed. *)
Theorem exact_accepts_exact_sums (amt : Decimal) u (l : list addr) md (h : Heap)
    (objs : list SplitObj) :
  objects_at h l objs ->
  two_decimals amt -> Forall (fun o => two_decimals (amount o)) objs ->
  (Z.abs (cents amt) + cents_bound (map amount objs) < 10 ^ 28)%Z ->
  create_expense (Member EXACT) amt u l md h =
    (h, Ret (if (forallb isinstance_ExactSplit objs &&
                 (total_cents (map amount objs) =? cents amt)%Z)%bool
             then Some (mkExpense ExactExpense amt u l md None)
             else None)) /\
  (total_cents (map amount objs) = cents amt <-> (total_value objs == Dec.value amt)%Q).
Proof.
  intros Hobjs Hamt Hall Hb. split.
  - rewrite (FactoryFacts.create_exact_spec amt u l md h objs Hobjs).
    destruct (forallb isinstance_ExactSplit objs); [|reflexivity]. cbn [andb].
    destruct (MoneyFacts.sum_of_two_decimals get_amount amount objs) as (t & Ht & Ht2 & Htc).
    { eapply List.Forall_impl; [|exact Hall]. intros o Ho. split; [reflexivity|exact Ho]. }
    { pose proof (Z.abs_nonneg (cents amt)). lia. }
    rewrite Ht. cbn [obind].
    rewrite (MoneyFacts.within_tolerance_two_decimals t amt Ht2 Hamt).
    + cbn [obind]. rewrite Htc. reflexivity.
    + rewrite Htc. pose proof (MoneyFacts.total_cents_bound (map amount objs)). lia.
  - rewrite (MoneyFacts.total_value_cents objs Hall), (MoneyFacts.value_cents amt Hamt).
    apply MoneyFacts.cents_equal.
Qed.

(** 20.00 and 29.99 against a total of 50.00: rejected. *)
Lemma exact_accepts_exact_sums_witness :
  create_expense (Member EXACT) (Dec.Fin 5000 (-2)) u1 [0%nat; 1%nat] None off_by_a_cent =
  (off_by_a_cent, Ret None).
Proof.
  refine (proj1 (exact_accepts_exact_sums (Dec.Fin 5000 (-2)) u1 [0%nat; 1%nat] None
                   off_by_a_cent off_by_a_cent _ _ _ _)).
  - repeat constructor.
  - cbn. lia.
  - repeat constructor; cbn; lia.
  - vm_compute. reflexivity.
Defined.

(** X13: for a list of percent splits whose percents have two decimal
    places at most and absolute values that, in hundredths, add up to less
    than 10^28 - 10000, and a finite total with an exponent between -500
    and 500 whose coefficient multiplied by the coefficient of each
    percent has 28 digits at most, a PERCENT expense is accepted exactly
    when the percents add up to 100, and then the derived shares add up to
    the total exactly. *)
Theorem accepted_percent_shares_add_up (c e : Z) u (l : list addr) md (h : Heap)
    (objs : list SplitObj) :
  (-500 <= e <= 500)%Z -> objects_at h l objs -> Forall (short_percent c) objs ->
  Forall (fun o => two_decimals (percent_of o)) objs ->
  (10000 + cents_bound (map percent_of objs) < 10 ^ 28)%Z ->
  exists h' objs',
    create_expense (Member PERCENT) (Dec.Fin c e) u l md h =
      (h', Ret (if (total_cents (map percent_of objs) =? 10000)%Z
                then Some (mkExpense PercentExpense (Dec.Fin c e) u l md None)
                else None)) /\
    objects_at h' l objs' /\
    Forall2 (exact_percent_share (Dec.Fin c e)) objs objs' /\
    (total_cents (map percent_of objs) = 10000%Z ->
     (total_value objs' == Dec.value (Dec.Fin c e))%Q).
Proof.
  intros He Hobjs Hshort Htwo Hb.
  destruct (PercentFacts.percent_loop_exact c e l h objs He Hobjs Hshort)
    as (h' & objs' & Hrun & Hid & Hobjs' & Hrel).
  assert (Hget : Forall (fun o => get_percent o = Ret (percent_of o) /\
                                  two_decimals (percent_of o)) objs).
  { rewrite List.Forall_forall in *. intros o Ho. split; [|apply Htwo, Ho].
    destruct (Hshort o Ho) as (p & f & Hcls & _).
    unfold get_percent, percent_of. rewrite Hcls. reflexivity. }
  exists h', objs'. split; [|split; [exact Hobjs'|split; [exact Hrel|]]].
  - rewrite (FactoryFacts.create_percent_spec _ u l md h h' objs (Ret tt) Hobjs Hrun Hid).
    assert (Hall : forallb isinstance_PercentSplit objs = true).
    { apply FactoryFacts.forallb_percent. eapply List.Forall_impl; [|exact Hshort].
      intros o (p & f & Hcls & _). eauto. }
    rewrite Hall.
    destruct (MoneyFacts.sum_of_two_decimals get_percent percent_of objs Hget)
      as (t & Ht & Ht2 & Htc); [lia|].
    rewrite Ht. cbn [obind].
    rewrite (MoneyFacts.within_tolerance_two_decimals t hundred Ht2).
    + cbn [obind]. rewrite Htc. reflexivity.
    + cbn. lia.
    + rewrite Htc. pose proof (MoneyFacts.total_cents_bound (map percent_of objs)).
      change (cents hundred) with 10000%Z. lia.
  - intros H100.
    pose proof (PercentFacts.totals_related _ _ _ Hrel) as Htot.
    rewrite (MoneyFacts.total_percent_cents objs Hget), H100 in Htot.
    apply (Qmult_inj_r _ _ (100 # 1)); [discriminate|].
    rewrite Htot. apply Qmult_comp; reflexivity.
Qed.

(** A total of 100 split as 50 percent and 50.01 percent: rejected. *)
Lemma accepted_percent_shares_add_up_witness :
  exists h' objs',
    create_expense (Member PERCENT) (Dec.Fin 100 0) u1 [0%nat; 1%nat] None
      percent_off_by_a_cent = (h', Ret None) /\
    objects_at h' [0%nat; 1%nat] objs'.
Proof.
  destruct (accepted_percent_shares_add_up 100 0 u1 [0%nat; 1%nat] None
              percent_off_by_a_cent percent_off_by_a_cent)
    as (h' & objs' & Hrun & Hobjs & _).
  - lia.
  - repeat constructor.
  - repeat constructor.
    + exists 50%Z, 0%Z. repeat split; lia.
    + exists 5001%Z, (-2)%Z. repeat split; lia.
  - repeat constructor; cbn; lia.
  - vm_compute. reflexivity.
  - exists h', objs'. split; [exact Hrun|exact Hobjs].
Defined.

(** ** The balance updates of [add_expense] *)

(** X14: one pass of the loop of [add_expense] for a split of user q
    with amount x, paid by p, when both have a balance row.  If it
    returns, balance[p][q] has become its old value (0 when there was
    none) plus x and balance[q][p] its old value minus x, in Decimal
    arithmetic (for q = p the subtraction starts from the result of the
    addition), and nothing else has changed; it returns whenever these
    two operations do; and the only exceptions it can raise are those of
    the two operations. *)
Theorem split_updates_one_pair (p : string) (a : addr) (o : SplitObj) (w : World) :
  heap w !! a = Some o ->
  Dict.get p (balance_sheet (mgr w)) <> None ->
  Dict.get (user_id (user o)) (balance_sheet (mgr w)) <> None ->
  (forall w', apply_split p a w = (w', Ret tt) ->
     exists v1 v2,
       Dec.add (current (mgr w) p (user_id (user o))) (amount o) = Ret v1 /\
       Dec.sub (if String.eqb p (user_id (user o)) then v1
                else current (mgr w) (user_id (user o)) p) (amount o) = Ret v2 /\
       same_but_sheet w w' /\
       forall a' b', entry (mgr w') a' b' =
         if (String.eqb (user_id (user o)) a' && String.eqb p b')%bool then Some v2
         else if (String.eqb p a' && String.eqb (user_id (user o)) b')%bool then Some v1
         else entry (mgr w) a' b') /\
  (forall v1 v2,
     Dec.add (current (mgr w) p (user_id (user o))) (amount o) = Ret v1 ->
     Dec.sub (if String.eqb p (user_id (user o)) then v1
              else current (mgr w) (user_id (user o)) p) (amount o) = Ret v2 ->
     exists w', apply_split p a w = (w', Ret tt)) /\
  (forall w' e, apply_split p a w = (w', Raise e) -> arithmetic e).
Proof.
  intros Ho Hp Hq. split; [|split].
  - intros w' Hrun.
    apply LedgerFacts.apply_split_ok in Hrun
      as (o' & v1 & v2 & Ho' & Hadd & Hsub & Hsame & Hent & _).
    assert (o' = o) by congruence. subst o'.
    exists v1, v2.
    split; [exact Hadd|split; [exact Hsub|split; [exact Hsame|exact Hent]]].
  - intros v1 v2 Hadd Hsub.
    apply (LedgerFacts.apply_split_run p a o v1 v2 w Ho Hp Hq Hadd Hsub).
  - intros w' e. apply (MainFacts.apply_split_raises p a o w w' e Ho Hp Hq).
Qed.

(** u1 pays 10 for u2 in a fresh ledger. *)
Lemma split_updates_one_pair_witness :
  exists w', apply_split "u1" 0%nat reregistration_0 = (w', Ret tt).
Proof.
  refine (proj1 (proj2 (split_updates_one_pair "u1" 0%nat (exact u2 10 0) reregistration_0
                          _ _ _)) (Dec.Fin 10 0) (Dec.Fin (-10) 0) _ _).
  - reflexivity.
  - discriminate.
  - discriminate.
  - reflexivity.
  - reflexivity.
Defined.

(** ** Registration *)

(** X15: [add_user] touches one user only.  The split objects, the
    output and the expense log are unchanged; the registry entry and the
    balance row of every other id are unchanged, and so is every balance
    entry in the rows of other users, including their balances with the
    user registered; a new id is added at the end of the registry, an id
    registered before keeps its place. *)
Theorem add_user_touches_one_user (u : User) (w : World) :
  let w' := fst (add_user u w) in
  heap w' = heap w /\ stdout w' = stdout w /\ expenses (mgr w') = expenses (mgr w) /\
  (forall k, k <> user_id u ->
     Dict.get k (user_map (mgr w')) = Dict.get k (user_map (mgr w)) /\
     Dict.get k (balance_sheet (mgr w')) = Dict.get k (balance_sheet (mgr w))) /\
  (forall a b, a <> user_id u -> entry (mgr w') a b = entry (mgr w) a b) /\
  map fst (user_map (mgr w')) =
    (if Dict.contains (user_id u) (user_map (mgr w))
     then map fst (user_map (mgr w))
     else map fst (user_map (mgr w)) ++ [user_id u]).
Proof.
  cbn. repeat split.
  - apply DictFacts.get_set_ne. congruence.
  - apply DictFacts.get_set_ne. congruence.
  - intros a b Ha. unfold entry. cbn.
    rewrite DictFacts.get_set_ne by congruence. reflexivity.
  - apply DictFacts.keys_set.
Qed.

Lemma add_user_touches_one_user_witness :
  entry (mgr (fst (add_user u1 reregistration_1))) "u2" "u1" =
  entry (mgr reregistration_1) "u2" "u1".
Proof.
  apply (add_user_touches_one_user u1 reregistration_1). discriminate.
Defined.

End Extras.
